(** * foldertogit: the folder-to-commit migration engine

    A shallow embedding of [pkg/gitconverter/converter.go] and of the window
    in front of it, together with the properties stated about them.  The
    file [converter.go] keeps two variants of the package; the newer one
    (with [copyFilesAndTrack] and the append-aware copy) is the converter
    here, and what the older one does differently is in [Older].

    Layout:
    - [GoStrings] and [GoPath]: the functions of Go's [strings] and
      [path/filepath] packages the converter calls;
    - the file system as a tree of nodes, with the [os] operations on it, and
      [filepath.Walk];
    - the converter: commit messages, the timestamp heuristic, version
      discovery, the authors file, clearing and copying, the repository as
      go-git presents it, the existing-version index, and the migration;
    - [Older]: the clearing and the copy of the older variant;
    - [Gui]: the window, its handlers, and the conversion the button starts;
    - the notions the properties are stated with, and a small project they
      are tried on;
    - the properties. *)

From Stdlib Require Import ZArith NArith List Ascii String Bool Lia Permutation Sorted.
From stdpp Require Import base tactics option list strings pretty gmap sorting.

Local Open Scope string_scope.
Local Open Scope list_scope.
Local Open Scope Z_scope.

#[local] Set Warnings "-register-all".

(** ** Go's [strings] package

    A Go string is a sequence of bytes; [string] (a list of [ascii]) is the
    same thing. *)
Module GoStrings.

Fixpoint HasPrefix (s prefix : string) {struct prefix} : bool :=
  match prefix, s with
  | EmptyString, _ => true
  | String c p', String d s' => Ascii.eqb c d && HasPrefix s' p'
  | String _ _, EmptyString => false
  end.

(** [cutPrefix s prefix] is [Some rest] when [s = prefix ++ rest]. *)
Fixpoint cutPrefix (s prefix : string) {struct prefix} : option string :=
  match prefix, s with
  | EmptyString, _ => Some s
  | String c p', String d s' => if Ascii.eqb c d then cutPrefix s' p' else None
  | String _ _, EmptyString => None
  end.

Definition TrimPrefix (s prefix : string) : string :=
  match cutPrefix s prefix with
  | Some rest => rest
  | None => s
  end.

Definition string_rev (s : string) : string :=
  string_of_list_ascii (rev (list_ascii_of_string s)).

Definition HasSuffix (s suffix : string) : bool :=
  HasPrefix (string_rev s) (string_rev suffix).

Fixpoint Contains (s substr : string) : bool :=
  HasPrefix s substr ||
  match s with
  | EmptyString => false
  | String _ s' => Contains s' substr
  end.

(** [strings.Split] for a one-byte separator, which is what both call
    sites pass (a colon and a line feed).  The result is never empty:
    splitting the empty string gives one empty field. *)
Fixpoint Split (s : string) (sep : ascii) : list string :=
  match s with
  | EmptyString => [EmptyString]
  | String c s' =>
      if Ascii.eqb c sep then EmptyString :: Split s' sep
      else match Split s' sep with
           | h :: t => String c h :: t
           | [] => [String c EmptyString]
           end
  end.

(** *** Runes

    A rune is a code point, a number.  [runes s] is what
    [for _, c := range s] goes through, which is [utf8.DecodeRuneInString]
    again and again: a byte below [0x80] is a rune by itself; a lead byte
    with the continuation bytes its table entry asks for is the rune they
    encode (the second byte in the range that excludes overlong forms,
    surrogates and code points above U+10FFFF); any other byte is taken
    alone as [utf8.RuneError]. *)
Definition RuneError : N := 65533%N.

(** The entry of the table [first] for a lead byte: the length of the
    sequence and the range the second byte must lie in. *)
Definition leadByte (b : N) : option (N * N * N) :=
  (if (194 <=? b) && (b <=? 223) then Some (2, 128, 191)
  else if b =? 224 then Some (3, 160, 191)
  else if ((225 <=? b) && (b <=? 236)) || (b =? 238) || (b =? 239) then Some (3, 128, 191)
  else if b =? 237 then Some (3, 128, 159)
  else if b =? 240 then Some (4, 144, 191)
  else if (241 <=? b) && (b <=? 243) then Some (4, 128, 191)
  else if b =? 244 then Some (4, 128, 143)
  else None)%N.

(** A continuation byte, [0x80] to [0xBF]. *)
Definition isContinuation (b : N) : bool :=
  ((128 <=? b) && (b <=? 191))%N.

Fixpoint runes (s : string) : list N :=
  (match s with
  | EmptyString => []
  | String c0 s1 =>
      let b0 := N_of_ascii c0 in
      if b0 <? 128 then b0 :: runes s1
      else
        match leadByte b0, s1 with
        | Some (size, lo, hi), String c1 s2 =>
            let b1 := N_of_ascii c1 in
            if (lo <=? b1) && (b1 <=? hi) then
              if size =? 2 then
                N.lor (N.shiftl (N.land b0 31) 6) (N.land b1 63) :: runes s2
              else
                match s2 with
                | String c2 s3 =>
                    let b2 := N_of_ascii c2 in
                    if isContinuation b2 then
                      if size =? 3 then
                        N.lor (N.shiftl (N.land b0 15) 12)
                          (N.lor (N.shiftl (N.land b1 63) 6) (N.land b2 63)) :: runes s3
                      else
                        match s3 with
                        | String c3 s4 =>
                            let b3 := N_of_ascii c3 in
                            if isContinuation b3 then
                              N.lor (N.shiftl (N.land b0 7) 18)
                                (N.lor (N.shiftl (N.land b1 63) 12)
                                   (N.lor (N.shiftl (N.land b2 63) 6) (N.land b3 63)))
                              :: runes s4
                            else RuneError :: runes s1
                        | EmptyString => RuneError :: runes s1
                        end
                    else RuneError :: runes s1
                | EmptyString => RuneError :: runes s1
                end
            else RuneError :: runes s1
        | _, _ => RuneError :: runes s1
        end
  end)%N.

Definition byte (b : N) : ascii :=
  (ascii_of_N (N.land b 255))%N.

(** [utf8.AppendRune]: one to four bytes; a surrogate or a number above
    U+10FFFF is written as [utf8.RuneError]. *)
Definition EncodeRune (r : N) : string :=
  (if r <=? 127 then String (byte r) EmptyString
  else if r <=? 2047 then
    String (byte (N.lor 192 (N.shiftr r 6)))
      (String (byte (N.lor 128 (N.land r 63))) EmptyString)
  else
    let r := if (1114111 <? r) || ((55296 <=? r) && (r <=? 57343)) then RuneError else r in
    if r <=? 65535 then
      String (byte (N.lor 224 (N.shiftr r 12)))
        (String (byte (N.lor 128 (N.land (N.shiftr r 6) 63)))
           (String (byte (N.lor 128 (N.land r 63))) EmptyString))
    else
      String (byte (N.lor 240 (N.shiftr r 18)))
        (String (byte (N.lor 128 (N.land (N.shiftr r 12) 63)))
           (String (byte (N.lor 128 (N.land (N.shiftr r 6) 63)))
              (String (byte (N.lor 128 (N.land r 63))) EmptyString))))%N.

(** [strings.Map] for a mapping that drops no rune: every rune of the
    string is mapped and written out again.  (The library copies the
    string up to the first rune that changes; a rune that is well encoded
    is written as it was read, and a byte that is not counts as changed.) *)
Definition Map (mapping : N → N) (s : string) : string :=
  foldr (λ r rest, EncodeRune (mapping r) +:+ rest) EmptyString (runes s).

(** [unicode.ToLower]: the letters [A] to [Z] by arithmetic, a code point
    above U+007F by the case tables, which are [caseTable] here. *)
Definition unicode_ToLower (caseTable : N → N) (r : N) : N :=
  (if r <=? 127 then
    if (65 <=? r) && (r <=? 90) then r + 32 else r
  else caseTable r)%N.

Definition lowerByte (c : ascii) : ascii :=
  let n := nat_of_ascii c in
  if (65 <=? n)%nat && (n <=? 90)%nat then ascii_of_nat (n + 32) else c.

Fixpoint isASCII (s : string) : bool :=
  (match s with
  | EmptyString => true
  | String c s' => (N_of_ascii c <? 128) && isASCII s'
  end)%N.

Fixpoint lowerBytes (s : string) : string :=
  match s with
  | EmptyString => EmptyString
  | String c s' => String (lowerByte c) (lowerBytes s')
  end.

(** [strings.ToLower]: a string of ASCII bytes is lowered byte by byte
    (and returned as it is when it has no capital letter, which comes to the
    same); any other string goes through [Map]. *)
Definition ToLower (caseTable : N → N) (s : string) : string :=
  if isASCII s then lowerBytes s else Map (unicode_ToLower caseTable) s.

(** The six ASCII bytes of [asciiSpace]: tab, line feed, vertical tab,
    form feed, carriage return, space. *)
Definition asciiSpace (c : ascii) : bool :=
  let n := nat_of_ascii c in
  ((9 <=? n)%nat && (n <=? 13)%nat) || (n =? 32)%nat.

(** The code points above U+007F for which [unicode.IsSpace] holds, by
    their UTF-8 encodings: U+0085 and U+00A0 take two bytes, U+1680,
    U+2000..U+200A, U+2028, U+2029, U+202F, U+205F and U+3000 three. *)
Definition space2 (a b : ascii) : bool :=
  (nat_of_ascii a =? 194)%nat &&
  ((nat_of_ascii b =? 133)%nat || (nat_of_ascii b =? 160)%nat).

Definition space3 (a b c : ascii) : bool :=
  let '(x, y, z) := (nat_of_ascii a, nat_of_ascii b, nat_of_ascii c) in
  ((x =? 225) && (y =? 154) && (z =? 128))%nat ||
  ((x =? 226) && (y =? 128) &&
     (((128 <=? z) && (z <=? 138)) || (z =? 168) || (z =? 169) || (z =? 175)))%nat ||
  ((x =? 226) && (y =? 129) && (z =? 159))%nat ||
  ((x =? 227) && (y =? 128) && (z =? 128))%nat.

(** [TrimLeftFunc s unicode.IsSpace]: drop whole white-space runes from
    the front.  A byte that starts no white-space rune stops the scan, as
    does a malformed sequence (it decodes to U+FFFD, which is no space). *)
Fixpoint trimLeftSpace (s : string) : string :=
  match s with
  | EmptyString => EmptyString
  | String a s1 =>
      if asciiSpace a then trimLeftSpace s1
      else match s1 with
           | String b s2 =>
               if space2 a b then trimLeftSpace s2
               else match s2 with
                    | String c s3 => if space3 a b c then trimLeftSpace s3 else s
                    | EmptyString => s
                    end
           | EmptyString => s
           end
  end.

(** The same scan from the back, on the reversed bytes: the last rune is a
    white space exactly when the string ends with one of the encodings. *)
Fixpoint trimLeftSpaceRev (s : string) : string :=
  match s with
  | EmptyString => EmptyString
  | String a s1 =>
      if asciiSpace a then trimLeftSpaceRev s1
      else match s1 with
           | String b s2 =>
               if space2 b a then trimLeftSpaceRev s2
               else match s2 with
                    | String c s3 => if space3 c b a then trimLeftSpaceRev s3 else s
                    | EmptyString => s
                    end
           | EmptyString => s
           end
  end.

Definition trimRightSpace (s : string) : string :=
  string_rev (trimLeftSpaceRev (string_rev s)).

Definition TrimSpace (s : string) : string :=
  trimRightSpace (trimLeftSpace s).

(** [strings.Join]. *)
Fixpoint Join (elems : list string) (sep : string) : string :=
  match elems with
  | [] => EmptyString
  | [e] => e
  | e :: rest => e +:+ sep +:+ Join rest sep
  end.

End GoStrings.

Import GoStrings.

Definition colon : ascii := ":"%char.
Definition newline : ascii := ascii_of_nat 10.

(** The test [s != ""]. *)
Definition nonEmpty (s : string) : bool := negb (String.eqb s EmptyString).

(** *** [strings.ReplaceAll] *)

(** The scan of [strings.ReplaceAll] for a non-empty [old]: [skip] counts
    the bytes of an occurrence of [old] still to pass over. *)
Fixpoint replaceFrom (old new : string) (skip : nat) (s : string) : string :=
  match s with
  | EmptyString => EmptyString
  | String c s' =>
      match skip with
      | S k => replaceFrom old new k s'
      | O =>
          if HasPrefix s old
          then new +:+ replaceFrom old new (String.length old - 1) s'
          else String c (replaceFrom old new 0 s')
      end
  end.

(** For an empty [old], [new] goes in front of every byte and at the end
    (Go does this by rune; the placeholders of this program are not empty). *)
Fixpoint intersperse (new : string) (s : string) : string :=
  match s with
  | EmptyString => new
  | String c s' => new +:+ String c (intersperse new s')
  end.

Definition ReplaceAll (s old new : string) : string :=
  if String.eqb old EmptyString then intersperse new s else replaceFrom old new 0 s.

(** ** Go's [path/filepath] package (Unix flavour) *)
Module GoPath.

Definition slash : ascii := "/"%char.

(** [filepath.Base]: the last element of the path, trailing slashes removed;
    ["."] for the empty path and ["/"] for a path made of slashes only. *)
Definition Base (path : string) : string :=
  if String.eqb path EmptyString then "."
  else match rev (filter (λ c, Is_true (nonEmpty c)) (Split path slash)) with
       | c :: _ => c
       | [] => "/"
       end.

Definition IsAbs (path : string) : bool := HasPrefix path "/".

(** The elements of a path that [Clean] looks at: empty elements (from
    doubled or trailing slashes) and ["."] elements are dropped. *)
Definition elements (path : string) : list string :=
  filter (λ c, Is_true (nonEmpty c && negb (String.eqb c "."))) (Split path slash).

(** The [".."] rule of [Clean]: an inner [".."] removes the element before
    it, a [".."] at the start of a rooted path is dropped, and one at the
    start of a relative path stays.  [kept] holds the elements kept so far,
    last one first. *)
Fixpoint cleanElements (rooted : bool) (kept : list string) (todo : list string)
  : list string :=
  match todo with
  | [] => rev kept
  | c :: todo' =>
      if String.eqb c ".." then
        match kept with
        | top :: kept' =>
            if String.eqb top ".." then cleanElements rooted (c :: kept) todo'
            else cleanElements rooted kept' todo'
        | [] =>
            if rooted then cleanElements rooted [] todo'
            else cleanElements rooted [c] todo'
        end
      else cleanElements rooted (c :: kept) todo'
  end.

Definition cleaned (path : string) : list string :=
  cleanElements (IsAbs path) [] (elements path).

Definition render (rooted : bool) (elems : list string) : string :=
  if rooted then "/" +:+ Join elems "/"
  else match elems with
       | [] => "."
       | _ => Join elems "/"
       end.

Definition Clean (path : string) : string :=
  render (IsAbs path) (cleaned path).

(** [filepath.Join] of two elements: empty elements are ignored, the rest
    is joined with a slash and cleaned; all empty gives the empty string. *)
Definition Join2 (a b : string) : string :=
  match nonEmpty a, nonEmpty b with
  | false, false => EmptyString
  | true, false => Clean a
  | false, true => Clean b
  | true, true => Clean (a +:+ "/" +:+ b)
  end.

(** The common prefix of two element lists is dropped from both. *)
Fixpoint dropCommon (base targ : list string) : list string * list string :=
  match base, targ with
  | b :: base', t :: targ' =>
      if String.eqb b t then dropCommon base' targ' else (base, targ)
  | _, _ => (base, targ)
  end.

(** [filepath.Rel]: [targpath] relative to [basepath], both cleaned first.
    It fails when only one of the two is rooted, and when the first element
    of the base that differs is [".."]. *)
Definition Rel (basepath targpath : string) : option string :=
  if String.eqb (Clean targpath) (Clean basepath) then Some "."
  else if negb (Bool.eqb (IsAbs basepath) (IsAbs targpath)) then None
  else
    let '(b, t) := dropCommon (cleaned basepath) (cleaned targpath) in
    match b with
    | [] => Some (Join t "/")
    | b0 :: _ =>
        if String.eqb b0 ".." then None
        else Some (Join (map (λ _, "..") b ++ t) "/")
    end.

(** [filepath.Match] for patterns made of literal bytes, [*] and [?]: the
    star matches any run of bytes other than the separator, the question
    mark one such byte.  (Character classes and escapes do not occur in the
    patterns of this program.) *)
Fixpoint matchChunk (pattern : string) : string → bool :=
  match pattern with
  | EmptyString => λ name, negb (nonEmpty name)
  | String p pattern' =>
      if Ascii.eqb p "*" then
        fix star (name : string) : bool :=
          matchChunk pattern' name ||
          match name with
          | EmptyString => false
          | String c name' => negb (Ascii.eqb c slash) && star name'
          end
      else if Ascii.eqb p "?" then
        λ name, match name with
                | EmptyString => false
                | String c name' => negb (Ascii.eqb c slash) && matchChunk pattern' name'
                end
      else
        λ name, match name with
                | EmptyString => false
                | String c name' => Ascii.eqb c p && matchChunk pattern' name'
                end
  end.

Definition Match (pattern name : string) : bool := matchChunk pattern name.

End GoPath.

(** ** The file system

    A directory tree.  A symbolic link carries what it resolves to ([None]
    for a dangling link): [os.Stat], [os.Open], [os.Create] and [os.MkdirAll]
    follow links, [os.Lstat], [os.ReadDir] entries and [filepath.Walk] do
    not.  A link has what it resolves to for itself: a link that leads to
    another path of the same tree is not told apart from one that leads
    out of it, and a regular file has one path (no hard links).  The
    properties that would notice are stated for paths that run through no
    link ([meetsLink]).  A directory carries whether it can be listed;
    [os.ReadDir] fails on one that cannot (a directory without read
    permission), while entries inside it can still be reached by name, and
    [os.Lstat] of a listed entry succeeds.  The entries of a directory are
    kept in the order [os.ReadDir] lists them, which is sorted by name. *)
Record FileData := { f_content : string; f_mode : N }.

Inductive node :=
| File (mtime : Z) (data : FileData)
| Symlink (mtime : Z) (target : option node)
| Dir (listable : bool) (entries : list (string * node)).

(** A path below some directory, as its elements. *)
Definition relpath := list string.

(** [info.IsDir()] for the [FileInfo] of [os.Lstat] or of a directory entry. *)
Definition IsDir (n : node) : bool :=
  match n with
  | Dir _ _ => true
  | _ => false
  end.

Definition IsSymlink (n : node) : bool :=
  match n with
  | Symlink _ _ => true
  | _ => false
  end.

(** [info.ModTime().Unix()] for the [FileInfo] of [os.Lstat]; directories
    have a time too, which this program never reads. *)
Definition ModTime (n : node) : Z :=
  match n with
  | File t _ => t
  | Symlink t _ => t
  | Dir _ _ => 0
  end.

(** Follow links until something that is no link. *)
Fixpoint deref (n : node) : option node :=
  match n with
  | Symlink _ (Some t) => deref t
  | Symlink _ None => None
  | _ => Some n
  end.

Fixpoint lookupEntry (name : string) (entries : list (string * node)) : option node :=
  match entries with
  | [] => None
  | (k, n) :: rest => if String.eqb k name then Some n else lookupEntry name rest
  end.

(** Replace the entry called [name] (the first one), or add it at the end. *)
Fixpoint setEntry (name : string) (n : node) (entries : list (string * node))
  : list (string * node) :=
  match entries with
  | [] => [(name, n)]
  | (k, m) :: rest =>
      if String.eqb k name then (k, n) :: rest else (k, m) :: setEntry name n rest
  end.

(** [os.Stat] of [path] below [root]: every element, the last one too, is
    resolved through links. *)
Fixpoint Stat (root : node) (path : relpath) : option node :=
  match path with
  | [] => deref root
  | c :: path' =>
      match deref root with
      | Some (Dir _ entries) =>
          match lookupEntry c entries with
          | Some child => Stat child path'
          | None => None
          end
      | _ => None
      end
  end.

(** The regular file [path] resolves to, if it does. *)
Definition statFile (root : node) (path : relpath) : option FileData :=
  match Stat root path with
  | Some (File _ d) => Some d
  | _ => None
  end.

(** Rewrite the entries of the directory [n] resolves to; [None] when [n]
    resolves to no directory or the rewrite fails. *)
Fixpoint inDir (f : list (string * node) → option (list (string * node))) (n : node)
  : option node :=
  match n with
  | Dir l entries => Dir l <$> f entries
  | Symlink t (Some n') => (λ m, Symlink t (Some m)) <$> inDir f n'
  | _ => None
  end.

(** The chain of fresh directories [os.MkdirAll] makes for the missing tail
    of a path. *)
Fixpoint freshDirs (path : relpath) : node :=
  match path with
  | [] => Dir true []
  | c :: path' => Dir true [(c, freshDirs path')]
  end.

(** [os.MkdirAll]: succeeds when the path resolves to a directory, makes the
    missing directories otherwise, and fails when some element on the way
    exists and is no directory (a file, or a link to none). *)
Fixpoint MkdirAll (path : relpath) (root : node) : option node :=
  match path with
  | [] =>
      match deref root with
      | Some (Dir _ _) => Some root
      | _ => None
      end
  | c :: path' =>
      inDir (λ entries,
               match lookupEntry c entries with
               | Some child => (λ child', setEntry c child' entries) <$> MkdirAll path' child
               | None => Some (setEntry c (freshDirs path') entries)
               end) root
  end.

(** What [os.Create] and the writes after it do to the node at the path
    itself: a regular file is truncated and rewritten (its mode is kept
    until [os.Chmod] changes it, so [data] carries the final mode), a
    dangling link has its target created, a directory refuses. *)
Fixpoint overwrite (now : Z) (data : FileData) (n : node) : option node :=
  match n with
  | File _ _ => Some (File now data)
  | Symlink t (Some n') => (λ m, Symlink t (Some m)) <$> overwrite now data n'
  | Symlink t None => Some (Symlink t (Some (File now data)))
  | Dir _ _ => None
  end.

(** Create or rewrite the regular file at [path]; the directory it goes
    into must exist. *)
Fixpoint writeFile (now : Z) (data : FileData) (path : relpath) (root : node)
  : option node :=
  match path with
  | [] => overwrite now data root
  | c :: path' =>
      inDir (λ entries,
               match lookupEntry c entries with
               | Some child =>
                   (λ child', setEntry c child' entries) <$> writeFile now data path' child
               | None =>
                   match path' with
                   | [] => Some (setEntry c (File now data) entries)
                   | _ => None
                   end
               end) root
  end.

(** The mode a file has between [os.Create] and [os.Chmod]: the one it had
    if it existed, [0666] less the umask otherwise. *)
Definition createdMode (umask : N) (root : node) (path : relpath) : N :=
  match statFile root path with
  | Some d => f_mode d
  | None => N.ldiff 438 umask
  end.

(** *** What a path shows

    What [os.Stat] tells about a path, as far as the properties below care:
    a regular file with its time and data, or a directory. *)
Inductive seen :=
| SeenFile (mtime : Z) (data : FileData)
| SeenDir.

Definition seenOf (n : node) : option seen :=
  match n with
  | File t d => Some (SeenFile t d)
  | Dir _ _ => Some SeenDir
  | Symlink _ _ => None
  end.

Definition look (root : node) (path : relpath) : option seen :=
  Stat root path ≫= seenOf.

(** ** [filepath.Walk]

    What a [WalkFunc] returns: [nil], [filepath.SkipDir], or another error. *)
Inductive walkResult (Err : Type) :=
| WalkNil
| SkipDir
| WalkErr (e : Err).
Arguments WalkNil {Err}.
Arguments SkipDir {Err}.
Arguments WalkErr {Err} e.

Definition isNil {Err} (r : walkResult Err) : bool :=
  match r with
  | WalkNil => true
  | _ => false
  end.

Definition isSkipDir {Err} (r : walkResult Err) : bool :=
  match r with
  | SkipDir => true
  | _ => false
  end.

(** The errors the file system itself reports to a [WalkFunc]. *)
Inductive fsError :=
| ErrNotExist
| ErrPermission.

Section Walk.
Context {St Err : Type}.

(** The callback: the path relative to the root of the walk, the base name
    of the full path, the [FileInfo] ([None] when [os.Lstat] of the root
    failed), the error of the walk so far for this entry, and the state the
    closure has captured. *)
Variable fn : relpath → string → option node → option fsError → St → walkResult Err * St.

(** The unexported [walk]: a directory is listed first and the callback is
    told if that failed; when it failed, or the callback returned anything
    but [nil], [walk] returns what the callback returned.  A [SkipDir] from
    below ends the listing of the directory it came from when a file
    returned it, and only skips the entry when a directory did. *)
Fixpoint walk (rel : relpath) (name : string) (n : node) (s : St)
  : walkResult Err * St :=
  match n with
  | Dir listable entries =>
      let '(err1, s1) :=
        fn rel name (Some n) (if listable then None else Some ErrPermission) s in
      if negb listable || negb (isNil err1) then (err1, s1)
      else
        (fix each (entries : list (string * node)) (s : St) : walkResult Err * St :=
           match entries with
           | [] => (WalkNil, s)
           | (child_name, child) :: rest =>
               let '(err, s') := walk (rel ++ [child_name]) child_name child s in
               if isNil err then each rest s'
               else if negb (IsDir child) || negb (isSkipDir err) then (err, s')
               else each rest s'
           end) entries s1
  | _ => fn rel name (Some n) None s
  end.

(** [filepath.Walk]: [os.Lstat] of the root, then [walk]; a [SkipDir] that
    reaches the top is no error. *)
Definition Walk (root_name : string) (root : option node) (s : St)
  : option Err * St :=
  let '(err, s') :=
    match root with
    | None => fn [] root_name None (Some ErrNotExist) s
    | Some n => walk [] root_name n s
    end in
  (match err with
   | WalkErr e => Some e
   | _ => None
   end, s').

End Walk.

(** ** Sorting

    [sort.Slice] promises a permutation in which no element is [less] than
    one before it, and no order among elements that compare equal.  The
    model sorts by merging; what is proved about a sorted slice uses only
    the promise. *)
Definition sort_Slice {A} (less : A → A → bool) (l : list A) : list A :=
  merge_sort (λ a b, Is_true (negb (less b a))) l.

(** ** The surroundings of a run

    What the converter asks of the operating system and of libraries whose
    answers it only passes on. *)
Record Sys := {
  (** [time.Now().Unix()] *)
  sys_now : Z;
  (** [time.Unix(t, 0).Format("2006-01-02 15:04:05")], in the local zone *)
  sys_formatTime : Z → string;
  (** [os.UserHomeDir()] *)
  sys_homeDir : option string;
  (** the process umask *)
  sys_umask : N;
  (** [os.Lstat] outside the target directory: the source folders *)
  sys_lstat : string → option node;
  (** [os.ReadFile] *)
  sys_readFile : string → option string;
  (** [filepath.Glob]; the matches come sorted *)
  sys_glob : string → option (list string);
  (** [regexp.Compile], giving [FindString] of the compiled expression: the
      text of the leftmost match, empty when there is none *)
  sys_regexp : string → option (string → string);
  (** [unicode.To(unicode.LowerCase, r)] for a code point above U+007F: the
      case tables of the Unicode version the program was built with *)
  sys_toLower : N → N;
  (** [os.Remove] of a file or of an empty directory at a path: whether
      the system lets it go.  It does not in a directory without write
      permission, on a read-only file system, or for a file that is marked
      immutable; none of that is in the tree. *)
  sys_remove : string → node → bool;
}.

(** ** Data of the converter *)
Record FolderInfo := {
  Path : string;
  Version : string;
  CreationTime : Z;
}.

Record Config := {
  SourceDir : string;
  TargetDir : string;
  Pattern : string;
  ExtractPattern : string;
  DryRun : bool;
  Author : string;
  Email : string;
  Verbose : bool;
  Append : bool;
  AuthorsFile : string;
  MessageTemplate : string;
}.

(** The errors the two entry points return, one per [fmt.Errorf]. *)
Inductive Error :=
| ErrRegexp            (* error in the regular expression *)
| ErrGlob              (* error while searching for folders *)
| ErrNoFolders         (* no versioned folders found *)
| ErrCreateDir         (* the target directory cannot be created *)
| ErrInit              (* the repository cannot be initialised *)
| ErrAppendNoRepo      (* append mode, and no repository at the target *)
| ErrOpen              (* the repository cannot be opened *)
| ErrClear             (* clearing the target directory failed *)
| ErrCopy              (* copying the files failed *)
| ErrCommit.           (* creating the commit failed *)

(** ** The commit-message convention *)

(** [fmt.Sprintf("Version %s: %s (created: %s)", version, base, date)]. *)
Definition defaultMessage (version base date : string) : string :=
  "Version " +:+ version +:+ ": " +:+ base +:+ " (created: " +:+ date +:+ ")".

(** The body of the callback that fills [existingVersions]: the token a
    commit message contributes, if any.  [strings.Split] never returns an
    empty slice, so [len(parts) > 0] always holds; the match keeps the test. *)
Definition versionOfMessage (message : string) : option string :=
  if Contains message "Version" then
    match Split message colon with
    | part0 :: _ => Some (TrimSpace (TrimPrefix part0 "Version"))
    | [] => None
    end
  else None.

(** ** The commit message *)
Definition commitMessage (sys : Sys) (config : Config) (folder : FolderInfo)
    (fileCount : nat) (authorName : string) : string :=
  let date := sys_formatTime sys (CreationTime folder) in
  if nonEmpty (MessageTemplate config) then
    let commitMsg := ReplaceAll (MessageTemplate config) "{version}" (Version folder) in
    let commitMsg := ReplaceAll commitMsg "{folder}" (GoPath.Base (Path folder)) in
    let commitMsg := ReplaceAll commitMsg "{date}" date in
    let commitMsg := ReplaceAll commitMsg "{files}" (pretty fileCount) in
    ReplaceAll commitMsg "{author}" authorName
  else defaultMessage (Version folder) (GoPath.Base (Path folder)) date.

(** ** The timestamp heuristic *)

Definition keyFilePatterns : list string :=
  [ "version.py"; "version.txt"; "VERSION";
    "main.py"; "app.py"; "bot.py"; "config.py";
    "requirements.txt"; "setup.py";
    "Dockerfile"; "docker-compose.yml" ].

Definition maxFiles : nat := 500.

(** The loop over [keyFilePatterns]: does some pattern occur in the name,
    letter case aside? *)
Definition isKeyFile (sys : Sys) (base : string) : bool :=
  existsb (λ pattern, Contains (ToLower (sys_toLower sys) base)
                               (ToLower (sys_toLower sys) pattern)) keyFilePatterns.

(** The directories the heuristic does not enter. *)
Definition isServiceDir (base : string) : bool :=
  HasPrefix base "." || String.eqb base "__pycache__" ||
  String.eqb base "venv" || String.eqb base "env" || String.eqb base ".venv".

(** The files the heuristic does not count. *)
Definition isServiceFile (base : string) : bool :=
  HasPrefix base "." || HasSuffix base ".pyc".

(** What the closure captures: [fileTimes] and [processedFiles]. *)
Record timesState := { fileTimes : list Z; processedFiles : nat }.

(** The callback of [getFolderCreationTime].  [filepath.Base(path)] is the
    name the walk hands over.  The callback never returns an error of its
    own: an error of the walk is answered with [nil]. *)
Definition timesFn (sys : Sys) (rel : relpath) (base : string) (info : option node)
    (err : option fsError) (s : timesState) : walkResult fsError * timesState :=
  match err, info with
  | Some _, _ => (WalkNil, s)
  | None, None => (WalkNil, s)
  | None, Some info =>
      if IsDir info then
        if isServiceDir base then (SkipDir, s) else (WalkNil, s)
      else if (maxFiles <=? processedFiles s)%nat then (SkipDir, s)
      else if isServiceFile base then (WalkNil, s)
      else
        let modTime := ModTime info in
        let times := fileTimes s ++ [modTime] in
        let times := if isKeyFile sys base then times ++ [modTime] else times in
        (WalkNil, {| fileTimes := times; processedFiles := S (processedFiles s) |})
  end.

Definition Zless (a b : Z) : bool := a <? b.

(** [getFolderCreationTime]: [folder] is what [os.Lstat] finds at
    [folderPath]. *)
Definition getFolderCreationTime (sys : Sys) (folderPath : string) (folder : option node) : Z :=
  let '(err, s) :=
    Walk (timesFn sys) (GoPath.Base folderPath) folder
         {| fileTimes := []; processedFiles := 0 |} in
  if bool_decide (err ≠ None) || (length (fileTimes s) =? 0)%nat then sys_now sys
  else
    let sorted := sort_Slice Zless (fileTimes s) in
    nth (length sorted / 2) sorted 0.

(** ** Version discovery *)

Definition os_Stat (sys : Sys) (path : string) : option node :=
  sys_lstat sys path ≫= deref.

(** The body of the loop over the glob matches. *)
Definition scanMatch (sys : Sys) (re : string → string) (folders : list FolderInfo)
    (path : string) : list FolderInfo :=
  match os_Stat sys path with
  | Some info =>
      if IsDir info then
        let name := GoPath.Base path in
        let version := re name in
        if String.eqb version EmptyString then folders
        else
          let creationTime := getFolderCreationTime sys path (sys_lstat sys path) in
          folders ++ [{| Path := path; Version := version; CreationTime := creationTime |}]
      else folders
  | None => folders
  end.

Definition lessByCreationTime (a b : FolderInfo) : bool :=
  CreationTime a <? CreationTime b.

(** The folders found before they are sorted; an invalid expression or
    pattern ends the search before anything is found. *)
Definition scanFolders (sys : Sys) (config : Config) : Error + list FolderInfo :=
  let searchPattern := GoPath.Join2 (SourceDir config) (Pattern config) in
  match sys_regexp sys (ExtractPattern config) with
  | None => inl ErrRegexp
  | Some re =>
      match sys_glob sys searchPattern with
      | None => inl ErrGlob
      | Some matches => inr (foldl (scanMatch sys re) [] matches)
      end
  end.

Definition FindVersionedFolders (sys : Sys) (config : Config) : Error + list FolderInfo :=
  match scanFolders sys config with
  | inl e => inl e
  | inr folders =>
      let folders := sort_Slice lessByCreationTime folders in
      if (length folders =? 0)%nat then inl ErrNoFolders else inr folders
  end.

(** ** The authors file *)

(** The body of the loop over the lines: the name and the address a line
    gives for [version], if it gives any. *)
Definition authorOfLine (version line : string) : option (string * string) :=
  let line := TrimSpace line in
  if String.eqb line EmptyString || HasPrefix line "#" then None
  else
    match Split line colon with
    | part0 :: part1 :: part2 :: _ =>
        if String.eqb part0 version then Some (part1, part2) else None
    | _ => None
    end.

Fixpoint scanAuthors (version : string) (lines : list string) : string * string :=
  match lines with
  | [] => (EmptyString, EmptyString)
  | line :: rest =>
      match authorOfLine version line with
      | Some found => found
      | None => scanAuthors version rest
      end
  end.

(** [getAuthorInfo]; [None] is the error of [os.ReadFile]. *)
Definition getAuthorInfo (sys : Sys) (version authorsFile : string)
  : option (string * string) :=
  if String.eqb authorsFile EmptyString then Some (EmptyString, EmptyString)
  else
    match sys_readFile sys authorsFile with
    | None => None
    | Some data => Some (scanAuthors version (Split data newline))
    end.

(** The author of the commit for a folder: the block of [MigrateToGit]
    that starts from [config.Author] and [config.Email]. *)
Definition resolveAuthor (sys : Sys) (config : Config) (version : string)
  : string * string :=
  if nonEmpty (AuthorsFile config) then
    match getAuthorInfo sys version (AuthorsFile config) with
    | Some (name, email) =>
        if nonEmpty name && nonEmpty email then (name, email)
        else (Author config, Email config)
    | None => (Author config, Email config)
    end
  else (Author config, Email config).

(** ** Clearing the working tree *)

Definition systemDirs : list string :=
  [ ".git"; ".Trash"; ".Trashes"; ".config"; ".cache"; ".local"; "Library";
    "Applications"; "System"; "Users"; "bin"; "etc"; "usr"; "var"; "tmp"; "opt" ].

Definition isSystemDir (name : string) : bool :=
  existsb (String.eqb name) systemDirs.

(** The second guard of [clearDirectory]: the directory lies in the home
    directory and its path from there starts with a dot and has no [".."]. *)
Definition hiddenInHome (sys : Sys) (dir : string) : bool :=
  match sys_homeDir sys with
  | Some homeDir =>
      HasPrefix dir homeDir &&
      match GoPath.Rel homeDir dir with
      | Some relPath => HasPrefix relPath "." && negb (Contains relPath "..")
      | None => false
      end
  | None => false
  end.

(** A directory can be removed when it is empty. *)
Definition removable (n : node) : bool :=
  match n with
  | Dir _ [] => true
  | Dir _ _ => false
  | _ => true
  end.

(** [os.Remove]: it fails on a directory that is not empty, and when the
    system does not let the entry go. *)
Definition os_Remove (sys : Sys) (path : string) (n : node) : bool :=
  removable n && sys_remove sys path n.

(** [clearDirectory]; [None] is the error of [os.ReadDir].  The loop keeps
    an entry where the code says [continue] before or instead of removing
    it: a system name, a symbolic link, a subdirectory whose clearing
    failed, and a file or a cleared subdirectory that [os.Remove] fails on.
    [os.ReadDir] follows a link at [dir] itself. *)
Fixpoint clearDirectory (sys : Sys) (dir : string) (n : node) : option node :=
  if isSystemDir (GoPath.Base dir) then Some n
  else if hiddenInHome sys dir then Some n
  else
    match n with
    | Dir true entries =>
        Some (Dir true
          ((fix each (entries : list (string * node)) : list (string * node) :=
              match entries with
              | [] => []
              | (name, child) :: rest =>
                  if isSystemDir name then (name, child) :: each rest
                  else if IsSymlink child then (name, child) :: each rest
                  else if IsDir child then
                    match clearDirectory sys (GoPath.Join2 dir name) child with
                    | None => (name, child) :: each rest
                    | Some child' =>
                        if os_Remove sys (GoPath.Join2 dir name) child' then each rest
                        else (name, child') :: each rest
                    end
                  else if os_Remove sys (GoPath.Join2 dir name) child then each rest
                  else (name, child) :: each rest
              end) entries))
    | Symlink t (Some n') => (λ m, Symlink t (Some m)) <$> clearDirectory sys dir n'
    | _ => None
    end.

(** ** Copying a folder *)

Definition ignoreDirs : list string :=
  [ ".git"; "__pycache__"; "venv"; ".venv"; "node_modules"; ".idea"; ".vscode";
    "dist"; "build"; "env" ].

Definition ignoreFiles : list string :=
  [ ".DS_Store"; "*.pyc"; "*.pyo"; "*.pyd"; ".gitignore"; ".gitattributes";
    "*.swp"; "*.swo"; "*.log"; "*.bak" ].

Definition isIgnoredDir (name : string) : bool :=
  existsb (String.eqb name) ignoreDirs.

Definition isIgnoredFile (name : string) : bool :=
  existsb (λ pattern, GoPath.Match pattern name) ignoreFiles.

(** [copyFile] into the target tree: [os.Open] follows a link at the
    source and fails on a dangling one; [os.Create] makes or truncates the
    file; [io.Copy] fails when the source is a directory, after the file was
    made; [os.Chmod] gives the copy the mode of the source. *)
Definition copyFile (sys : Sys) (src : node) (dst : relpath) (target : node)
  : option fsError * node :=
  match deref src with
  | None => (Some ErrNotExist, target)
  | Some (File _ data) =>
      match writeFile (sys_now sys) data dst target with
      | Some target' => (None, target')
      | None => (Some ErrPermission, target)
      end
  | Some _ =>
      let empty := {| f_content := EmptyString;
                      f_mode := createdMode (sys_umask sys) target dst |} in
      match writeFile (sys_now sys) empty dst target with
      | Some target' => (Some ErrPermission, target')
      | None => (Some ErrPermission, target)
      end
  end.

(** What the closure of [copyFilesAndTrack] captures and changes: the count,
    the list of new files, and the target tree.  A new file is listed by
    its path below the target directory, which is what the staging loop
    turns the full path back into. *)
Record copyState := {
  cs_target : node;
  cs_count : nat;
  cs_newFiles : list relpath;
}.

(** [filepath.Dir] of a path below the target. *)
Definition parentOf (path : relpath) : relpath := removelast path.

(** The callback of [copyFilesAndTrack]. *)
Definition copyFn (sys : Sys) (appendMode : bool) (rel : relpath) (name : string)
    (info : option node) (err : option fsError) (s : copyState)
  : walkResult fsError * copyState :=
  match err, info with
  | Some e, _ => (WalkErr e, s)
  | None, None => (WalkNil, s)
  | None, Some info =>
      match rel with
      | [] => (WalkNil, s)
      | _ =>
          if IsDir info then
            if isIgnoredDir name then (SkipDir, s) else (WalkNil, s)
          else if isIgnoredFile name then (WalkNil, s)
          else
            match MkdirAll (parentOf rel) (cs_target s) with
            | None => (WalkErr ErrPermission, s)
            | Some target1 =>
                let s1 := {| cs_target := target1; cs_count := cs_count s;
                             cs_newFiles := cs_newFiles s |} in
                if appendMode && bool_decide (is_Some (Stat target1 rel)) then (WalkNil, s1)
                else
                  match copyFile sys info rel target1 with
                  | (Some e, target2) =>
                      (WalkErr e, {| cs_target := target2; cs_count := cs_count s;
                                     cs_newFiles := cs_newFiles s |})
                  | (None, target2) =>
                      (WalkNil, {| cs_target := target2; cs_count := S (cs_count s);
                                   cs_newFiles := cs_newFiles s ++ [rel] |})
                  end
            end
      end
  end.

(** [copyFilesAndTrack]: the error of the walk, and the count, the new
    files and the target tree as the walk left them. *)
Definition copyFilesAndTrack (sys : Sys) (src : string) (target : node) (appendMode : bool)
  : option fsError * copyState :=
  Walk (copyFn sys appendMode) (GoPath.Base src) (sys_lstat sys src)
       {| cs_target := target; cs_count := 0; cs_newFiles := [] |}.

(** [copyFiles], kept for callers that do not want the list: the count and
    the error of [copyFilesAndTrack].  The tree the copy leaves goes with
    them. *)
Definition copyFiles (sys : Sys) (src : string) (target : node) (appendMode : bool)
  : nat * option fsError * node :=
  let '(err, copied) := copyFilesAndTrack sys src target appendMode in
  (cs_count copied, err, cs_target copied).

(** ** The repository, as go-git presents it

    An object store, the references, and the index of the worktree.  Only
    what the converter reads or writes is kept: of a commit its message,
    author, parents and the staged files it records. *)
Definition Hash := N.

Record Signature := {
  sig_Name : string;
  sig_Email : string;
  sig_When : Z;
}.

Record Commit := {
  Message : string;
  CommitAuthor : Signature;
  ParentHashes : list Hash;
  Staged : list (relpath * FileData);
}.

(** An object is a commit or something [CommitObject] does not accept (a
    tag, a tree, a blob). *)
Inductive Object :=
| CommitObj (c : Commit)
| OtherObj.

(** A reference holds a hash or names another reference. *)
Inductive Reference :=
| HashReference (name : string) (h : Hash)
| SymbolicReference (name target : string).

Definition refName (r : Reference) : string :=
  match r with
  | HashReference name _ => name
  | SymbolicReference name _ => name
  end.

Record Repository := {
  objects : list (Hash * Object);
  references : list Reference;
  index : list (relpath * FileData);
}.

Definition lookupObject (repo : Repository) (h : Hash) : option Object :=
  snd <$> find (λ o, N.eqb o.1 h) (objects repo).

(** [repo.CommitObject(hash)]; [None] is its error. *)
Definition CommitObject (repo : Repository) (h : Hash) : option Commit :=
  match lookupObject repo h with
  | Some (CommitObj c) => Some c
  | _ => None
  end.

Definition lookupReference (repo : Repository) (name : string) : option Reference :=
  find (λ r, String.eqb (refName r) name) (references repo).

(** Follow symbolic references to a hash, at most [fuel] steps. *)
Fixpoint resolveReference (fuel : nat) (repo : Repository) (name : string) : option Hash :=
  match lookupReference repo name with
  | Some (HashReference _ h) => Some h
  | Some (SymbolicReference _ target) =>
      match fuel with
      | O => None
      | S fuel' => resolveReference fuel' repo target
      end
  | None => None
  end.

(** [repo.Head()]. *)
Definition Head (repo : Repository) : option Hash :=
  resolveReference (length (references repo)) repo "HEAD".

Fixpoint setReference (name : string) (h : Hash) (refs : list Reference) : list Reference :=
  match refs with
  | [] => [HashReference name h]
  | r :: rest =>
      if String.eqb (refName r) name then HashReference name h :: rest
      else r :: setReference name h rest
  end.

(** A hash no object has yet.  (A real hash is computed from the object;
    all that matters here is that a new commit is a new object.) *)
Definition freshHash (repo : Repository) : Hash :=
  N.succ (foldr (λ o m, N.max o.1 m) 0%N (objects repo)).

(** The repository [git.PlainInit] makes: no object, and [HEAD] naming a
    branch that does not exist yet. *)
Definition emptyRepository : Repository :=
  {| objects := [];
     references := [SymbolicReference "HEAD" "refs/heads/master"];
     index := [] |}.

Fixpoint setStaged (path : relpath) (data : FileData) (staged : list (relpath * FileData))
  : list (relpath * FileData) :=
  match staged with
  | [] => [(path, data)]
  | (p, d) :: rest =>
      if bool_decide (p = path) then (p, data) :: rest
      else (p, d) :: setStaged path data rest
  end.

(** [worktree.Add(relPath)]: the file is read from the working tree and
    recorded in the index; [None] is the error for a path with no file. *)
Definition worktree_Add (target : node) (relPath : relpath) (repo : Repository)
  : option Repository :=
  match statFile target relPath with
  | Some data =>
      Some {| objects := objects repo; references := references repo;
              index := setStaged relPath data (index repo) |}
  | None => None
  end.

(** [worktree.Commit]: a new commit object on top of what [HEAD] resolves
    to, and the branch [HEAD] names (or [HEAD] itself when it holds a hash)
    moved to it. *)
Definition worktree_Commit (msg : string) (author : Signature) (repo : Repository)
  : Repository :=
  let parents := match Head repo with
                 | Some h => [h]
                 | None => []
                 end in
  let commit := {| Message := msg; CommitAuthor := author;
                   ParentHashes := parents; Staged := index repo |} in
  let h := freshHash repo in
  let branch := match lookupReference repo "HEAD" with
                | Some (SymbolicReference _ target) => target
                | _ => "HEAD"
                end in
  {| objects := objects repo ++ [(h, CommitObj commit)];
     references := setReference branch h (references repo);
     index := index repo |}.

(** The commits of a repository, in the order they were stored. *)
Definition commitsOf (repo : Repository) : list Commit :=
  omap (λ o, match o.2 with
             | CommitObj c => Some c
             | OtherObj => None
             end) (objects repo).

(** ** The existing-version index *)

(** The callback of [refs.ForEach]. *)
Definition indexReference (repo : Repository) (existingVersions : gset string)
    (ref : Reference) : gset string :=
  match ref with
  | HashReference _ h =>
      match CommitObject repo h with
      | Some commit =>
          match versionOfMessage (Message commit) with
          | Some version => {[ version ]} ∪ existingVersions
          | None => existingVersions
          end
      | None => existingVersions
      end
  | SymbolicReference _ _ => existingVersions
  end.

Definition existingVersionsOf (repo : Repository) : gset string :=
  foldl (indexReference repo) ∅ (references repo).

(** ** Migration *)

(** What a run works on: the tree at the target directory ([None] when
    nothing is there) and the repository in its [.git] ([None] when that
    holds no valid repository).  The source folders lie outside the target
    directory, as does what their links lead to, and are not changed by a
    run. *)
Record World := {
  w_target : option node;
  w_repo : option Repository;
}.

(** Whether go-git refuses a commit (it reports storage errors, and recent
    versions refuse a commit that changes nothing).  The converter only
    passes the refusal on, so it is left open here. *)
Definition CommitOracle := Repository → string → bool.

(** One turn of the loop over the folders, after the test for existing
    versions.  The result is the error that ends the run, if any. *)
Definition commitFolder (sys : Sys) (refuses : CommitOracle) (config : Config)
    (folder : FolderInfo) (target : node) (repo : Repository)
  : option Error * (node * Repository) :=
  match (if Append config then Some target
         else clearDirectory sys (TargetDir config) target) with
  | None => (Some ErrClear, (target, repo))
  | Some cleared =>
      let '(err, copied) :=
        copyFilesAndTrack sys (Path folder) cleared (Append config) in
      let target := cs_target copied in
      match err with
      | Some _ => (Some ErrCopy, (target, repo))
      | None =>
          if (cs_count copied =? 0)%nat then (None, (target, repo))
          else
            let '(authorName, authorEmail) := resolveAuthor sys config (Version folder) in
            let commitMsg := commitMessage sys config folder (cs_count copied) authorName in
            let repo :=
              foldl (λ repo file, default repo (worktree_Add target file repo))
                    repo (cs_newFiles copied) in
            if refuses repo commitMsg then (Some ErrCommit, (target, repo))
            else
              (None, (target,
                      worktree_Commit commitMsg
                        {| sig_Name := authorName; sig_Email := authorEmail;
                           sig_When := CreationTime folder |} repo))
      end
  end.

(** The body of the loop over the folders. *)
Definition processFolder (sys : Sys) (refuses : CommitOracle) (config : Config)
    (existingVersions : gset string) (folder : FolderInfo)
    (target : node) (repo : Repository)
  : option Error * (node * Repository) :=
  if Append config && bool_decide (Version folder ∈ existingVersions)
  then (None, (target, repo))
  else commitFolder sys refuses config folder target repo.

Fixpoint processFolders (sys : Sys) (refuses : CommitOracle) (config : Config)
    (existingVersions : gset string) (folders : list FolderInfo)
    (target : node) (repo : Repository)
  : option Error * (node * Repository) :=
  match folders with
  | [] => (None, (target, repo))
  | folder :: rest =>
      match processFolder sys refuses config existingVersions folder target repo with
      | (Some e, state) => (Some e, state)
      | (None, (target', repo')) =>
          processFolders sys refuses config existingVersions rest target' repo'
      end
  end.

(** [os.MkdirAll(config.TargetDir)]: nothing to do for a directory, a new
    one where nothing is, an error where something else is. *)
Definition makeTarget (target : option node) : option node :=
  match target with
  | None => Some (Dir true [])
  | Some n => MkdirAll [] n
  end.

(** [MigrateToGit]: the error it returns, if any, and the world it leaves. *)
Definition MigrateToGit (sys : Sys) (refuses : CommitOracle) (config : Config)
    (folders : list FolderInfo) (w : World) : option Error * World :=
  if DryRun config then (None, w)
  else
    match makeTarget (w_target w) with
    | None => (Some ErrCreateDir, w)
    | Some target =>
        let w := {| w_target := Some target; w_repo := w_repo w |} in
        let repoExists := bool_decide (is_Some (Stat target [".git"])) in
        let opened :=
          if negb repoExists && negb (Append config) then
            match MkdirAll [".git"] target with
            | Some target' => inr (target', emptyRepository)
            | None => inl ErrInit
            end
          else if Append config && negb repoExists then inl ErrAppendNoRepo
          else
            match w_repo w with
            | Some repo => inr (target, repo)
            | None => inl ErrOpen
            end in
        match opened with
        | inl e => (Some e, w)
        | inr (target, repo) =>
            let existingVersions :=
              if Append config then existingVersionsOf repo else ∅ in
            let '(err, (target', repo')) :=
              processFolders sys refuses config existingVersions folders target repo in
            (err, {| w_target := Some target'; w_repo := Some repo' |})
        end
    end.

(** * The older variant of the converter

    The same file keeps an earlier variant of the package.  Discovery, the
    timestamp heuristic, [copyFile] and [getAuthorInfo] read the same in
    both; the clearing and the copy differ: the older clearing knows three
    kept names only and gives up at the first failure, the older copy has no
    append mode and keeps no list of new files. *)
Module Older.

(** What ends the older clearing: [os.ReadDir] failed, or [os.Remove]
    failed. *)
Inductive clearError :=
| ErrReadDir
| ErrRemove.

(** The names the loop passes over: [.git], [.Trash], [.Trashes]. *)
Definition isKept (name : string) : bool :=
  String.eqb name ".git" || String.eqb name ".Trash" || String.eqb name ".Trashes".

(** [clearDirectory]: the error, if any, and the tree as the clearing left
    it.  What was removed before the error stays removed; the entries after
    the failing one are not looked at. *)
Fixpoint clearDirectory (sys : Sys) (dir : string) (n : node) : option clearError * node :=
  match n with
  | Dir true entries =>
      let '(err, entries') :=
        (fix each (entries : list (string * node))
           : option clearError * list (string * node) :=
           match entries with
           | [] => (None, [])
           | (name, child) :: rest =>
               if isKept name then
                 let '(err, rest') := each rest in (err, (name, child) :: rest')
               else if IsSymlink child then
                 let '(err, rest') := each rest in (err, (name, child) :: rest')
               else if IsDir child then
                 match clearDirectory sys (GoPath.Join2 dir name) child with
                 | (Some e, child') => (Some e, (name, child') :: rest)
                 | (None, child') =>
                     if os_Remove sys (GoPath.Join2 dir name) child' then each rest
                     else (Some ErrRemove, (name, child') :: rest)
                 end
               else if os_Remove sys (GoPath.Join2 dir name) child then each rest
               else (Some ErrRemove, (name, child) :: rest)
           end) entries in
      (err, Dir true entries')
  | Symlink t (Some n') =>
      let '(err, m) := clearDirectory sys dir n' in (err, Symlink t (Some m))
  | _ => (Some ErrReadDir, n)
  end.

(** The loop of [clearDirectory] over the entries of a directory, by
    itself. *)
Definition clearEntries (sys : Sys) (dir : string)
  : list (string * node) → option clearError * list (string * node) :=
  fix each (entries : list (string * node))
    : option clearError * list (string * node) :=
    match entries with
    | [] => (None, [])
    | (name, child) :: rest =>
        if isKept name then
          let '(err, rest') := each rest in (err, (name, child) :: rest')
        else if IsSymlink child then
          let '(err, rest') := each rest in (err, (name, child) :: rest')
        else if IsDir child then
          match clearDirectory sys (GoPath.Join2 dir name) child with
          | (Some e, child') => (Some e, (name, child') :: rest)
          | (None, child') =>
              if os_Remove sys (GoPath.Join2 dir name) child' then each rest
              else (Some ErrRemove, (name, child') :: rest)
          end
        else if os_Remove sys (GoPath.Join2 dir name) child then each rest
        else (Some ErrRemove, (name, child) :: rest)
    end.

(** What the closure of the older [copyFiles] captures and changes: the
    count and the target tree. *)
Record copyCount := {
  cc_target : node;
  cc_count : nat;
}.

(** The callback of the older [copyFiles]. *)
Definition copyFn (sys : Sys) (rel : relpath) (name : string)
    (info : option node) (err : option fsError) (s : copyCount)
  : walkResult fsError * copyCount :=
  match err, info with
  | Some e, _ => (WalkErr e, s)
  | None, None => (WalkNil, s)
  | None, Some info =>
      match rel with
      | [] => (WalkNil, s)
      | _ =>
          if IsDir info then
            if isIgnoredDir name then (SkipDir, s) else (WalkNil, s)
          else if isIgnoredFile name then (WalkNil, s)
          else
            match MkdirAll (parentOf rel) (cc_target s) with
            | None => (WalkErr ErrPermission, s)
            | Some target1 =>
                match copyFile sys info rel target1 with
                | (Some e, target2) =>
                    (WalkErr e, {| cc_target := target2; cc_count := cc_count s |})
                | (None, target2) =>
                    (WalkNil, {| cc_target := target2; cc_count := S (cc_count s) |})
                end
            end
      end
  end.

(** The older [copyFiles]: the count, the error of the walk, and the tree
    the walk left. *)
Definition copyFiles (sys : Sys) (src : string) (target : node)
  : nat * option fsError * node :=
  let '(err, s) :=
    Walk (copyFn sys) (GoPath.Base src) (sys_lstat sys src)
         {| cc_target := target; cc_count := 0 |} in
  (cc_count s, err, cc_target s).

End Older.

(** * The window

    The graphical front end ([cmd/gui/main.go]): the widgets the handlers
    read and write, the log, and the conversion the button starts.  The
    conversion runs in a goroutine of its own; what is modelled is the state
    when it has finished, nothing else having touched the widgets
    meanwhile. *)
Module Gui.

(** The dialogs the handlers open: [dialog.ShowError] with the text given
    to [fmt.Errorf], and [dialog.ShowInformation]. *)
Inductive Dialog :=
| ShowError (text : string)
| ShowInformation (title text : string).

(** The struct [GUI]: the configuration, the text of the six entries, the
    three check boxes, the text of the log, the button (whether it is
    enabled, and its label), and the dialogs opened so far. *)
Record GUI := {
  config : Config;
  sourceEntry : string;
  targetEntry : string;
  patternEntry : string;
  extractEntry : string;
  authorEntry : string;
  emailEntry : string;
  dryRunCheck : bool;
  verboseCheck : bool;
  appendCheck : bool;
  logText : string;
  convertButton : bool * string;
  dialogs : list Dialog;
}.

(** Assignments to one field. *)
Definition setConfig (c : Config) (g : GUI) : GUI :=
  {| config := c;
     sourceEntry := sourceEntry g; targetEntry := targetEntry g;
     patternEntry := patternEntry g; extractEntry := extractEntry g;
     authorEntry := authorEntry g; emailEntry := emailEntry g;
     dryRunCheck := dryRunCheck g; verboseCheck := verboseCheck g;
     appendCheck := appendCheck g;
     logText := logText g; convertButton := convertButton g; dialogs := dialogs g |}.

Definition setLogText (text : string) (g : GUI) : GUI :=
  {| config := config g;
     sourceEntry := sourceEntry g; targetEntry := targetEntry g;
     patternEntry := patternEntry g; extractEntry := extractEntry g;
     authorEntry := authorEntry g; emailEntry := emailEntry g;
     dryRunCheck := dryRunCheck g; verboseCheck := verboseCheck g;
     appendCheck := appendCheck g;
     logText := text; convertButton := convertButton g; dialogs := dialogs g |}.

Definition setConvertButton (enabled : bool) (label : string) (g : GUI) : GUI :=
  {| config := config g;
     sourceEntry := sourceEntry g; targetEntry := targetEntry g;
     patternEntry := patternEntry g; extractEntry := extractEntry g;
     authorEntry := authorEntry g; emailEntry := emailEntry g;
     dryRunCheck := dryRunCheck g; verboseCheck := verboseCheck g;
     appendCheck := appendCheck g;
     logText := logText g; convertButton := (enabled, label); dialogs := dialogs g |}.

(** A dialog is opened. *)
Definition show (d : Dialog) (g : GUI) : GUI :=
  {| config := config g;
     sourceEntry := sourceEntry g; targetEntry := targetEntry g;
     patternEntry := patternEntry g; extractEntry := extractEntry g;
     authorEntry := authorEntry g; emailEntry := emailEntry g;
     dryRunCheck := dryRunCheck g; verboseCheck := verboseCheck g;
     appendCheck := appendCheck g;
     logText := logText g; convertButton := convertButton g;
     dialogs := dialogs g ++ [d] |}.

(** [g.log]: the message goes on a new line at the end of the log. *)
Definition log (msg : string) (g : GUI) : GUI :=
  setLogText (logText g +:+ String newline EmptyString +:+ msg) g.

Section Conversion.
Variable sys : Sys.
Variable refuses : CommitOracle.
(** The text of an error of the converter, as [%v] prints it. *)
Variable errorText : Error → string.

(** [g.logError]. *)
Definition logError (msg : string) (err : option Error) (g : GUI) : GUI :=
  let msg := match err with
             | Some e => msg +:+ " " +:+ errorText e
             | None => msg
             end in
  log ("ОШИБКА: " +:+ msg) (show (ShowError msg) g).

(** [g.logSuccess]. *)
Definition logSuccess (msg : string) (g : GUI) : GUI :=
  log ("УСПЕХ: " +:+ msg) (show (ShowInformation "Успех" msg) g).

(** The configuration after the block of assignments from the widgets:
    the authors file and the message template are not among them. *)
Definition entered (g : GUI) : Config :=
  {| SourceDir := sourceEntry g;
     TargetDir := targetEntry g;
     Pattern := patternEntry g;
     ExtractPattern := extractEntry g;
     DryRun := dryRunCheck g;
     Author := authorEntry g;
     Email := emailEntry g;
     Verbose := verboseCheck g;
     Append := appendCheck g;
     AuthorsFile := AuthorsFile (config g);
     MessageTemplate := MessageTemplate (config g) |}.

(** The body of the goroutine. *)
Definition convert (g : GUI) (w : World) : GUI * World :=
  let g := log "Начинаем поиск папок с версиями..." g in
  match FindVersionedFolders sys (config g) with
  | inl err => (logError "Ошибка поиска папок:" (Some err) g, w)
  | inr folders =>
      if (length folders =? 0)%nat then (logError "Не найдены папки с версиями" None g, w)
      else
        let g := log ("Найдено " +:+ pretty (length folders) +:+ " папок с версиями") g in
        match MigrateToGit sys refuses (config g) folders w with
        | (Some err, w') => (logError "Ошибка миграции:" (Some err) g, w')
        | (None, w') =>
            if negb (DryRun (config g))
            then (logSuccess ("Git-репозиторий успешно создан в: " +:+ TargetDir (config g)) g,
                  w')
            else (log "Тестовый режим завершен" g, w')
        end
  end.

(** [g.startConversion]; the deferred call gives the button back. *)
Definition startConversion (g : GUI) (w : World) : GUI * World :=
  if String.eqb (sourceEntry g) EmptyString
  then (show (ShowError "укажите исходную директорию") g, w)
  else if String.eqb (targetEntry g) EmptyString
  then (show (ShowError "укажите целевую директорию") g, w)
  else
    let g := setConfig (entered g) g in
    let g := setConvertButton false "Выполняется..." g in
    let '(g, w) := convert g w in
    (setConvertButton true "Начать конвертацию" g, w).

End Conversion.

(** What the user and the other handlers of the window do between two
    conversions: the widgets are edited, a directory is chosen with one of
    the two browse buttons, the log is cleared. *)
Definition edit (widgets : GUI) (g : GUI) : GUI :=
  {| config := config g;
     sourceEntry := sourceEntry widgets; targetEntry := targetEntry widgets;
     patternEntry := patternEntry widgets; extractEntry := extractEntry widgets;
     authorEntry := authorEntry widgets; emailEntry := emailEntry widgets;
     dryRunCheck := dryRunCheck widgets; verboseCheck := verboseCheck widgets;
     appendCheck := appendCheck widgets;
     logText := logText g; convertButton := convertButton g; dialogs := dialogs g |}.

(** What a browse button puts into its entry: the selected path, when the
    selection succeeded and is not empty. *)
Definition chosen (selected : option string) (current : string) : string :=
  match selected with
  | Some path => if nonEmpty path then path else current
  | None => current
  end.

Definition sourceBrowse (selected : option string) (g : GUI) : GUI :=
  {| config := config g;
     sourceEntry := chosen selected (sourceEntry g); targetEntry := targetEntry g;
     patternEntry := patternEntry g; extractEntry := extractEntry g;
     authorEntry := authorEntry g; emailEntry := emailEntry g;
     dryRunCheck := dryRunCheck g; verboseCheck := verboseCheck g;
     appendCheck := appendCheck g;
     logText := logText g; convertButton := convertButton g; dialogs := dialogs g |}.

Definition targetBrowse (selected : option string) (g : GUI) : GUI :=
  {| config := config g;
     sourceEntry := sourceEntry g; targetEntry := chosen selected (targetEntry g);
     patternEntry := patternEntry g; extractEntry := extractEntry g;
     authorEntry := authorEntry g; emailEntry := emailEntry g;
     dryRunCheck := dryRunCheck g; verboseCheck := verboseCheck g;
     appendCheck := appendCheck g;
     logText := logText g; convertButton := convertButton g; dialogs := dialogs g |}.

(** The button that clears the log. *)
Definition clearLog (g : GUI) : GUI := setLogText EmptyString g.

(** The things that happen to a window. *)
Inductive Event :=
| Edit (widgets : GUI)
| SourceBrowse (selected : option string)
| TargetBrowse (selected : option string)
| ClearLog
| StartConversion.

Definition handle (sys : Sys) (refuses : CommitOracle) (errorText : Error → string)
    (state : GUI * World) (event : Event) : GUI * World :=
  let '(g, w) := state in
  match event with
  | Edit widgets => (edit widgets g, w)
  | SourceBrowse selected => (sourceBrowse selected g, w)
  | TargetBrowse selected => (targetBrowse selected g, w)
  | ClearLog => (clearLog g, w)
  | StartConversion => startConversion sys refuses errorText g w
  end.

(** The window as [main] and [setupUI] make it. *)
Definition initial : GUI :=
  {| config := {| SourceDir := EmptyString; TargetDir := EmptyString;
                  Pattern := "*"; ExtractPattern := "[0-9]+(\.[0-9]+)?";
                  DryRun := false; Author := "Developer"; Email := "dev@example.com";
                  Verbose := false; Append := false;
                  AuthorsFile := EmptyString; MessageTemplate := EmptyString |};
     sourceEntry := EmptyString; targetEntry := EmptyString;
     patternEntry := "*"; extractEntry := "[0-9]+(\.[0-9]+)?";
     authorEntry := "Developer"; emailEntry := "dev@example.com";
     dryRunCheck := false; verboseCheck := false; appendCheck := false;
     logText := "Добро пожаловать в Folder to Git Converter!" +:+ String newline
                  "Заполните необходимые поля и нажмите 'Начать конвертацию'";
     convertButton := (true, "Начать конвертацию");
     dialogs := [] |}.

End Gui.

(** * Notions the properties are stated with *)

(** ** Messages and discovery *)

(** No byte of [s] is the separator. *)
Fixpoint freeOf (sep : ascii) (s : string) : bool :=
  match s with
  | EmptyString => true
  | String c s' => negb (Ascii.eqb c sep) && freeOf sep s'
  end.

(** The value of the variable [folders] when [FindVersionedFolders]
    returns, sorting aside: the set of discovered folders. *)
Definition discovered (sys : Sys) (config : Config) : list FolderInfo :=
  match scanFolders sys config with
  | inl _ => []
  | inr folders => folders
  end.

(** ** The timestamp heuristic *)

(** The files the walk of [getFolderCreationTime] would count if there were
    no limit, in the order of the walk, each with its modification time:
    the files below the folder that are no service files and lie in no
    service directory and in no directory that cannot be listed. *)
Fixpoint visibleFiles (name : string) (n : node) : list (string * Z) :=
  match n with
  | Dir listable entries =>
      if isServiceDir name || negb listable then []
      else
        (fix each (entries : list (string * node)) : list (string * Z) :=
           match entries with
           | [] => []
           | (child_name, child) :: rest => visibleFiles child_name child ++ each rest
           end) entries
  | _ => if isServiceFile name then [] else [(name, ModTime n)]
  end.

(** The time stamps a counted file adds to the sample: two for a key file. *)
Definition sample (sys : Sys) (file : string * Z) : list Z :=
  if isKeyFile sys file.1 then [file.2; file.2] else [file.2].

(** The files that are counted: the first [maxFiles] visible ones. *)
Definition countedFiles (folderPath : string) (folder : option node) : list (string * Z) :=
  match folder with
  | None => []
  | Some n => take maxFiles (visibleFiles (GoPath.Base folderPath) n)
  end.

Definition samples (sys : Sys) (folderPath : string) (folder : option node) : list Z :=
  countedFiles folderPath folder ≫= sample sys.

(** Does the walk of a folder meet an error: the folder is missing, or a
    directory the walk reaches cannot be listed (directories are listed
    before the callback can skip them, directories below a skipped one are
    not reached). *)
Fixpoint meetsUnlistable (name : string) (n : node) : bool :=
  match n with
  | Dir listable entries =>
      negb listable ||
      (negb (isServiceDir name) &&
       (fix any (entries : list (string * node)) : bool :=
          match entries with
          | [] => false
          | (child_name, child) :: rest => meetsUnlistable child_name child || any rest
          end) entries)
  | _ => false
  end.

Definition walkMeetsError (folderPath : string) (folder : option node) : bool :=
  match folder with
  | None => true
  | Some n => meetsUnlistable (GoPath.Base folderPath) n
  end.

(** One counted file, seen from the closure's state. *)
Definition countFile (sys : Sys) (s : timesState) (file : string * Z) : timesState :=
  if (maxFiles <=? processedFiles s)%nat then s
  else {| fileTimes := fileTimes s ++ sample sys file;
          processedFiles := S (processedFiles s) |}.

(** ** The authors file, in the words of its description

    Plain text, one mapping per line; blank lines and lines that start with
    [#] are ignored; the fields are separated by colons as
    [version:name:email], at least three of them; the first line whose
    version field is the wanted one wins. *)
Definition mappingLines (data : string) : list (list string) :=
  (λ line, Split line colon) <$>
    filter (λ line, line ≠ EmptyString ∧ HasPrefix line "#" = false)
           (TrimSpace <$> Split data newline).

Definition firstMapping (version data : string) : option (string * string) :=
  match filter (λ fields : list string,
                  (3 ≤ length fields)%nat ∧ fields !! 0%nat = Some version)
               (mappingLines data) with
  | fields :: _ => Some (nth 1 fields EmptyString, nth 2 fields EmptyString)
  | [] => None
  end.

(** The mapping the authors file gives for a version, when one is
    configured and can be read. *)
Definition mappingFor (sys : Sys) (config : Config) (version : string)
  : option (string * string) :=
  if nonEmpty (AuthorsFile config)
  then sys_readFile sys (AuthorsFile config) ≫= firstMapping version
  else None.

(** The author as the specification states it: the pair of the first matching
    line, the configured author when there is none. *)
Definition statedAuthor (sys : Sys) (config : Config) (version : string)
  : string * string :=
  match mappingFor sys config version with
  | Some mapping => mapping
  | None => (Author config, Email config)
  end.

(** The author as amended: the pair of the first matching line when both
    its fields are filled in, the configured author otherwise. *)
Definition mappedAuthor (sys : Sys) (config : Config) (version : string)
  : string * string :=
  match mappingFor sys config version with
  | Some (name, email) =>
      if nonEmpty name && nonEmpty email then (name, email)
      else (Author config, Email config)
  | None => (Author config, Email config)
  end.

(** ** The history of a repository

    The commits that can be reached from the references through parent
    links, and the version tokens their messages carry. *)
Fixpoint historyFrom (fuel : nat) (repo : Repository) (h : Hash) : list Commit :=
  match fuel with
  | O => []
  | S fuel' =>
      match CommitObject repo h with
      | Some c => c :: (ParentHashes c ≫= historyFrom fuel' repo)
      | None => []
      end
  end.

Definition history (repo : Repository) : list Commit :=
  references repo ≫= λ ref,
    match resolveReference (length (references repo)) repo (refName ref) with
    | Some h => historyFrom (length (objects repo)) repo h
    | None => []
    end.

Definition versionsInHistory (repo : Repository) : gset string :=
  list_to_set (omap (λ c, versionOfMessage (Message c)) (history repo)).

(** The version tokens the messages of the stored commits carry. *)
Definition versionsOfCommits (repo : Repository) : list string :=
  omap (λ c, versionOfMessage (Message c)) (commitsOf repo).

(** ** Append mode *)

(** Is the version of a folder in the existing-version index of the
    repository as the run finds it? *)
Definition indexedAtStart (w : World) (folder : FolderInfo) : bool :=
  match w_repo w with
  | Some opened => bool_decide (Version folder ∈ existingVersionsOf opened)
  | None => false
  end.

(** [keeps before after]: every path that showed a file or a directory
    before shows the same after; for a file that is the same content, mode
    and time. *)
Definition keeps (before after : node) : Prop :=
  ∀ path s, look before path = Some s → look after path = Some s.

(** ** The materialized working tree *)


(** The data [os.Open] and [io.Copy] read from a source entry. *)
Definition openedData (n : node) : option FileData :=
  match deref n with
  | Some (File _ d) => Some d
  | _ => None
  end.




(** Does [path], taken from the directory [n] resolves to, run into a
    symbolic link: is one of its elements, the last one too, a link? *)
Fixpoint meetsLink (n : node) (path : relpath) : bool :=
  match path with
  | [] => false
  | c :: path' =>
      match deref n with
      | Some (Dir _ entries) =>
          match lookupEntry c entries with
          | Some child => IsSymlink child || meetsLink child path'
          | None => false
          end
      | _ => false
      end
  end.





(** * Notions for the further properties *)

(** ** Discovery *)

(** Is a match of the glob pattern taken as a versioned folder: it resolves
    to a directory, and the expression finds something in its name. *)
Definition isVersioned (sys : Sys) (re : string → string) (path : string) : bool :=
  match os_Stat sys path with
  | Some info => IsDir info && nonEmpty (re (GoPath.Base path))
  | None => false
  end.

(** The entry discovery makes for such a match. *)
Definition folderOf (sys : Sys) (re : string → string) (path : string) : FolderInfo :=
  {| Path := path; Version := re (GoPath.Base path);
     CreationTime := getFolderCreationTime sys path (sys_lstat sys path) |}.

(** ** Message templates *)

(** The five placeholders [MigrateToGit] replaces, in the order of its
    chain of [strings.ReplaceAll]. *)
Inductive Placeholder := PhVersion | PhFolder | PhDate | PhFiles | PhAuthor.

Definition placeholderText (p : Placeholder) : string :=
  match p with
  | PhVersion => "{version}"
  | PhFolder => "{folder}"
  | PhDate => "{date}"
  | PhFiles => "{files}"
  | PhAuthor => "{author}"
  end.

Definition samePlaceholder (p q : Placeholder) : bool :=
  match p, q with
  | PhVersion, PhVersion | PhFolder, PhFolder | PhDate, PhDate
  | PhFiles, PhFiles | PhAuthor, PhAuthor => true
  | _, _ => false
  end.

(** A template, cut into literal text and placeholders. *)
Inductive Piece :=
| Literal (text : string)
| Hole (p : Placeholder).

Definition brace : ascii := "{"%char.

(** Literal text without an opening brace. *)
Definition plainPiece (piece : Piece) : bool :=
  match piece with
  | Literal text => freeOf brace text
  | Hole _ => true
  end.

(** The text of a template in which the placeholders [filled] holds are
    replaced by their values and the others stand as written. *)
Definition fillIn (filled : Placeholder → bool) (value : Placeholder → string)
    (pieces : list Piece) : string :=
  foldr (λ piece rest,
           match piece with
           | Literal text => text
           | Hole p => if filled p then value p else placeholderText p
           end +:+ rest) EmptyString pieces.

(** The template as it is written in the configuration. *)
Definition templateOf (pieces : list Piece) : string :=
  fillIn (λ _, false) (λ _, EmptyString) pieces.

(** The values [MigrateToGit] puts in: the version, the base name of the
    folder, its formatted creation time, the number of files copied, and
    the name of the author. *)
Definition valueOf (sys : Sys) (folder : FolderInfo) (fileCount : nat) (authorName : string)
    (p : Placeholder) : string :=
  match p with
  | PhVersion => Version folder
  | PhFolder => GoPath.Base (Path folder)
  | PhDate => sys_formatTime sys (CreationTime folder)
  | PhFiles => pretty fileCount
  | PhAuthor => authorName
  end.

(** ** Writing an authors file *)

(** The line that maps a version to a name and an address. *)
Definition authorsLine (mapping : string * string * string) : string :=
  let '(version, name, email) := mapping in
  version +:+ ":" +:+ name +:+ ":" +:+ email.

(** A mapping whose line reads back as written: no field holds a colon,
    the line holds no line feed, has no white space at either end and does
    not start with [#]. *)
Definition readsBack (mapping : string * string * string) : bool :=
  let '(version, name, email) := mapping in
  freeOf colon version && freeOf colon name && freeOf colon email
  && freeOf newline (authorsLine mapping)
  && String.eqb (TrimSpace (authorsLine mapping)) (authorsLine mapping)
  && negb (HasPrefix (authorsLine mapping) "#").

(** ** The ignore patterns, in words *)

(** The file names [copyFilesAndTrack] passes over: three names, and seven
    endings. *)
Definition ignoredNames : list string := [".DS_Store"; ".gitignore"; ".gitattributes"].

Definition ignoredEndings : list string :=
  [".pyc"; ".pyo"; ".pyd"; ".swp"; ".swo"; ".log"; ".bak"].

(** A pattern without [*] and [?]. *)
Definition isLiteral (pattern : string) : bool :=
  freeOf "*" pattern && freeOf "?" pattern.

(** ** Clearing *)

(** The loop of [clearDirectory] over the entries of a directory, by
    itself. *)
Definition clearEntries (sys : Sys) (dir : string)
  : list (string * node) → list (string * node) :=
  fix each (entries : list (string * node)) : list (string * node) :=
    match entries with
    | [] => []
    | (name, child) :: rest =>
        if isSystemDir name then (name, child) :: each rest
        else if IsSymlink child then (name, child) :: each rest
        else if IsDir child then
          match clearDirectory sys (GoPath.Join2 dir name) child with
          | None => (name, child) :: each rest
          | Some child' =>
              if os_Remove sys (GoPath.Join2 dir name) child' then each rest
              else (name, child') :: each rest
          end
        else if os_Remove sys (GoPath.Join2 dir name) child then each rest
        else (name, child) :: each rest
    end.


(** Can [os.ReadDir] list what the node resolves to? *)
Definition readable (n : node) : bool :=
  match deref n with
  | Some (Dir true _) => true
  | _ => false
  end.

(** An entry the loop of [clearDirectory] passes over: a protected name, or
    a symbolic link. *)
Definition protectedEntry (entry : string * node) : bool :=
  isSystemDir entry.1 || IsSymlink entry.2.

(** The same for the older clearing, with its three kept names. *)
Definition keptEntry (entry : string * node) : bool :=
  Older.isKept entry.1 || IsSymlink entry.2.

(** What the older clearing can empty and remove: a file the system lets
    go, or a directory that can be listed, holds nothing but what can be
    emptied and removed (at any depth no kept name, no symbolic link and no
    directory that cannot be listed), and is let go when it is empty. *)
Fixpoint emptiable (sys : Sys) (path : string) (n : node) : bool :=
  match n with
  | Dir true entries =>
      forallb (λ entry, negb (Older.isKept entry.1) && negb (IsSymlink entry.2)
                        && emptiable sys (GoPath.Join2 path entry.1) entry.2) entries
      && sys_remove sys path (Dir true [])
  | Dir false _ => false
  | _ => sys_remove sys path n
  end.

(** ** Copying *)

(** [stays before after]: a path that showed a directory shows a directory,
    and one that showed a regular file shows a regular file. *)
Definition stays (before after : node) : Prop :=
  ∀ path, match look before path with
          | Some SeenDir => look after path = Some SeenDir
          | Some (SeenFile _ _) => ∃ t d, look after path = Some (SeenFile t d)
          | None => True
          end.

(** [filesStay before after]: every path that resolved to a regular file
    before resolves to a regular file after. *)
Definition filesStay (before after : node) : Prop :=
  ∀ path, is_Some (statFile before path) → is_Some (statFile after path).

(** What a call of the callback of [copyFilesAndTrack] does to the state
    of the closure: files stay files, the count and the list grow together,
    and a path that joins the list is a regular file in the target. *)
Definition tracks (s s' : copyState) : Prop :=
  filesStay (cs_target s) (cs_target s')
  ∧ (cs_count s = length (cs_newFiles s) → cs_count s' = length (cs_newFiles s'))
  ∧ ∀ file, file ∈ cs_newFiles s' →
            file ∈ cs_newFiles s ∨ is_Some (statFile (cs_target s') file).

(** The same in append mode: what was there stays, and a path that joins
    the list of new files showed nothing before. *)
Definition addsFresh (s s' : copyState) : Prop :=
  keeps (cs_target s) (cs_target s')
  ∧ ∀ file, file ∈ cs_newFiles s' →
            file ∈ cs_newFiles s ∨ look (cs_target s) file = None.

(** ** Commits *)

(** The parents [worktree.Commit] gives a new commit: what [HEAD] resolves
    to, if it resolves. *)
Definition headParents (repo : Repository) : list Hash :=
  match Head repo with
  | Some h => [h]
  | None => []
  end.

(** [madeFor sys config folder c]: the commit carries what a turn of the
    loop gives the commit for the folder: the author the authors file or
    the configuration names, the creation time of the folder as the time,
    and the message for the folder and some positive number of files. *)
Definition madeFor (sys : Sys) (config : Config) (folder : FolderInfo) (c : Commit) : Prop :=
  let '(authorName, authorEmail) := resolveAuthor sys config (Version folder) in
  CommitAuthor c = {| sig_Name := authorName; sig_Email := authorEmail;
                      sig_When := CreationTime folder |}
  ∧ ∃ fileCount, (0 < fileCount)%nat
                 ∧ Message c = commitMessage sys config folder fileCount authorName.

(** The repository a run works on when it gets as far as the loop: the one
    in [.git] when the target has one, a new one when it has none and the
    run is not in append mode. *)
Definition startsFrom (config : Config) (w : World) (repo : Repository) : Prop :=
  match w_target w ≫= λ target, Stat target [".git"] with
  | Some _ => w_repo w = Some repo
  | None => Append config = false ∧ repo = emptyRepository
  end.

(** * Examples *)

(** ** A small project kept as folders

    Three snapshots: [app_1.0], a hotfix of it whose name carries the same
    version token, and [app_1.2]. *)
Definition plainFile (mtime : Z) (content : string) : node :=
  File mtime {| f_content := content; f_mode := 420 |}.

Definition demoLstat (path : string) : option node :=
  if String.eqb path "/versions/app_1.0"
  then Some (Dir true [("a.txt", plainFile 100 "first")])
  else if String.eqb path "/versions/app_1.0_hotfix"
  then Some (Dir true [("fix.txt", plainFile 200 "patched")])
  else if String.eqb path "/versions/app_1.2"
  then Some (Dir true [("b.txt", plainFile 300 "second")])
  else None.

(** What the expression [[0-9]+\.[0-9]+] finds in the three names. *)
Definition demoFindString (name : string) : string :=
  if String.eqb name "app_1.0" then "1.0"
  else if String.eqb name "app_1.0_hotfix" then "1.0"
  else if String.eqb name "app_1.2" then "1.2"
  else EmptyString.

(** The case tables, as far as the examples go: the capital letters of
    Latin-1, the dotted capital I (U+0130) and the Kelvin sign (U+212A),
    which become [i] and [k]. *)
Definition demoToLower (r : N) : N :=
  (if ((192 <=? r) && (r <=? 214)) || ((216 <=? r) && (r <=? 222)) then r + 32
   else if r =? 304 then 105
   else if r =? 8490 then 107
   else r)%N.

Definition demoSys : Sys :=
  {| sys_now := 1700000000;
     sys_formatTime := λ _, "2023-11-14 22:13:20";
     sys_homeDir := Some "/home/user";
     sys_umask := 18%N;
     sys_lstat := demoLstat;
     sys_readFile := λ _, None;
     sys_glob := λ _, Some [ "/versions/app_1.0"; "/versions/app_1.0_hotfix";
                             "/versions/app_1.2" ];
     sys_regexp := λ _, Some demoFindString;
     sys_toLower := demoToLower;
     sys_remove := λ _ _, true |}.

Definition demoConfig (append : bool) : Config :=
  {| SourceDir := "/versions"; TargetDir := "/work/repo";
     Pattern := "*"; ExtractPattern := "[0-9]+\.[0-9]+";
     DryRun := false; Author := "Developer"; Email := "dev@example.com";
     Verbose := false; Append := append;
     AuthorsFile := EmptyString; MessageTemplate := EmptyString |}.

Definition neverRefuses : CommitOracle := λ _ _, false.

Definition folder_1_0 : FolderInfo :=
  {| Path := "/versions/app_1.0"; Version := "1.0"; CreationTime := 100 |}.
Definition folder_1_0_hotfix : FolderInfo :=
  {| Path := "/versions/app_1.0_hotfix"; Version := "1.0"; CreationTime := 200 |}.
Definition folder_1_2 : FolderInfo :=
  {| Path := "/versions/app_1.2"; Version := "1.2"; CreationTime := 300 |}.

Definition demoFolders : list FolderInfo :=
  [folder_1_0; folder_1_0_hotfix; folder_1_2].

Definition nothingThere : World := {| w_target := None; w_repo := None |}.

Definition migrate (append : bool) (folders : list FolderInfo) (w : World) : World :=
  (MigrateToGit demoSys neverRefuses (demoConfig append) folders w).2.

Definition repoOf (w : World) : Repository :=
  default emptyRepository (w_repo w).

(** A repository made from the first snapshot alone, then two runs in
    append mode over all three. *)
Definition afterFirstSnapshot : World := migrate false [folder_1_0] nothingThere.
Definition afterFirstAppend : World := migrate true demoFolders afterFirstSnapshot.
Definition afterSecondAppend : World := migrate true demoFolders afterFirstAppend.

(** A repository made from the last snapshot alone, from which runs in
    append mode start. *)
Definition afterLastSnapshot : World := migrate false [folder_1_2] nothingThere.

(** A folder whose walk meets an error although a file was counted before:
    one file, and one directory that cannot be listed. *)
Definition guardedFolder : node :=
  Dir true [ ("a.txt", File 5 {| f_content := "x"; f_mode := 420 |});
             ("secret", Dir false []) ].

(** A folder with a key file whose name holds the dotted capital I. *)
Definition dottedFolder : node :=
  Dir true [ ("a.txt", plainFile 100 "x"); ("b.txt", plainFile 200 "x");
             ("maİn.py", plainFile 300 "x") ].

(** A run in which the authors file maps version 1.0 to a name without an
    address. *)
Definition authorsSys (data : string) : Sys :=
  {| sys_now := 1700000000;
     sys_formatTime := λ _, "2023-11-14 22:13:20";
     sys_homeDir := Some "/home/user";
     sys_umask := 18%N;
     sys_lstat := λ _, None;
     sys_readFile := λ path, if String.eqb path "authors.txt" then Some data else None;
     sys_glob := λ _, Some [];
     sys_regexp := λ _, None;
     sys_toLower := demoToLower;
     sys_remove := λ _ _, true |}.

Definition authorsConfig : Config :=
  {| SourceDir := "/src"; TargetDir := "/out/repo";
     Pattern := "*"; ExtractPattern := "[0-9]+\.[0-9]+";
     DryRun := false; Author := "Developer"; Email := "dev@example.com";
     Verbose := false; Append := false;
     AuthorsFile := "authors.txt"; MessageTemplate := EmptyString |}.

(** A target directory that holds a repository and one file already. *)
Definition keptTarget : node :=
  Dir true [ (".git", Dir true []); ("a.txt", plainFile 50 "mine") ].

Definition keptWorld : World :=
  {| w_target := Some keptTarget; w_repo := Some emptyRepository |}.

(** A target that holds, besides the repository, a directory that cannot
    be listed, with a file from earlier in it. *)
Definition staleFile : FileData := {| f_content := "stale"; f_mode := 420 |}.

Definition staleTarget : node :=
  Dir true [ (".git", Dir true []);
             ("old", Dir false [("x.txt", File 50 staleFile)]) ].


(** ** More of the small project *)

(** A folder that discovery found and that was moved away before the run
    reached it. *)
Definition movedFolder : FolderInfo :=
  {| Path := "/versions/app_1.1"; Version := "1.1"; CreationTime := 250 |}.

(** A target that has been used: the repository, a file, a directory with
    a file, and a directory that cannot be listed. *)
Definition usedTarget : node :=
  Dir true [ (".git", Dir true []); ("a.txt", plainFile 50 "mine");
             ("docs", Dir true [("notes.txt", plainFile 60 "notes")]);
             ("old", Dir false [("x.txt", File 50 staleFile)]) ].


(** The same surroundings, with the directory [docs] of the target on a
    file system that lets nothing go. *)
Definition readOnlySys : Sys :=
  {| sys_now := sys_now demoSys;
     sys_formatTime := sys_formatTime demoSys;
     sys_homeDir := sys_homeDir demoSys;
     sys_umask := sys_umask demoSys;
     sys_lstat := sys_lstat demoSys;
     sys_readFile := sys_readFile demoSys;
     sys_glob := sys_glob demoSys;
     sys_regexp := sys_regexp demoSys;
     sys_toLower := sys_toLower demoSys;
     sys_remove := λ path _, negb (HasPrefix path "/work/repo/docs/") |}.

(** A message template with three of the placeholders. *)
Definition releaseTemplate : list Piece :=
  [ Literal "Release "; Hole PhVersion; Literal " ("; Hole PhFiles;
    Literal " files) by "; Hole PhAuthor ].

Definition releaseConfig : Config :=
  {| SourceDir := "/versions"; TargetDir := "/work/repo";
     Pattern := "*"; ExtractPattern := "[0-9]+\.[0-9]+";
     DryRun := false; Author := "Developer"; Email := "dev@example.com";
     Verbose := false; Append := false;
     AuthorsFile := EmptyString;
     MessageTemplate := "Release {version} ({files} files) by {author}" |}.

(** An authors file with two mappings. *)
Definition twoAuthors : list (string * string * string) :=
  [ ("1.0", "Alice", "alice@example.com"); ("1.2", "Bob", "bob@example.com") ].

Definition twoAuthorsFile : string :=
  Join (authorsLine <$> twoAuthors) (String newline EmptyString).

(** The window with the two directories entered. *)
Definition filledWindow : Gui.GUI :=
  Gui.sourceBrowse (Some "/versions") (Gui.targetBrowse (Some "/work/repo") Gui.initial).

Definition noErrorText : Error → string := λ _, EmptyString.

(** * Properties *)

(** *** Facts about the string functions *)

Lemma HasPrefix_app (p s : string) : HasPrefix (p +:+ s) p = true.
Proof.
  induction p as [|c p IH]; simpl; [done|].
  rewrite Ascii.eqb_refl. exact IH.
Qed.

Lemma Contains_app (p s : string) : Contains (p +:+ s) p = true.
Proof.
  pose proof (HasPrefix_app p s) as H.
  destruct (p +:+ s); simpl; by rewrite H.
Qed.

Lemma cutPrefix_app (p s : string) : cutPrefix (p +:+ s) p = Some s.
Proof.
  induction p as [|c p IH]; simpl; [done|].
  by rewrite Ascii.eqb_refl.
Qed.

Lemma TrimPrefix_app (p s : string) : TrimPrefix (p +:+ s) p = s.
Proof. unfold TrimPrefix. by rewrite cutPrefix_app. Qed.

Lemma Split_app_sep (s t : string) (sep : ascii) :
  freeOf sep s = true →
  Split (s +:+ String sep t) sep = s :: Split t sep.
Proof.
  induction s as [|c s IH]; simpl.
  - intros _. by rewrite Ascii.eqb_refl.
  - intros [Hc Hs]%andb_prop. apply negb_true_iff in Hc. rewrite Hc.
    by rewrite (IH Hs).
Qed.

(** ** Induction on directory trees *)

Lemma node_ind' (P : node → Prop) :
  (∀ t d, P (File t d)) →
  (∀ t, P (Symlink t None)) →
  (∀ t n, P n → P (Symlink t (Some n))) →
  (∀ l entries, Forall (λ e, P e.2) entries → P (Dir l entries)) →
  ∀ n, P n.
Proof.
  intros HF HS0 HS HD.
  fix IH 1. intros [t d|t [n|]|l entries].
  - apply HF.
  - apply HS, IH.
  - apply HS0.
  - apply HD. induction entries as [|[k c] rest IHrest]; constructor; [apply IH|apply IHrest].
Qed.

(** ** The timestamp heuristic *)

Lemma countFile_full (sys : Sys) (s : timesState) (files : list (string * Z)) :
  (maxFiles ≤ processedFiles s)%nat → foldl (countFile sys) s files = s.
Proof.
  intros Hfull. induction files as [|f files IH]; simpl; [done|].
  unfold countFile at 2. apply Nat.leb_le in Hfull as ->. exact IH.
Qed.

Lemma countFile_take (sys : Sys) (s : timesState) (files : list (string * Z)) :
  fileTimes (foldl (countFile sys) s files)
  = fileTimes s ++ (take (maxFiles - processedFiles s) files ≫= sample sys).
Proof.
  revert s. induction files as [|f files IH]; intros s; simpl.
  - by rewrite take_nil, app_nil_r.
  - unfold countFile at 2. destruct (maxFiles <=? processedFiles s)%nat eqn:Hfull.
    + apply Nat.leb_le in Hfull. rewrite IH.
      replace (maxFiles - processedFiles s)%nat with 0%nat by lia.
      by rewrite !take_0.
    + apply Nat.leb_gt in Hfull. rewrite IH. simpl.
      replace (maxFiles - processedFiles s)%nat
        with (S (maxFiles - S (processedFiles s))) by lia.
      simpl. by rewrite <- app_assoc.
Qed.

Lemma timesFn_file (sys : Sys) (n : node) (rel : relpath) (name : string) (s : timesState) :
  IsDir n = false →
  let files := if isServiceFile name then [] else [(name, ModTime n)] in
  ∃ r, timesFn sys rel name (Some n) None s = (r, foldl (countFile sys) s files)
       ∧ (∀ e, r ≠ WalkErr e)
       ∧ (r = SkipDir → (maxFiles ≤ processedFiles (foldl (countFile sys) s files))%nat).
Proof.
  intros Hdir files. unfold timesFn. rewrite Hdir.
  destruct (maxFiles <=? processedFiles s)%nat eqn:Hfull.
  - assert (maxFiles ≤ processedFiles s)%nat as Hle by (by apply Nat.leb_le).
    rewrite (countFile_full sys s files Hle). by eexists.
  - subst files. destruct (isServiceFile name); simpl.
    + by eexists.
    + unfold countFile, sample. rewrite Hfull. simpl.
      destruct (isKeyFile sys name); simpl; rewrite <- ?app_assoc; by eexists.
Qed.

Lemma walk_timesFn (sys : Sys) (n : node) :
  ∀ rel name s,
    ∃ r, walk (timesFn sys) rel name n s = (r, foldl (countFile sys) s (visibleFiles name n))
         ∧ (∀ e, r ≠ WalkErr e)
         ∧ (IsDir n = false → r = SkipDir →
            (maxFiles ≤ processedFiles (foldl (countFile sys) s (visibleFiles name n)))%nat).
Proof.
  induction n as [t d|t|t n _|l entries IH] using node_ind'; intros rel name s.
  1-3: match goal with |- context [walk _ _ _ ?n _] =>
         destruct (timesFn_file sys n rel name s eq_refl) as (r & Hr & Hne & Hskip) end;
       exists r; cbn [walk visibleFiles]; split; [exact Hr|split; [exact Hne|intros _; exact Hskip]].
  cbn [walk visibleFiles]. destruct l; cbn [timesFn IsDir negb orb].
  2: { rewrite orb_true_r. simpl. eexists; split; [done|split; done]. }
  destruct (isServiceDir name) eqn:Hsvc; simpl.
  { eexists; split; [done|split; done]. }
  clear Hsvc. revert s. induction IH as [|[k c] rest Hc _ IHrest]; intros s.
  - eexists; split; [done|split; done].
  - simpl in Hc. destruct (Hc (rel ++ [k]) k s) as (r & -> & Hne & Hskip).
    rewrite foldl_app.
    destruct r as [| |e]; simpl.
    + apply IHrest.
    + destruct (IsDir c) eqn:Hdir; simpl.
      * apply IHrest.
      * rewrite (countFile_full sys (foldl (countFile sys) s (visibleFiles k c))) by (by apply Hskip).
        eexists; split; [done|split; done].
    + by destruct (Hne e).
Qed.

(** ** Sorting *)

Section sort_Slice.
Context {A : Type} (less : A → A → bool).
Hypothesis less_asym : ∀ a b, less a b = true → less b a = false.

Local Instance notLess_total : Total (λ a b : A, Is_true (negb (less b a))).
Proof.
  intros a b. destruct (less b a) eqn:Hba; [right|left; done].
  by rewrite (less_asym _ _ Hba).
Qed.

Lemma sort_Slice_Sorted (l : list A) :
  Sorted (λ a b, less b a = false) (sort_Slice less l).
Proof.
  pose proof (Sorted_merge_sort (λ a b : A, Is_true (negb (less b a))) l) as Hs.
  unfold sort_Slice. induction Hs as [|x l' Hs IH Hhd]; constructor; [done|].
  destruct Hhd as [|y l' Hxy]; constructor.
  by destruct (less y x).
Qed.

Lemma sort_Slice_Permutation (l : list A) : sort_Slice less l ≡ₚ l.
Proof. apply merge_sort_Permutation. Qed.

End sort_Slice.

Lemma Zless_asym (a b : Z) : Zless a b = true → Zless b a = false.
Proof. unfold Zless. lia. Qed.

Lemma sort_Zless_Sorted (l : list Z) : Sorted Z.le (sort_Slice Zless l).
Proof.
  pose proof (sort_Slice_Sorted Zless Zless_asym l) as Hs.
  induction Hs as [|x l' Hs IH Hhd]; constructor; [done|].
  destruct Hhd as [|y l' Hxy]; constructor. unfold Zless in Hxy. lia.
Qed.

Lemma Walk_timesFn (sys : Sys) (folderPath : string) (folder : option node) :
  ∃ s, Walk (timesFn sys) (GoPath.Base folderPath) folder
         {| fileTimes := []; processedFiles := 0 |} = (None, s)
       ∧ fileTimes s = samples sys folderPath folder.
Proof.
  unfold Walk, samples, countedFiles. destruct folder as [n|]; simpl.
  - destruct (walk_timesFn sys n [] (GoPath.Base folderPath)
                {| fileTimes := []; processedFiles := 0 |}) as (r & -> & Hne & _).
    eexists. split.
    + destruct r as [| |e]; [done|done|by destruct (Hne e)].
    + by rewrite countFile_take.
  - by eexists.
Qed.

(** C7, as stated, fails: the walk of [guardedFolder] meets an error (the
    directory [secret] cannot be listed), and the answer is the time of the
    one file counted, 5, not the current time. *)
Lemma getFolderCreationTime_walk_error_counterexample :
  walkMeetsError "proj" (Some guardedFolder) = true
  ∧ getFolderCreationTime demoSys "proj" (Some guardedFolder) = 5
  ∧ sys_now demoSys = 1700000000.
Proof. repeat split; reflexivity. Qed.

(** C7 (amended): the timestamp heuristic always returns a time and no
    error.  Errors of the walk are passed over: a missing folder or a
    directory that cannot be listed adds no file.  At most 500 files are
    counted, in the order of the walk; each adds its modification time to
    the sample, a key file adds it twice.  The current time is returned
    exactly when the sample is empty; otherwise the answer is the middle
    element of the sorted sample (the upper one of the two for an even
    size). *)
Theorem getFolderCreationTime_median (sys : Sys) (folderPath : string) (folder : option node) :
  let counted := countedFiles folderPath folder in
  let times := samples sys folderPath folder in
  (length counted ≤ 500)%nat
  ∧ times = counted ≫= (λ file, if isKeyFile sys file.1 then [file.2; file.2] else [file.2])
  ∧ (times = [] → getFolderCreationTime sys folderPath folder = sys_now sys)
  ∧ (times ≠ [] →
     ∃ sorted, sorted ≡ₚ times ∧ Sorted Z.le sorted
               ∧ getFolderCreationTime sys folderPath folder
                 = nth (length times / 2) sorted 0).
Proof.
  intros counted times. split; [|split; [done|]].
  - subst counted. unfold countedFiles. destruct folder; simpl; [|lia].
    rewrite length_take. unfold maxFiles. lia.
  - unfold getFolderCreationTime.
    destruct (Walk_timesFn sys folderPath folder) as (s & -> & Hs).
    fold times in Hs. rewrite Hs. simpl. split.
    + intros ->. done.
    + intros Hne. destruct times as [|t times']; [done|]. simpl length at 1.
      cbn [Nat.eqb]. exists (sort_Slice Zless (t :: times')).
      split; [apply sort_Slice_Permutation|].
      split; [apply sort_Zless_Sorted|].
      by rewrite (Permutation_length (sort_Slice_Permutation Zless (t :: times'))).
Qed.

(** [strings.ToLower] turns the dotted capital I (U+0130) into [i]: the
    file [maİn.py] is a key file and counts twice, so that the sample of
    [dottedFolder] is 100, 200, 300, 300 and the answer is 300. *)
Lemma getFolderCreationTime_dotted_I :
  isKeyFile demoSys "maİn.py" = true
  ∧ samples demoSys "proj" (Some dottedFolder) = [100; 200; 300; 300]
  ∧ getFolderCreationTime demoSys "proj" (Some dottedFolder) = 300.
Proof. repeat split; reflexivity. Qed.

(** ** Version discovery *)

Lemma lessByCreationTime_asym (a b : FolderInfo) :
  lessByCreationTime a b = true → lessByCreationTime b a = false.
Proof. unfold lessByCreationTime. lia. Qed.

Lemma Sorted_adjacent {A} (R : A → A → Prop) (l : list A) :
  Sorted R l → ∀ i a b, l !! i = Some a → l !! S i = Some b → R a b.
Proof.
  induction 1 as [|x l Hs IH Hhd]; intros i a b Ha Hb; [done|].
  destruct i as [|i]; simpl in *.
  - destruct Hhd as [|y l Hxy]; simpl in *; by simplify_eq.
  - by eapply IH.
Qed.

(** C9: when discovery succeeds, the folders it returns are the discovered
    ones, and along the list the creation time never decreases from an
    element to the next; discovery returns an error exactly when the set of
    discovered folders is empty. *)
Theorem FindVersionedFolders_sorted (sys : Sys) (config : Config) :
  match FindVersionedFolders sys config with
  | inr folders =>
      folders ≡ₚ discovered sys config
      ∧ ∀ i a b, folders !! i = Some a → folders !! S i = Some b →
                 CreationTime a ≤ CreationTime b
  | inl _ => True
  end
  ∧ ((∃ e, FindVersionedFolders sys config = inl e) ↔ discovered sys config = []).
Proof.
  unfold FindVersionedFolders, discovered.
  destruct (scanFolders sys config) as [e|found].
  - split; [done|]. split; [done|]. by exists e.
  - pose proof (sort_Slice_Permutation lessByCreationTime found) as Hperm.
    pose proof (sort_Slice_Sorted lessByCreationTime lessByCreationTime_asym found) as Hsorted.
    destruct (sort_Slice lessByCreationTime found) as [|f sorted] eqn:Hsort; simpl.
    + apply Permutation_nil_l in Hperm as <-. split; [done|]. split; [done|]. by exists ErrNoFolders.
    + split.
      * split; [done|]. intros i a b Ha Hb.
        pose proof (Sorted_adjacent _ _ Hsorted i a b Ha Hb) as Hab.
        unfold lessByCreationTime in Hab. lia.
      * split; [by intros [e ?]|]. intros ->.
        by apply Permutation_nil_r in Hperm.
Qed.

(** ** The commit-message convention *)

Lemma append_assoc (a b c : string) : (a +:+ b) +:+ c = a +:+ b +:+ c.
Proof.
  induction a as [|x a IH]; [done|].
  change (String x ((a +:+ b) +:+ c) = String x (a +:+ b +:+ c)).
  f_equal. exact IH.
Qed.

(** C2, as stated, fails: a version token with a colon in it comes back cut
    at the colon. *)
Lemma versionOfMessage_colon_counterexample :
  versionOfMessage (defaultMessage "1:2" "proj_1:2" "2024-05-01 10:00:00") = Some "1".
Proof. reflexivity. Qed.

(** C2 (amended): for every folder base name and creation date, and every
    version token that has no colon in it and no white space at either end,
    the message the default format makes gives back exactly that token when
    the existing-version index reads it. *)
Theorem versionOfMessage_defaultMessage (version base date : string) :
  freeOf colon version = true →
  TrimSpace version = version →
  versionOfMessage (defaultMessage version base date) = Some version.
Proof.
  intros Hfree Htrim. unfold versionOfMessage, defaultMessage.
  set (tail := base +:+ " (created: " +:+ date +:+ ")").
  assert (Contains ("Version " +:+ version +:+ ": " +:+ tail) "Version" = true) as ->.
  { change ("Version " +:+ version +:+ ": " +:+ tail)
      with ("Version" +:+ " " +:+ version +:+ ": " +:+ tail).
    apply Contains_app. }
  replace ("Version " +:+ version +:+ ": " +:+ tail)
    with (("Version " +:+ version) +:+ String colon (" " +:+ tail))
    by (by rewrite append_assoc).
  rewrite Split_app_sep by exact Hfree.
  change ("Version " +:+ version) with ("Version" +:+ String " " version).
  rewrite TrimPrefix_app. f_equal.
  exact Htrim.
Qed.

Lemma versionOfMessage_defaultMessage_witness :
  versionOfMessage (defaultMessage "1.0" "project_v1.0" "2024-05-01 10:00:00") = Some "1.0".
Proof.
  apply (versionOfMessage_defaultMessage "1.0" "project_v1.0" "2024-05-01 10:00:00");
    reflexivity.
Defined.

(** ** The author of a commit *)

Lemma scanAuthors_firstMapping (version : string) (lines : list string) :
  scanAuthors version lines
  = match filter (λ fields : list string,
                    (3 ≤ length fields)%nat ∧ fields !! 0%nat = Some version)
                 ((λ line, Split line colon) <$>
                    filter (λ line, line ≠ EmptyString ∧ HasPrefix line "#" = false)
                           (TrimSpace <$> lines)) with
    | fields :: _ => (nth 1 fields EmptyString, nth 2 fields EmptyString)
    | [] => (EmptyString, EmptyString)
    end.
Proof.
  induction lines as [|line lines IH]; [done|].
  cbn [scanAuthors fmap list_fmap]. unfold authorOfLine.
  generalize (TrimSpace line). intros trimmed.
  destruct (String.eqb trimmed EmptyString) eqn:Hblank; cbn [orb].
  { apply String.eqb_eq in Hblank.
    rewrite filter_cons_False by (intros [Hne _]; by apply Hne). exact IH. }
  apply String.eqb_neq in Hblank.
  destruct (HasPrefix trimmed "#") eqn:Hhash; cbn [orb].
  { rewrite filter_cons_False by (intros [_ Hno]; congruence).
    exact IH. }
  rewrite filter_cons_True by done. cbn [fmap list_fmap].
  destruct (Split trimmed colon) as [|p0 [|p1 [|p2 more]]] eqn:Hsplit.
  1-3: rewrite filter_cons_False by (simpl; lia); exact IH.
  destruct (String.eqb p0 version) eqn:Hver.
  - apply String.eqb_eq in Hver as ->.
    rewrite filter_cons_True by (simpl; split; [lia|done]). done.
  - apply String.eqb_neq in Hver.
    rewrite filter_cons_False by (simpl; intros [_ Heq]; congruence). exact IH.
Qed.

Lemma resolveAuthor_mappedAuthor (sys : Sys) (config : Config) (version : string) :
  resolveAuthor sys config version = mappedAuthor sys config version.
Proof.
  unfold resolveAuthor, mappedAuthor, mappingFor, getAuthorInfo.
  destruct (nonEmpty (AuthorsFile config)) eqn:Hconfigured; [|done].
  unfold nonEmpty in Hconfigured. apply negb_true_iff in Hconfigured as ->.
  destruct (sys_readFile sys (AuthorsFile config)) as [data|]; [|done].
  simpl. rewrite scanAuthors_firstMapping. unfold firstMapping, mappingLines.
  by destruct (filter _ _) as [|fields ?].
Qed.

Lemma commitsOf_worktree_Add (target : node) (repo : Repository) (files : list relpath) :
  objects (foldl (λ repo file, default repo (worktree_Add target file repo)) repo files)
  = objects repo.
Proof.
  revert repo. induction files as [|file files IH]; intros repo; simpl; [done|].
  rewrite IH. unfold worktree_Add. by destruct (statFile target file).
Qed.

Lemma commitsOf_worktree_Commit (msg : string) (author : Signature) (repo : Repository) :
  ∃ c, commitsOf (worktree_Commit msg author repo) = commitsOf repo ++ [c]
       ∧ Message c = msg ∧ CommitAuthor c = author.
Proof.
  eexists. unfold commitsOf, worktree_Commit. simpl.
  rewrite omap_app. simpl. done.
Qed.

(** C8, as stated, fails: the first line for version 1.0 names Alice and
    leaves the address empty; the specification makes Alice the author, the code
    falls back to the configured author. *)
Lemma resolveAuthor_empty_field_counterexample :
  statedAuthor (authorsSys "1.0:Alice:") authorsConfig "1.0" = ("Alice", EmptyString)
  ∧ resolveAuthor (authorsSys "1.0:Alice:") authorsConfig "1.0"
    = ("Developer", "dev@example.com").
Proof. split; reflexivity. Qed.

(** C8 (amended): a turn of the loop either creates no commit or adds
    exactly one, and the author of that commit is the name and address of
    the first line of the authors file that has at least three fields and
    the folder's version as the first (blank lines and [#] lines aside),
    provided neither of the two is empty; when no authors file is
    configured, it cannot be read, no line matches, or the matching line
    leaves the name or the address empty, the author is [config.Author]
    with [config.Email]. *)
Theorem commitFolder_author (sys : Sys) (refuses : CommitOracle) (config : Config)
    (folder : FolderInfo) (target : node) (repo : Repository) :
  let repo' := (commitFolder sys refuses config folder target repo).2.2 in
  commitsOf repo' = commitsOf repo
  ∨ ∃ c, commitsOf repo' = commitsOf repo ++ [c]
         ∧ (sig_Name (CommitAuthor c), sig_Email (CommitAuthor c))
           = mappedAuthor sys config (Version folder).
Proof.
  intros repo'. subst repo'. unfold commitFolder.
  destruct (if Append config then _ else _) as [cleared|]; [|by left].
  destruct (copyFilesAndTrack _ _ _ _) as [[e|] copied]; [by left|].
  destruct (cs_count copied =? 0)%nat; [by left|].
  rewrite resolveAuthor_mappedAuthor.
  destruct (mappedAuthor sys config (Version folder)) as [authorName authorEmail].
  set (staged := foldl _ repo _).
  assert (commitsOf staged = commitsOf repo) as Hstaged.
  { unfold commitsOf, staged. by rewrite commitsOf_worktree_Add. }
  destruct (refuses staged _); [left; exact Hstaged|].
  right. cbn [snd].
  destruct (commitsOf_worktree_Commit
              (commitMessage sys config folder (cs_count copied) authorName)
              {| sig_Name := authorName; sig_Email := authorEmail;
                 sig_When := CreationTime folder |} staged) as (c & Hc & _ & Hauthor).
  exists c. rewrite Hc, Hstaged, Hauthor. done.
Qed.

(** ** The existing-version index *)

(** What the index holds: the tokens of the messages of the commits that
    hash references point at. *)
Lemma existingVersionsOf_spec (repo : Repository) (version : string) :
  version ∈ existingVersionsOf repo ↔
  ∃ name h c, HashReference name h ∈ references repo
              ∧ CommitObject repo h = Some c
              ∧ versionOfMessage (Message c) = Some version.
Proof.
  unfold existingVersionsOf.
  assert (∀ refs acc,
            version ∈ foldl (indexReference repo) acc refs ↔
            version ∈ acc ∨
            ∃ name h c, HashReference name h ∈ refs
                        ∧ CommitObject repo h = Some c
                        ∧ versionOfMessage (Message c) = Some version) as Hfold.
  { induction refs as [|ref refs IH]; intros acc; simpl.
    - split; [by left|]. intros [?|(? & ? & ? & Hin & _)]; [done|]. by apply elem_of_nil in Hin.
    - rewrite IH. split.
      + intros [Hacc|(name & h & c & Hin & Hc & Hv)].
        * destruct ref as [name h|name tgt]; simpl in Hacc; [|by left].
          destruct (CommitObject repo h) as [c|] eqn:Hc; [|by left].
          destruct (versionOfMessage (Message c)) as [v|] eqn:Hv; [|by left].
          apply elem_of_union in Hacc as [->%elem_of_singleton|Hacc]; [|by left].
          right. exists name, h, c. split; [left|done].
        * right. exists name, h, c. split; [by right|done].
      + intros [Hacc|(name & h & c & Hin & Hc & Hv)].
        * left. destruct ref as [name h|name tgt]; simpl; [|done].
          destruct (CommitObject repo h) as [c|]; [|done].
          destruct (versionOfMessage (Message c)); [|done].
          apply elem_of_union. by right.
        * apply elem_of_cons in Hin as [<-|Hin].
          -- left. simpl. rewrite Hc, Hv. apply elem_of_union. left. by apply elem_of_singleton.
          -- right. by exists name, h, c. }
  rewrite Hfold. split; [|by right].
  intros [Hempty|H]; [|done]. by apply elem_of_empty in Hempty.
Qed.

(** The discovery of the three snapshots gives the folders the runs below
    are made over. *)
Lemma FindVersionedFolders_demo :
  FindVersionedFolders demoSys (demoConfig true) = inr demoFolders.
Proof. reflexivity. Qed.

(** C4, on the code: after the first run in append mode, the branch points
    at the commit for 1.2, whose parent is the commit for 1.0.  The history
    carries both tokens, the index built from it only the one of the commit
    the branch points at. *)
Lemma existingVersions_misses_history :
  (Head (repoOf afterFirstAppend) ≫= λ h,
     Some (Message <$> historyFrom 2 (repoOf afterFirstAppend) h))
  = Some [ "Version 1.2: app_1.2 (created: 2023-11-14 22:13:20)";
           "Version 1.0: app_1.0 (created: 2023-11-14 22:13:20)" ]
  ∧ versionsInHistory (repoOf afterFirstAppend) = {[ "1.0"; "1.2" ]}
  ∧ existingVersionsOf (repoOf afterFirstAppend) = {[ "1.2" ]}.
Proof. split; [|split]; reflexivity. Qed.

(** C1, on the code: the repository is made from the first snapshot, then
    migrated twice in append mode over the same three folders.  Both runs
    succeed; the first adds the commit for 1.2 and skips the hotfix, whose
    token the index holds; the second no longer finds 1.0 in the index,
    copies the file of the hotfix and commits it. *)
Lemma second_append_run_commits_again :
  (MigrateToGit demoSys neverRefuses (demoConfig true) demoFolders afterFirstSnapshot).1 = None
  ∧ (MigrateToGit demoSys neverRefuses (demoConfig true) demoFolders afterFirstAppend).1 = None
  ∧ map Message (commitsOf (repoOf afterFirstAppend))
    = [ "Version 1.0: app_1.0 (created: 2023-11-14 22:13:20)";
        "Version 1.2: app_1.2 (created: 2023-11-14 22:13:20)" ]
  ∧ map Message (commitsOf (repoOf afterSecondAppend))
    = [ "Version 1.0: app_1.0 (created: 2023-11-14 22:13:20)";
        "Version 1.2: app_1.2 (created: 2023-11-14 22:13:20)";
        "Version 1.0: app_1.0_hotfix (created: 2023-11-14 22:13:20)" ].
Proof. repeat split; reflexivity. Qed.

(** C3, on the code: the repository holds the commits for 1.0 and 1.2 (the
    first made by a plain run over [app_1.0], the second by a run in append
    mode) and is migrated in append mode over the hotfix alone.  When the
    hotfix is reached a commit message of the repository carries its token,
    1.0; the index, built from the commits the references point at, does
    not hold it, and the hotfix is committed: the token 1.0 is committed a
    second time. *)
Lemma append_recommits_version_in_history :
  versionsOfCommits (repoOf afterFirstAppend) = ["1.0"; "1.2"]
  ∧ Version folder_1_0_hotfix = "1.0"
  ∧ existingVersionsOf (repoOf afterFirstAppend) = {[ "1.2" ]}
  ∧ (MigrateToGit demoSys neverRefuses (demoConfig true) [folder_1_0_hotfix]
       afterFirstAppend).1 = None
  ∧ map Message (commitsOf (repoOf (migrate true [folder_1_0_hotfix] afterFirstAppend)))
    = [ "Version 1.0: app_1.0 (created: 2023-11-14 22:13:20)";
        "Version 1.2: app_1.2 (created: 2023-11-14 22:13:20)";
        "Version 1.0: app_1.0_hotfix (created: 2023-11-14 22:13:20)" ].
Proof. repeat split; reflexivity. Qed.

(** The index is filled once, before the loop: a commit made earlier in the
    same run is not in it either.  The repository is made from the last
    snapshot and migrated in append mode; when the hotfix is reached, the
    commit for [app_1.0], made in the same run, carries the token 1.0, and
    the hotfix is committed all the same. *)
Lemma duplicate_token_in_one_run :
  versionsOfCommits (repoOf (migrate true [folder_1_0] afterLastSnapshot))
  = ["1.2"; "1.0"]
  ∧ versionsOfCommits
      (repoOf (migrate true [folder_1_0; folder_1_0_hotfix] afterLastSnapshot))
    = ["1.2"; "1.0"; "1.0"].
Proof. split; reflexivity. Qed.

Lemma processFolder_indexed (sys : Sys) (refuses : CommitOracle) (config : Config)
    (existingVersions : gset string) (folder : FolderInfo) (target : node)
    (repo : Repository) :
  Append config = true →
  Version folder ∈ existingVersions →
  processFolder sys refuses config existingVersions folder target repo
  = (None, (target, repo)).
Proof.
  intros Happend Hindexed. unfold processFolder.
  rewrite Happend. cbn [andb].
  by rewrite bool_decide_eq_true_2.
Qed.

Lemma processFolders_filter (sys : Sys) (refuses : CommitOracle) (config : Config)
    (existingVersions : gset string) (folders : list FolderInfo) :
  Append config = true →
  ∀ target repo,
    processFolders sys refuses config existingVersions folders target repo
    = processFolders sys refuses config existingVersions
        (filter (λ folder, Version folder ∉ existingVersions) folders) target repo.
Proof.
  intros Happend. induction folders as [|folder folders IH]; intros target repo; [done|].
  destruct (decide (Version folder ∈ existingVersions)) as [Hin|Hnotin].
  - rewrite filter_cons_False by (intros Hnot; by apply Hnot).
    cbn [processFolders]. rewrite processFolder_indexed by done. apply IH.
  - rewrite filter_cons_True by done. cbn [processFolders].
    destruct (processFolder sys refuses config existingVersions folder target repo)
      as [[e|] [target' repo']]; [done|apply IH].
Qed.

(** X30: in append mode, a run does exactly what it would do without the
    folders whose version is in the existing-version index, as that index
    is built when the run starts: for such a folder nothing is copied and
    no commit is created. *)
Theorem MigrateToGit_skips_indexed (sys : Sys) (refuses : CommitOracle) (config : Config)
    (folders : list FolderInfo) (w : World) :
  Append config = true →
  MigrateToGit sys refuses config folders w
  = MigrateToGit sys refuses config
      (filter (λ folder, indexedAtStart w folder = false) folders) w.
Proof.
  intros Happend. unfold MigrateToGit.
  destruct (DryRun config); [done|].
  destruct (makeTarget (w_target w)) as [target|]; [|done].
  rewrite Happend. cbn [negb andb w_repo].
  destruct (negb (bool_decide (is_Some (Stat target [".git"])))); [done|].
  unfold indexedAtStart. destruct (w_repo w) as [opened|]; [|done].
  cbn [andb].
  rewrite (processFolders_filter sys refuses config (existingVersionsOf opened)
             folders Happend target opened).
  assert (filter (λ folder, Version folder ∉ existingVersionsOf opened) folders
          = filter (λ folder, bool_decide (Version folder ∈ existingVersionsOf opened)
                              = false) folders) as ->; [|done].
  apply list_filter_iff. intros folder. by rewrite bool_decide_eq_false.
Qed.

Lemma MigrateToGit_skips_indexed_witness :
  MigrateToGit demoSys neverRefuses (demoConfig true) demoFolders afterFirstSnapshot
  = MigrateToGit demoSys neverRefuses (demoConfig true)
      (filter (λ folder, indexedAtStart afterFirstSnapshot folder = false) demoFolders)
      afterFirstSnapshot.
Proof.
  apply (MigrateToGit_skips_indexed demoSys neverRefuses (demoConfig true)
           demoFolders afterFirstSnapshot).
  reflexivity.
Defined.

(** ** Append mode without a repository *)

(** C10: in append mode and outside a dry run, when the target directory
    has no [.git] entry, [MigrateToGit] returns an error; the repository is
    as it was, and so is the target, except that the directory itself is
    made when nothing was there. *)
Theorem MigrateToGit_append_needs_repository (sys : Sys) (refuses : CommitOracle)
    (config : Config) (folders : list FolderInfo) (w : World) :
  Append config = true →
  DryRun config = false →
  (∀ target, w_target w = Some target → Stat target [".git"] = None) →
  let result := MigrateToGit sys refuses config folders w in
  (result.1 = Some ErrAppendNoRepo ∨ result.1 = Some ErrCreateDir)
  ∧ w_repo result.2 = w_repo w
  ∧ (w_target result.2 = w_target w
     ∨ (w_target w = None ∧ w_target result.2 = Some (Dir true []))).
Proof.
  intros Happend Hwet Hnogit result. subst result.
  unfold MigrateToGit. rewrite Hwet, Happend.
  destruct (makeTarget (w_target w)) as [made|] eqn:Hmade.
  2: { cbn [fst snd]. split; [by right|]. split; [done|by left]. }
  assert (Stat made [".git"] = None
          ∧ (Some made = w_target w ∨ (w_target w = None ∧ made = Dir true []))) as [Hstat Hsame].
  { unfold makeTarget in Hmade. destruct (w_target w) as [target|] eqn:Htarget.
    - unfold MkdirAll in Hmade.
      destruct (deref target) as [[| |l entries]|]; simplify_eq.
      split; [by apply Hnogit|by left].
    - simplify_eq. split; [done|by right]. }
  rewrite Hstat. rewrite bool_decide_eq_false_2 by (by intros [? ?]).
  cbn [negb andb fst snd w_repo w_target].
  split; [by left|]. split; [done|].
  destruct Hsame as [<-|[Hnone ->]]; [by left|by right].
Qed.

Lemma MigrateToGit_append_needs_repository_witness :
  let result := MigrateToGit demoSys neverRefuses (demoConfig true) demoFolders nothingThere in
  (result.1 = Some ErrAppendNoRepo ∨ result.1 = Some ErrCreateDir)
  ∧ w_repo result.2 = w_repo nothingThere
  ∧ (w_target result.2 = w_target nothingThere
     ∨ (w_target nothingThere = None ∧ w_target result.2 = Some (Dir true []))).
Proof.
  apply (MigrateToGit_append_needs_repository demoSys neverRefuses (demoConfig true)
           demoFolders nothingThere).
  - reflexivity.
  - reflexivity.
  - intros target Htarget. discriminate Htarget.
Defined.

(** ** The file system *)

Lemma deref_seen (n m : node) : deref n = Some m → is_Some (seenOf m).
Proof.
  induction n as [t d|t|t n IH|l entries _] using node_ind'; simpl; intros Hd;
    simplify_eq; eauto.
Qed.

Lemma lookupEntry_setEntry (k c : string) (x : node) (entries : list (string * node)) :
  lookupEntry k (setEntry c x entries)
  = if String.eqb c k then Some x else lookupEntry k entries.
Proof.
  induction entries as [|[k0 m] rest IH]; simpl.
  - by destruct (String.eqb c k).
  - destruct (String.eqb k0 c) eqn:Hc; simpl.
    + apply String.eqb_eq in Hc as ->. by destruct (String.eqb c k).
    + rewrite IH. destruct (String.eqb k0 k) eqn:Hk; [|done].
      apply String.eqb_eq in Hk as ->. by rewrite String.eqb_sym, Hc.
Qed.

Lemma inDir_Some (f : list (string * node) → option (list (string * node))) (n n' : node) :
  inDir f n = Some n' →
  ∃ l entries entries', deref n = Some (Dir l entries)
                        ∧ f entries = Some entries'
                        ∧ deref n' = Some (Dir l entries').
Proof.
  revert n'. induction n as [t d|t|t n IH|l entries _] using node_ind';
    intros n'; simpl; intros Hin; try done.
  - destruct (inDir f n) as [m|] eqn:Hm; simplify_eq/=.
    destruct (IH m eq_refl) as (l & es & es' & ? & ? & ?). by exists l, es, es'.
  - destruct (f entries) as [entries'|] eqn:Hf; simplify_eq/=.
    by exists l, entries, entries'.
Qed.

Lemma look_nil (root : node) : look root [] = deref root ≫= seenOf.
Proof. done. Qed.

Lemma look_cons (root : node) (c : string) (path : relpath) :
  look root (c :: path)
  = match deref root with
    | Some (Dir _ entries) => lookupEntry c entries ≫= λ child, look child path
    | _ => None
    end.
Proof.
  unfold look. simpl. destruct (deref root) as [[| |l entries]|]; try done.
  by destruct (lookupEntry c entries).
Qed.

Lemma look_not_dir (root : node) (c : string) (path : relpath) :
  (∀ l entries, deref root ≠ Some (Dir l entries)) → look root (c :: path) = None.
Proof.
  intros Hno. rewrite look_cons. destruct (deref root) as [[| |l entries]|]; try done.
  by destruct (Hno l entries).
Qed.

Lemma look_freshDirs (made path : relpath) :
  look (freshDirs made) path = None ∨ look (freshDirs made) path = Some SeenDir.
Proof.
  revert made. induction path as [|c path IH]; intros made.
  - right. by destruct made.
  - rewrite look_cons. destruct made as [|m made]; simpl; [by left|].
    destruct (String.eqb m c); simpl; [apply IH|by left].
Qed.

(** [os.MkdirAll] leaves what was there and adds directories only. *)
Lemma look_MkdirAll (made : relpath) :
  ∀ root root' path,
    MkdirAll made root = Some root' →
    look root' path = look root path
    ∨ (look root path = None ∧ look root' path = Some SeenDir).
Proof.
  induction made as [|c made IH]; intros root root' path Hmk.
  - simpl in Hmk. destruct (deref root) as [[| |]|]; simplify_eq. by left.
  - simpl in Hmk. apply inDir_Some in Hmk as (l & entries & entries' & Hroot & Hf & Hroot').
    destruct path as [|k path].
    { left. by rewrite !look_nil, Hroot, Hroot'. }
    rewrite !look_cons, Hroot, Hroot'.
    destruct (lookupEntry c entries) as [child|] eqn:Hchild.
    + destruct (MkdirAll made child) as [child'|] eqn:Hmk; simplify_eq/=.
      rewrite lookupEntry_setEntry. destruct (String.eqb c k) eqn:Hck; [|by left].
      apply String.eqb_eq in Hck as <-. rewrite Hchild. simpl. by eapply IH.
    + simplify_eq. rewrite lookupEntry_setEntry.
      destruct (String.eqb c k) eqn:Hck; [|by left].
      apply String.eqb_eq in Hck as <-. rewrite Hchild. simpl.
      destruct (look_freshDirs made path) as [-> | ->]; [by left|by right].
Qed.

Lemma overwrite_look (now : Z) (data : FileData) (n n' : node) :
  overwrite now data n = Some n' →
  deref n' = Some (File now data)
  ∧ ∀ l entries, deref n ≠ Some (Dir l entries).
Proof.
  revert n'. induction n as [t d|t|t n IH|l entries _] using node_ind';
    intros n'; simpl; intros Hw; simplify_eq; try done.
  destruct (overwrite now data n) as [m|] eqn:Hm; simplify_eq/=.
  by apply IH.
Qed.

(** Writing a file shows at its path and nowhere else. *)
Lemma look_writeFile (now : Z) (data : FileData) (written : relpath) :
  ∀ root root' path,
    writeFile now data written root = Some root' →
    look root' path
    = if bool_decide (path = written) then Some (SeenFile now data) else look root path.
Proof.
  induction written as [|c written IH]; intros root root' path Hw.
  - simpl in Hw. apply overwrite_look in Hw as [Hnew Hold].
    destruct path as [|k path]; simpl.
    + by rewrite look_nil, Hnew.
    + rewrite (look_not_dir root k path Hold).
      apply look_not_dir. intros l entries. by rewrite Hnew.
  - simpl in Hw. apply inDir_Some in Hw as (l & entries & entries' & Hroot & Hf & Hroot').
    destruct path as [|k path].
    { rewrite bool_decide_eq_false_2 by done. by rewrite !look_nil, Hroot, Hroot'. }
    rewrite !look_cons, Hroot, Hroot'.
    destruct (lookupEntry c entries) as [child|] eqn:Hchild.
    + destruct (writeFile now data written child) as [child'|] eqn:Hwc; simplify_eq/=.
      rewrite lookupEntry_setEntry. destruct (String.eqb c k) eqn:Hck.
      * apply String.eqb_eq in Hck as <-. rewrite Hchild. simpl.
        rewrite (IH child child' path Hwc).
        destruct (decide (path = written)) as [->|Hne].
        -- by rewrite !bool_decide_eq_true_2.
        -- rewrite !bool_decide_eq_false_2; [done|congruence|done].
      * apply String.eqb_neq in Hck.
        rewrite bool_decide_eq_false_2; [done|congruence].
    + destruct written as [|w written]; simplify_eq/=.
      rewrite lookupEntry_setEntry. destruct (String.eqb c k) eqn:Hck.
      * apply String.eqb_eq in Hck as <-. rewrite Hchild. simpl.
        destruct path as [|p path].
        -- by rewrite bool_decide_eq_true_2.
        -- rewrite bool_decide_eq_false_2 by done. by apply look_not_dir.
      * apply String.eqb_neq in Hck.
        rewrite bool_decide_eq_false_2; [done|congruence].
Qed.

(** ** Append mode keeps what is there *)

Lemma Stat_seen (path : relpath) :
  ∀ root m, Stat root path = Some m → is_Some (seenOf m).
Proof.
  induction path as [|c path IH]; intros root m; simpl.
  - apply deref_seen.
  - destruct (deref root) as [[| |l entries]|]; try done.
    destruct (lookupEntry c entries) as [child|]; [apply IH|done].
Qed.

Lemma look_is_Some (root : node) (path : relpath) :
  is_Some (look root path) ↔ is_Some (Stat root path).
Proof.
  unfold look. destruct (Stat root path) as [m|] eqn:Hm; simpl.
  - split; [by eauto|]. intros _. by eapply Stat_seen.
  - split; by intros [? ?].
Qed.

Lemma keeps_refl (t : node) : keeps t t.
Proof. by intros path s. Qed.

Lemma keeps_trans (t1 t2 t3 : node) : keeps t1 t2 → keeps t2 t3 → keeps t1 t3.
Proof. intros H12 H23 path s Hs. by apply H23, H12. Qed.

Lemma MkdirAll_keeps (made : relpath) (root root' : node) :
  MkdirAll made root = Some root' → keeps root root'.
Proof.
  intros Hmk path s Hs.
  destruct (look_MkdirAll made root root' path Hmk) as [->|[Hnone _]]; congruence.
Qed.

Lemma writeFile_keeps (now : Z) (data : FileData) (written : relpath) (root root' : node) :
  look root written = None →
  writeFile now data written root = Some root' →
  keeps root root'.
Proof.
  intros Hfree Hw path s Hs. rewrite (look_writeFile now data written root root' path Hw).
  destruct (decide (path = written)) as [->|Hne]; [congruence|].
  by rewrite bool_decide_eq_false_2.
Qed.

Lemma copyFile_keeps (sys : Sys) (src : node) (dst : relpath) (target : node) :
  look target dst = None → keeps target (copyFile sys src dst target).2.
Proof.
  intros Hfree. unfold copyFile.
  destruct (deref src) as [[t data| |l entries]|]; simpl; try apply keeps_refl.
  all: match goal with |- context [writeFile ?now ?d ?p ?t] =>
         destruct (writeFile now d p t) as [target'|] eqn:Hw end;
       simpl; [by eapply writeFile_keeps|apply keeps_refl].
Qed.

Lemma copyFn_append_keeps (sys : Sys) (rel : relpath) (name : string)
    (info : option node) (err : option fsError) (s : copyState) :
  keeps (cs_target s) (cs_target (copyFn sys true rel name info err s).2).
Proof.
  unfold copyFn. destruct err as [e|]; [apply keeps_refl|].
  destruct info as [info|]; [|apply keeps_refl].
  destruct rel as [|r rel]; [apply keeps_refl|].
  destruct (IsDir info).
  { destruct (isIgnoredDir name); apply keeps_refl. }
  destruct (isIgnoredFile name); [apply keeps_refl|].
  destruct (MkdirAll (parentOf (r :: rel)) (cs_target s)) as [target1|] eqn:Hmk;
    [|apply keeps_refl].
  apply MkdirAll_keeps in Hmk. cbn [andb].
  destruct (bool_decide (is_Some (Stat target1 (r :: rel)))) eqn:Hthere; [exact Hmk|].
  apply bool_decide_eq_false in Hthere.
  assert (look target1 (r :: rel) = None) as Hfree.
  { apply eq_None_not_Some. by rewrite look_is_Some. }
  pose proof (copyFile_keeps sys info (r :: rel) target1 Hfree) as Hcopy.
  destruct (copyFile sys info (r :: rel) target1) as [[e|] target2];
    simpl in *; by eapply keeps_trans.
Qed.

(** A relation between the states of a closure that every call of the
    callback respects is respected by the whole walk. *)
Lemma walk_respects {St Err : Type}
    (fn : relpath → string → option node → option fsError → St → walkResult Err * St)
    (R : St → St → Prop) :
  (∀ s, R s s) →
  (∀ s1 s2 s3, R s1 s2 → R s2 s3 → R s1 s3) →
  (∀ rel name info err s, R s (fn rel name info err s).2) →
  ∀ n rel name s, R s (walk fn rel name n s).2.
Proof.
  intros Hrefl Htrans Hfn.
  induction n as [t d|t|t n _|l entries IH] using node_ind'; intros rel name s;
    try apply Hfn.
  cbn [walk].
  pose proof (Hfn rel name (Some (Dir l entries))
                (if l then None else Some ErrPermission) s) as Hfirst.
  destruct (fn rel name (Some (Dir l entries)) _ s) as [err1 s1]. simpl in Hfirst.
  destruct (negb l || negb (isNil err1)); [exact Hfirst|].
  apply Htrans with s1; [exact Hfirst|]. clear Hfirst.
  revert s1. induction IH as [|[k c] rest Hc _ IHrest]; intros s1; [apply Hrefl|].
  simpl in Hc. pose proof (Hc (rel ++ [k]) k s1) as Hchild.
  destruct (walk fn (rel ++ [k]) k c s1) as [err s']. simpl in Hchild.
  destruct (isNil err).
  - apply Htrans with s'; [exact Hchild|apply IHrest].
  - destruct (negb (IsDir c) || negb (isSkipDir err)); [exact Hchild|].
    apply Htrans with s'; [exact Hchild|apply IHrest].
Qed.

Lemma Walk_respects {St Err : Type}
    (fn : relpath → string → option node → option fsError → St → walkResult Err * St)
    (R : St → St → Prop) :
  (∀ s, R s s) →
  (∀ s1 s2 s3, R s1 s2 → R s2 s3 → R s1 s3) →
  (∀ rel name info err s, R s (fn rel name info err s).2) →
  ∀ root_name root s, R s (Walk fn root_name root s).2.
Proof.
  intros Hrefl Htrans Hfn root_name root s. unfold Walk.
  destruct root as [n|].
  - pose proof (walk_respects fn R Hrefl Htrans Hfn n [] root_name s) as Hw.
    by destruct (walk fn [] root_name n s).
  - pose proof (Hfn [] root_name None (Some ErrNotExist) s) as Hw.
    by destruct (fn [] root_name None (Some ErrNotExist) s).
Qed.

Lemma copyFilesAndTrack_append_keeps (sys : Sys) (src : string) (target : node) :
  keeps target (cs_target (copyFilesAndTrack sys src target true).2).
Proof.
  unfold copyFilesAndTrack.
  exact (Walk_respects (copyFn sys true) (λ s s', keeps (cs_target s) (cs_target s'))
           (λ s, keeps_refl _) (λ s1 s2 s3, keeps_trans _ _ _)
           (copyFn_append_keeps sys) (GoPath.Base src) (sys_lstat sys src)
           {| cs_target := target; cs_count := 0; cs_newFiles := [] |}).
Qed.

Lemma commitFolder_append_keeps (sys : Sys) (refuses : CommitOracle) (config : Config)
    (folder : FolderInfo) (target : node) (repo : Repository) :
  Append config = true →
  keeps target (commitFolder sys refuses config folder target repo).2.1.
Proof.
  intros Happend. unfold commitFolder. rewrite Happend.
  pose proof (copyFilesAndTrack_append_keeps sys (Path folder) target) as Hcopy.
  destruct (copyFilesAndTrack sys (Path folder) target true) as [[e|] copied];
    simpl in *; [exact Hcopy|].
  destruct (cs_count copied =? 0)%nat; [exact Hcopy|].
  destruct (resolveAuthor sys config (Version folder)) as [authorName authorEmail].
  by destruct (refuses _ _).
Qed.

Lemma processFolders_append_keeps (sys : Sys) (refuses : CommitOracle) (config : Config)
    (existingVersions : gset string) (folders : list FolderInfo) :
  Append config = true →
  ∀ target repo,
    keeps target
      (processFolders sys refuses config existingVersions folders target repo).2.1.
Proof.
  intros Happend. induction folders as [|folder folders IH]; intros target repo.
  - apply keeps_refl.
  - cbn [processFolders]. unfold processFolder.
    destruct (Append config && bool_decide (Version folder ∈ existingVersions)).
    + apply IH.
    + pose proof (commitFolder_append_keeps sys refuses config folder target repo Happend)
        as Hstep.
      destruct (commitFolder sys refuses config folder target repo)
        as [[e|] [target' repo']]; simpl in *; [exact Hstep|].
      eapply keeps_trans; [exact Hstep|apply IH].
Qed.

(** C6: in append mode, whatever a run does and however it ends, every
    path of the target working tree that showed a file or a directory
    before the run shows the same after it; for a file that is the same
    content, mode and modification time.  Nothing is deleted and nothing is
    overwritten: the target is never cleared, and a source file whose path
    exists in the target is passed over. *)
Theorem MigrateToGit_append_keeps (sys : Sys) (refuses : CommitOracle) (config : Config)
    (folders : list FolderInfo) (w : World) (target : node) :
  Append config = true →
  w_target w = Some target →
  ∃ target', w_target (MigrateToGit sys refuses config folders w).2 = Some target'
             ∧ ∀ path s, look target path = Some s → look target' path = Some s.
Proof.
  intros Happend Htarget. unfold MigrateToGit.
  destruct (DryRun config).
  { exists target. split; [done|]. apply keeps_refl. }
  rewrite Htarget. unfold makeTarget.
  destruct (MkdirAll [] target) as [made|] eqn:Hmade.
  2: { exists target. split; [done|]. apply keeps_refl. }
  assert (made = target) as ->.
  { simpl in Hmade. by destruct (deref target) as [[| |]|]; simplify_eq. }
  rewrite Happend. cbn [negb andb].
  destruct (bool_decide (is_Some (Stat target [".git"]))); cbn [negb andb].
  2: { exists target. split; [done|]. apply keeps_refl. }
  destruct (w_repo w) as [repo|]; cbn [w_repo].
  2: { exists target. split; [done|]. apply keeps_refl. }
  pose proof (processFolders_append_keeps sys refuses config (existingVersionsOf repo)
                folders Happend target repo) as Hrun.
  destruct (processFolders sys refuses config (existingVersionsOf repo) folders target repo)
    as [err [target' repo']].
  exists target'. split; [done|exact Hrun].
Qed.

Lemma MigrateToGit_append_keeps_witness :
  ∃ target', w_target (MigrateToGit demoSys neverRefuses (demoConfig true)
                         demoFolders keptWorld).2 = Some target'
             ∧ ∀ path s, look keptTarget path = Some s → look target' path = Some s.
Proof.
  apply (MigrateToGit_append_keeps demoSys neverRefuses (demoConfig true)
           demoFolders keptWorld keptTarget); reflexivity.
Defined.

(** ** Clearing the working tree *)







Lemma clearDirectory_unguarded (sys : Sys) (dir : string) (n : node) :
  isSystemDir (GoPath.Base dir) = false →
  hiddenInHome sys dir = false →
  clearDirectory sys dir n
  = match n with
    | Dir true entries => Some (Dir true (clearEntries sys dir entries))
    | Symlink t (Some n') => (λ m, Symlink t (Some m)) <$> clearDirectory sys dir n'
    | _ => None
    end.
Proof. intros Hsys Hhome. destruct n; simpl; by rewrite Hsys, Hhome. Qed.

Lemma clearDirectory_guarded (sys : Sys) (dir : string) (n : node) :
  isSystemDir (GoPath.Base dir) = true ∨ hiddenInHome sys dir = true →
  clearDirectory sys dir n = Some n.
Proof.
  intros Hguard. destruct n; simpl;
    destruct (isSystemDir (GoPath.Base dir)); try done;
    destruct Hguard as [?| ->]; done.
Qed.





(** ** Copying a folder *)









(** ** The materialized working tree *)

Lemma statFile_look (root : node) (path : relpath) (data : FileData) :
  statFile root path = Some data ↔ ∃ t, look root path = Some (SeenFile t data).
Proof.
  unfold statFile, look. destruct (Stat root path) as [[t d| |]|]; simpl.
  - split; [intros [= ->]; by exists t|]. by intros [t' [= _ ->]].
  - split; [done|]. by intros [? ?].
  - split; [done|]. by intros [? ?].
  - split; [done|]. by intros [? ?].
Qed.





(** * Further properties *)

(** ** Version discovery *)

(** The loop over the matches appends the entry of every match that is
    taken, in the order of the matches. *)
Lemma scanMatch_fold (sys : Sys) (re : string → string) (matches : list string) :
  ∀ folders,
    foldl (scanMatch sys re) folders matches
    = folders ++ (folderOf sys re <$> filter (λ path, isVersioned sys re path = true) matches).
Proof.
  induction matches as [|path matches IH]; intros folders; simpl.
  - by rewrite app_nil_r.
  - rewrite IH. unfold scanMatch.
    destruct (isVersioned sys re path) eqn:Hv'; pose proof Hv' as Hv; unfold isVersioned in Hv.
    + rewrite filter_cons_True by done.
      destruct (os_Stat sys path) as [info|]; [|done].
      apply andb_prop in Hv as [-> Hver]. unfold nonEmpty in Hver.
      apply negb_true_iff in Hver as ->. simpl. by rewrite <- app_assoc.
    + rewrite filter_cons_False by congruence.
      destruct (os_Stat sys path) as [info|]; [|done].
      destruct (IsDir info); [|done]. unfold nonEmpty in Hv.
      apply negb_false_iff in Hv. simpl in Hv. by rewrite Hv.
Qed.

(** X1: what discovery returns.  On success the list is not empty and is,
    up to its order, the list of the entries for the matches of the glob
    pattern that resolve to a directory and in whose name the expression
    finds a version.  The three errors are told apart: the expression does
    not compile; the expression compiles and the pattern is malformed; both
    are fine and no match is taken. *)
Theorem FindVersionedFolders_found (sys : Sys) (config : Config) :
  let searchPattern := GoPath.Join2 (SourceDir config) (Pattern config) in
  match FindVersionedFolders sys config with
  | inr folders =>
      folders ≠ []
      ∧ ∃ re matches,
          sys_regexp sys (ExtractPattern config) = Some re
          ∧ sys_glob sys searchPattern = Some matches
          ∧ folders ≡ₚ folderOf sys re <$> filter (λ path, isVersioned sys re path = true) matches
  | inl ErrRegexp => sys_regexp sys (ExtractPattern config) = None
  | inl ErrGlob =>
      is_Some (sys_regexp sys (ExtractPattern config)) ∧ sys_glob sys searchPattern = None
  | inl ErrNoFolders =>
      ∃ re matches,
        sys_regexp sys (ExtractPattern config) = Some re
        ∧ sys_glob sys searchPattern = Some matches
        ∧ Forall (λ path, isVersioned sys re path = false) matches
  | inl _ => False
  end.
Proof.
  intros searchPattern. unfold FindVersionedFolders, scanFolders. fold searchPattern.
  destruct (sys_regexp sys (ExtractPattern config)) as [re|]; [|done].
  destruct (sys_glob sys searchPattern) as [matches|]; [|by eauto].
  rewrite scanMatch_fold. cbn [app].
  set (found := folderOf sys re <$> _).
  pose proof (sort_Slice_Permutation lessByCreationTime found) as Hperm.
  destruct (sort_Slice lessByCreationTime found) as [|f sorted] eqn:Hsort; simpl.
  - exists re, matches. split; [done|]. split; [done|].
    apply Permutation_nil_l in Hperm. subst found.
    symmetry in Hperm. apply fmap_nil_inv in Hperm.
    apply Forall_forall. intros path Hin.
    destruct (isVersioned sys re path) eqn:Hv; [|done].
    assert (path ∈ filter (λ path, isVersioned sys re path = true) matches) as Hf
      by (by apply list_elem_of_filter).
    rewrite Hperm in Hf. by apply elem_of_nil in Hf.
  - split; [done|]. by exists re, matches.
Qed.

(** Along the list discovery returns, the creation times never decrease. *)
Lemma FindVersionedFolders_times (sys : Sys) (config : Config) (folders : list FolderInfo) :
  FindVersionedFolders sys config = inr folders →
  Sorted Z.le (CreationTime <$> folders).
Proof.
  unfold FindVersionedFolders.
  destruct (scanFolders sys config) as [e|found]; [done|].
  pose proof (sort_Slice_Sorted lessByCreationTime lessByCreationTime_asym found) as Hs.
  destruct (length _ =? 0)%nat; [done|]. intros [= <-].
  induction Hs as [|x l Hs IH Hhd]; cbn [fmap list_fmap]; [constructor|].
  constructor; [exact IH|].
  destruct Hhd as [|y l Hxy]; constructor. unfold lessByCreationTime in Hxy. lia.
Qed.

(** ** The timestamp heuristic, again *)

(** X2: the time the heuristic returns is the current time when no file is
    counted, and otherwise the modification time of one of the counted
    files: the heuristic never makes up a time between or beside those of
    the files. *)
Theorem getFolderCreationTime_member (sys : Sys) (folderPath : string) (folder : option node) :
  let result := getFolderCreationTime sys folderPath folder in
  (countedFiles folderPath folder = [] ∧ result = sys_now sys)
  ∨ (∃ file, file ∈ countedFiles folderPath folder ∧ result = file.2).
Proof.
  intros result. subst result. unfold getFolderCreationTime.
  destruct (Walk_timesFn sys folderPath folder) as (s & -> & Hs). rewrite Hs.
  unfold samples.
  destruct (countedFiles folderPath folder) as [|file files]; [by left|]. right.
  set (times := (file :: files) ≫= sample sys).
  assert (0 < length times)%nat as Hlen.
  { subst times. cbn [mbind list_bind]. rewrite length_app. unfold sample at 1.
    destruct (isKeyFile sys file.1); simpl; lia. }
  assert ((length times =? 0)%nat = false) as -> by (apply Nat.eqb_neq; lia).
  simpl.
  pose proof (sort_Slice_Permutation Zless times) as Hperm.
  set (sorted := sort_Slice Zless times) in *.
  assert (nth (length sorted / 2) sorted 0 ∈ times) as Hin.
  { rewrite <- Hperm. apply list_elem_of_In, nth_In.
    rewrite (Permutation_length Hperm). apply Nat.div_lt; lia. }
  apply list_elem_of_bind in Hin as (f & Hf & Hfin).
  exists f. split; [done|]. unfold sample in Hf.
  destruct (isKeyFile sys f.1);
    repeat (apply elem_of_cons in Hf as [Hf|Hf]; [exact Hf|]); by apply elem_of_nil in Hf.
Qed.

(** ** Message templates *)

Lemma HasPrefix_cons (c d : ascii) (s prefix : string) :
  HasPrefix (String c s) (String d prefix) = Ascii.eqb d c && HasPrefix s prefix.
Proof. done. Qed.

Lemma replaceFrom_cons (old new : string) (c : ascii) (s : string) :
  replaceFrom old new 0 (String c s)
  = if HasPrefix (String c s) old
    then new +:+ replaceFrom old new (String.length old - 1) s
    else String c (replaceFrom old new 0 s).
Proof. done. Qed.

Lemma replaceFrom_free (old' new text rest : string) :
  freeOf brace text = true →
  replaceFrom (String brace old') new 0 (text +:+ rest)
  = text +:+ replaceFrom (String brace old') new 0 rest.
Proof.
  induction text as [|c text IH]; [done|].
  intros Hfree. simpl in Hfree. apply andb_prop in Hfree as [Hc Htext].
  apply negb_true_iff in Hc.
  change (String c text +:+ rest) with (String c (text +:+ rest)).
  rewrite replaceFrom_cons, HasPrefix_cons, Ascii.eqb_sym, Hc. cbn [andb].
  by rewrite IH.
Qed.

Lemma replaceFrom_skip (old new passed rest : string) :
  replaceFrom old new (String.length passed) (passed +:+ rest) = replaceFrom old new 0 rest.
Proof.
  induction passed as [|c passed IH]; [by destruct rest|].
  change (String c passed +:+ rest) with (String c (passed +:+ rest)). exact IH.
Qed.

Lemma replaceFrom_hit (c : ascii) (old' new rest : string) :
  replaceFrom (String c old') new 0 (String c old' +:+ rest)
  = new +:+ replaceFrom (String c old') new 0 rest.
Proof.
  change (String c old' +:+ rest) with (String c (old' +:+ rest)).
  rewrite replaceFrom_cons.
  change (String c (old' +:+ rest)) with (String c old' +:+ rest).
  rewrite HasPrefix_app. f_equal.
  replace (String.length (String c old') - 1)%nat with (String.length old') by (simpl; lia).
  apply replaceFrom_skip.
Qed.

Lemma placeholderText_brace (p : Placeholder) :
  ∃ name, placeholderText p = String brace name ∧ freeOf brace name = true.
Proof. destruct p; by eexists. Qed.

Lemma replaceFrom_miss (p q : Placeholder) (new rest : string) :
  samePlaceholder p q = false →
  replaceFrom (placeholderText q) new 0 (placeholderText p +:+ rest)
  = placeholderText p +:+ replaceFrom (placeholderText q) new 0 rest.
Proof.
  intros Hpq.
  destruct (placeholderText_brace q) as (qname & Hq & _).
  destruct (placeholderText_brace p) as (pname & Hp & Hfree).
  assert (HasPrefix (placeholderText p +:+ rest) (placeholderText q) = false) as Hmiss
    by (by destruct p, q).
  rewrite Hp in *. rewrite Hq in *.
  change (String brace pname +:+ rest) with (String brace (pname +:+ rest)) in *.
  rewrite replaceFrom_cons, Hmiss.
  change (String brace pname +:+ replaceFrom (String brace qname) new 0 rest)
    with (String brace (pname +:+ replaceFrom (String brace qname) new 0 rest)).
  f_equal. by apply replaceFrom_free.
Qed.

(** One [strings.ReplaceAll] of the chain fills in one placeholder, as long
    as the text around the placeholders, the values filled in before
    included, has no opening brace. *)
Lemma ReplaceAll_fillIn (filled : Placeholder → bool) (value : Placeholder → string)
    (q : Placeholder) (pieces : list Piece) :
  Forall (λ piece, plainPiece piece = true) pieces →
  (∀ p, filled p = true → freeOf brace (value p) = true) →
  filled q = false →
  ReplaceAll (fillIn filled value pieces) (placeholderText q) (value q)
  = fillIn (λ p, filled p || samePlaceholder p q) value pieces.
Proof.
  intros Hplain Hfilled Hq. unfold ReplaceAll.
  assert (String.eqb (placeholderText q) EmptyString = false) as -> by (by destruct q).
  destruct (placeholderText_brace q) as (qname & Hqname & _).
  induction Hplain as [|piece pieces Hpiece _ IH]; [done|].
  cbn [fillIn foldr]. fold (fillIn filled value pieces).
  fold (fillIn (λ p, filled p || samePlaceholder p q) value pieces).
  destruct piece as [text|p].
  - rewrite Hqname, replaceFrom_free by done. by rewrite <- Hqname, IH.
  - destruct (filled p) eqn:Hp; cbn [orb].
    { rewrite Hqname, replaceFrom_free by (by apply Hfilled). by rewrite <- Hqname, IH. }
    destruct (samePlaceholder p q) eqn:Hpq.
    + assert (p = q) as -> by (by destruct p, q).
      rewrite Hqname at 1 2. rewrite replaceFrom_hit. by rewrite <- Hqname, IH.
    + rewrite replaceFrom_miss by done. by rewrite IH.
Qed.

Lemma pretty_N_go_free (x : N) :
  ∀ s, freeOf brace s = true → freeOf brace (pretty_N_go x s) = true.
Proof.
  induction (N.lt_wf_0 x) as [x _ IH]. intros s Hs.
  destruct (decide (0 < x)%N) as [Hpos|Hzero].
  - rewrite pretty_N_go_step by done. apply IH; [by apply N.div_lt|].
    simpl. rewrite Hs. unfold pretty_N_char. by repeat case_match.
  - assert (x = 0%N) as -> by lia. by rewrite pretty_N_go_0.
Qed.

Lemma pretty_nat_free (n : nat) : freeOf brace (pretty n) = true.
Proof.
  unfold pretty, pretty_nat, pretty, pretty_N.
  destruct (decide (N.of_nat n = 0%N)); [done|]. by apply pretty_N_go_free.
Qed.

Lemma fillIn_ext (filled filled' : Placeholder → bool) (value : Placeholder → string)
    (pieces : list Piece) :
  (∀ p, filled p = filled' p) → fillIn filled value pieces = fillIn filled' value pieces.
Proof.
  intros Hsame. induction pieces as [|piece pieces IH]; [done|].
  cbn [fillIn foldr]. fold (fillIn filled value pieces) (fillIn filled' value pieces).
  rewrite IH. destruct piece as [text|p]; [done|by rewrite Hsame].
Qed.

Lemma fillIn_none (value value' : Placeholder → string) (pieces : list Piece) :
  fillIn (λ _, false) value pieces = fillIn (λ _, false) value' pieces.
Proof.
  induction pieces as [|piece pieces IH]; [done|].
  cbn [fillIn foldr]. fold (fillIn (λ _, false) value pieces) (fillIn (λ _, false) value' pieces).
  by rewrite IH.
Qed.

(** X3: the message a template gives.  For a template made of literal text
    without opening braces and of placeholders, and a version, a folder
    name and a date without opening braces, the message is the template
    with every placeholder replaced by its value.  (The name of the author
    goes in last and may hold anything.) *)
Theorem commitMessage_template (sys : Sys) (config : Config) (folder : FolderInfo)
    (fileCount : nat) (authorName : string) (pieces : list Piece) :
  MessageTemplate config = templateOf pieces →
  templateOf pieces ≠ EmptyString →
  Forall (λ piece, plainPiece piece = true) pieces →
  freeOf brace (Version folder) = true →
  freeOf brace (GoPath.Base (Path folder)) = true →
  freeOf brace (sys_formatTime sys (CreationTime folder)) = true →
  commitMessage sys config folder fileCount authorName
  = fillIn (λ _, true) (valueOf sys folder fileCount authorName) pieces.
Proof.
  intros Htemplate Hne Hplain Hversion Hfolder Hdate. unfold commitMessage.
  rewrite Htemplate. unfold nonEmpty.
  apply String.eqb_neq in Hne. rewrite Hne. cbn [negb].
  set (value := valueOf sys folder fileCount authorName).
  unfold templateOf. rewrite (fillIn_none _ value).
  change (Version folder) with (value PhVersion).
  change (GoPath.Base (Path folder)) with (value PhFolder).
  change (sys_formatTime sys (CreationTime folder)) with (value PhDate).
  change (pretty fileCount) with (value PhFiles).
  change authorName with (value PhAuthor) at 1.
  change "{version}" with (placeholderText PhVersion).
  change "{folder}" with (placeholderText PhFolder).
  change "{date}" with (placeholderText PhDate).
  change "{files}" with (placeholderText PhFiles).
  change "{author}" with (placeholderText PhAuthor).
  assert (freeOf brace (value PhFiles) = true) as Hfiles by apply pretty_nat_free.
  rewrite !ReplaceAll_fillIn; try done.
  - apply fillIn_ext. by intros [].
  - intros [] Hp; try done.
  - intros [] Hp; try done.
  - intros [] Hp; try done.
  - intros [] Hp; try done.
Qed.

Lemma commitMessage_template_witness :
  commitMessage demoSys releaseConfig folder_1_2 3 "Alice"
  = fillIn (λ _, true) (valueOf demoSys folder_1_2 3 "Alice") releaseTemplate.
Proof.
  apply (commitMessage_template demoSys releaseConfig folder_1_2 3 "Alice" releaseTemplate).
  - reflexivity.
  - discriminate.
  - repeat constructor.
  - reflexivity.
  - reflexivity.
  - reflexivity.
Defined.

(** ** Writing and reading the authors file *)

Lemma Split_free (s : string) (sep : ascii) : freeOf sep s = true → Split s sep = [s].
Proof.
  induction s as [|c s IH]; [done|]. simpl.
  intros [Hc Hs]%andb_prop. apply negb_true_iff in Hc. by rewrite Hc, (IH Hs).
Qed.

Lemma Join_cons (a b : string) (rest : list string) (sep : string) :
  Join (a :: b :: rest) sep = a +:+ sep +:+ Join (b :: rest) sep.
Proof. done. Qed.

Lemma Split_Join (lines : list string) :
  lines ≠ [] →
  Forall (λ line, freeOf newline line = true) lines →
  Split (Join lines (String newline EmptyString)) newline = lines.
Proof.
  intros Hne Hfree. induction Hfree as [|line lines Hline Hlines IH]; [done|].
  destruct lines as [|line2 lines].
  - simpl. by apply Split_free.
  - rewrite Join_cons.
    change (String newline "" +:+ Join (line2 :: lines) (String newline ""))
      with (String newline (Join (line2 :: lines) (String newline ""))).
    rewrite Split_app_sep by done. by rewrite IH.
Qed.

Lemma append_nonEmpty (a b : string) (c : ascii) :
  String.eqb (a +:+ String c b) EmptyString = false.
Proof. by destruct a. Qed.

Lemma authorOfLine_authorsLine (wanted : string) (mapping : string * string * string) :
  readsBack mapping = true →
  authorOfLine wanted (authorsLine mapping)
  = if String.eqb mapping.1.1 wanted then Some (mapping.1.2, mapping.2) else None.
Proof.
  destruct mapping as [[version name] email]. unfold readsBack, authorOfLine.
  intros H. apply andb_prop in H as [H Hhash]. apply andb_prop in H as [H Htrim].
  apply andb_prop in H as [H _]. apply andb_prop in H as [H He].
  apply andb_prop in H as [Hv Hn].
  apply String.eqb_eq in Htrim. rewrite Htrim. apply negb_true_iff in Hhash. rewrite Hhash.
  unfold authorsLine.
  change (version +:+ ":" +:+ name +:+ ":" +:+ email)
    with (version +:+ String colon (name +:+ String colon email)).
  rewrite append_nonEmpty. cbn [orb].
  rewrite Split_app_sep by done. rewrite Split_app_sep by done.
  by rewrite Split_free.
Qed.

Lemma scanAuthors_authorsLine (wanted : string) (mappings : list (string * string * string)) :
  Forall (λ mapping, readsBack mapping = true) mappings →
  scanAuthors wanted (authorsLine <$> mappings)
  = match find (λ mapping, String.eqb mapping.1.1 wanted) mappings with
    | Some (_, name, email) => (name, email)
    | None => (EmptyString, EmptyString)
    end.
Proof.
  induction 1 as [|mapping mappings Hm _ IH]; [done|].
  cbn [fmap list_fmap scanAuthors find]. rewrite authorOfLine_authorsLine by done.
  destruct mapping as [[version name] email]. simpl.
  destruct (String.eqb version wanted); [done|exact IH].
Qed.

(** X4: the authors file read back.  A file written as one line
    [version:name:email] per mapping, each of which reads back, gives for a
    version the name and the address of the first mapping for it, and two
    empty strings, without an error, when there is none. *)
Theorem getAuthorInfo_authorsLine (sys : Sys) (authorsFile wanted : string)
    (mappings : list (string * string * string)) :
  authorsFile ≠ EmptyString →
  sys_readFile sys authorsFile
  = Some (Join (authorsLine <$> mappings) (String newline EmptyString)) →
  Forall (λ mapping, readsBack mapping = true) mappings →
  getAuthorInfo sys wanted authorsFile
  = Some match find (λ mapping, String.eqb mapping.1.1 wanted) mappings with
         | Some (_, name, email) => (name, email)
         | None => (EmptyString, EmptyString)
         end.
Proof.
  intros Hfile Hread Hback. unfold getAuthorInfo.
  apply String.eqb_neq in Hfile. rewrite Hfile, Hread. f_equal.
  destruct mappings as [|mapping mappings]; [done|].
  rewrite Split_Join; [by apply scanAuthors_authorsLine|done|].
  apply Forall_fmap. eapply Forall_impl; [exact Hback|].
  intros [[version name] email] H. unfold readsBack in H. simpl.
  apply andb_prop in H as [H _]. apply andb_prop in H as [H _].
  by apply andb_prop in H as [_ H].
Qed.

Lemma getAuthorInfo_authorsLine_witness :
  getAuthorInfo (authorsSys twoAuthorsFile) "1.2" "authors.txt"
  = Some match find (λ mapping, String.eqb mapping.1.1 "1.2") twoAuthors with
         | Some (_, name, email) => (name, email)
         | None => (EmptyString, EmptyString)
         end.
Proof.
  apply (getAuthorInfo_authorsLine (authorsSys twoAuthorsFile) "authors.txt" "1.2" twoAuthors).
  - discriminate.
  - reflexivity.
  - repeat constructor.
Defined.

(** ** The ignore patterns *)

Lemma Match_literal (pattern : string) :
  isLiteral pattern = true → ∀ name, GoPath.Match pattern name = true ↔ name = pattern.
Proof.
  unfold GoPath.Match, isLiteral.
  induction pattern as [|p pattern IH]; intros Hlit name.
  - simpl. unfold nonEmpty. destruct name; simpl; split; done.
  - simpl in Hlit. apply andb_prop in Hlit as [[Hstar Hs]%andb_prop [Hq Hqs]%andb_prop].
    apply negb_true_iff in Hstar, Hq. cbn [GoPath.matchChunk]. rewrite Hstar, Hq.
    destruct name as [|c name]; [done|].
    rewrite andb_true_iff, IH by (by rewrite Hs, Hqs).
    rewrite Ascii.eqb_eq. split; [by intros [-> ->]|by intros [= -> ->]].
Qed.

Lemma Match_star (pattern : string) (name : string) :
  GoPath.Match (String "*" pattern) name = true ↔
  ∃ stem rest, name = stem +:+ rest ∧ freeOf GoPath.slash stem = true
               ∧ GoPath.Match pattern rest = true.
Proof.
  unfold GoPath.Match. cbn [GoPath.matchChunk Ascii.eqb Bool.eqb].
  induction name as [|c name IH].
  - rewrite orb_false_r. split.
    + intros Hm. by exists EmptyString, EmptyString.
    + intros (stem & rest & Hname & _ & Hm). by destruct stem, rest.
  - rewrite orb_true_iff, andb_true_iff, IH. split.
    + intros [Hm|[Hc (stem & rest & -> & Hfree & Hm)]].
      * by exists EmptyString, (String c name).
      * exists (String c stem), rest. split; [done|]. split; [|done]. simpl. by rewrite Hc, Hfree.
    + intros (stem & rest & Hname & Hfree & Hm). destruct stem as [|d stem].
      * left. change ("" +:+ rest) with rest in Hname. by subst rest.
      * right. change (String d stem +:+ rest) with (String d (stem +:+ rest)) in Hname.
        simplify_eq. simpl in Hfree. apply andb_prop in Hfree as [Hd Hfree].
        split; [done|]. by exists stem, rest.
Qed.

(** X5: the file names the copy passes over are exactly [.DS_Store],
    [.gitignore], [.gitattributes], and the names that end in one of
    [.pyc], [.pyo], [.pyd], [.swp], [.swo], [.log], [.bak]. *)
Theorem isIgnoredFile_names (name : string) :
  isIgnoredFile name = true ↔
  name ∈ ignoredNames
  ∨ ∃ stem ending, ending ∈ ignoredEndings ∧ name = stem +:+ ending
                   ∧ freeOf GoPath.slash stem = true.
Proof.
  assert (∀ ending, isLiteral ending = true →
            GoPath.Match (String "*" ending) name = true ↔
            ∃ stem, name = stem +:+ ending ∧ freeOf GoPath.slash stem = true) as Hending.
  { intros ending Hlit. rewrite Match_star. split.
    - intros (stem & rest & -> & Hfree & Hm). apply (Match_literal _ Hlit) in Hm as ->.
      by exists stem.
    - intros (stem & -> & Hfree). exists stem, ending. split; [done|]. split; [done|].
      by apply Match_literal. }
  unfold isIgnoredFile, ignoreFiles, ignoredNames, ignoredEndings. cbn [existsb].
  rewrite !orb_true_iff.
  rewrite (Match_literal ".DS_Store" eq_refl), (Match_literal ".gitignore" eq_refl),
    (Match_literal ".gitattributes" eq_refl).
  change "*.pyc" with (String "*" ".pyc"). change "*.pyo" with (String "*" ".pyo").
  change "*.pyd" with (String "*" ".pyd"). change "*.swp" with (String "*" ".swp").
  change "*.swo" with (String "*" ".swo"). change "*.log" with (String "*" ".log").
  change "*.bak" with (String "*" ".bak").
  rewrite (Hending ".pyc" eq_refl), (Hending ".pyo" eq_refl), (Hending ".pyd" eq_refl),
    (Hending ".swp" eq_refl), (Hending ".swo" eq_refl), (Hending ".log" eq_refl),
    (Hending ".bak" eq_refl).
  rewrite !elem_of_cons, elem_of_nil.
  split.
  - intros H. repeat destruct H as [H|H]; try (left; tauto);
      try (destruct H as (stem & -> & Hfree); right; eexists stem, _;
           split; [|split; [reflexivity|done]]; rewrite !elem_of_cons; tauto).
    done.
  - intros [H|(stem & ending & Hin & -> & Hfree)].
    + tauto.
    + rewrite !elem_of_cons, elem_of_nil in Hin.
      repeat destruct Hin as [->|Hin]; try done;
        repeat match goal with |- _ ∨ _ => first [left; solve [eauto]|right] end.
Qed.

(** ** More on the clearing *)

Lemma Stat_Symlink (t : Z) (m : node) (path : relpath) :
  Stat (Symlink t (Some m)) path = Stat m path.
Proof. by destruct path. Qed.

(** The clearing leaves an entry with a protected name, and all below it,
    as it was. *)
Lemma clearDirectory_system_entry (sys : Sys) (c : string) (path : relpath) (n : node) :
  isSystemDir c = true →
  ∀ dir n', clearDirectory sys dir n = Some n' → Stat n' (c :: path) = Stat n (c :: path).
Proof.
  intros Hc. induction n as [t d|t|t m IH|l entries _] using node_ind'; intros dir n' Hclear.
  all: destruct (isSystemDir (GoPath.Base dir)) eqn:Hsys;
    [ rewrite clearDirectory_guarded in Hclear by (by left); by simplify_eq |].
  all: destruct (hiddenInHome sys dir) eqn:Hhome;
    [ rewrite clearDirectory_guarded in Hclear by (by right); by simplify_eq |].
  all: rewrite clearDirectory_unguarded in Hclear by done; try done.
  - destruct (clearDirectory sys dir m) as [m'|] eqn:Hm; simpl in Hclear; simplify_eq.
    rewrite !Stat_Symlink. by eapply IH.
  - destruct l; [|done]. simplify_eq. cbn [Stat deref].
    assert (lookupEntry c (clearEntries sys dir entries) = lookupEntry c entries) as ->;
      [|done].
    induction entries as [|[k x] rest IHrest]; [done|].
    cbn [clearEntries].
    destruct (isSystemDir k) eqn:Hk.
    { simpl. destruct (String.eqb k c); [done|exact IHrest]. }
    assert (String.eqb k c = false) as Hkc.
    { apply String.eqb_neq. intros ->. congruence. }
    cbn [lookupEntry]. rewrite Hkc.
    destruct (IsSymlink x); [simpl; by rewrite Hkc|].
    destruct (IsDir x).
    + destruct (clearDirectory sys (GoPath.Join2 dir k) x) as [x'|]; [|simpl; by rewrite Hkc].
      destruct (os_Remove sys (GoPath.Join2 dir k) x'); [exact IHrest|simpl; by rewrite Hkc].
    + destruct (os_Remove sys (GoPath.Join2 dir k) x); [exact IHrest|simpl; by rewrite Hkc].
Qed.

Lemma clearDirectory_Dir (sys : Sys) (dir : string) (entries : list (string * node)) :
  isSystemDir (GoPath.Base dir) = false →
  hiddenInHome sys dir = false →
  clearDirectory sys dir (Dir true entries) = Some (Dir true (clearEntries sys dir entries)).
Proof. intros Hsys Hhome. by rewrite clearDirectory_unguarded. Qed.

Lemma clearDirectory_IsDir (sys : Sys) (dir : string) (n n' : node) :
  IsDir n = true → clearDirectory sys dir n = Some n' → IsDir n' = true.
Proof.
  intros Hdir Hclear. destruct n as [| |l entries]; try done.
  destruct (isSystemDir (GoPath.Base dir)) eqn:Hsys;
    [rewrite clearDirectory_guarded in Hclear by (by left); by simplify_eq|].
  destruct (hiddenInHome sys dir) eqn:Hhome;
    [rewrite clearDirectory_guarded in Hclear by (by right); by simplify_eq|].
  rewrite clearDirectory_unguarded in Hclear by done. destruct l; by simplify_eq.
Qed.

(** X6: [clearDirectory] returns an error exactly when the directory has no
    protected base name, is not hidden in the home directory, and cannot be
    listed.  Failures below it are logged and passed over; none of them
    reaches the caller. *)
Theorem clearDirectory_error (sys : Sys) (n : node) :
  ∀ dir, clearDirectory sys dir n = None ↔
         isSystemDir (GoPath.Base dir) = false ∧ hiddenInHome sys dir = false
         ∧ readable n = false.
Proof.
  induction n as [t d|t|t m IH|l entries _] using node_ind'; intros dir.
  all: destruct (isSystemDir (GoPath.Base dir)) eqn:Hsys;
    [rewrite clearDirectory_guarded by (by left); split; [done|by intros [? _]]|].
  all: destruct (hiddenInHome sys dir) eqn:Hhome;
    [rewrite clearDirectory_guarded by (by right); split; [done|by intros (_ & ? & _)]|].
  all: rewrite clearDirectory_unguarded by done; try done.
  - specialize (IH dir). rewrite Hsys, Hhome in IH.
    unfold readable in *. simpl. destruct (clearDirectory sys dir m); simpl.
    + split; [done|]. intros (_ & _ & Hr).
      destruct IH as [_ IH]. by specialize (IH (conj eq_refl (conj eq_refl Hr))).
    + split; [|done]. intros _. split; [done|]. split; [done|].
      destruct IH as [IH _]. by destruct (IH eq_refl) as (_ & _ & ?).
  - destruct l; [|done]. split; [done|]. by intros (_ & _ & ?).
Qed.

Lemma clearEntries_idempotent (sys : Sys) (dir : string) (entries : list (string * node)) :
  Forall (λ e, ∀ dir n', clearDirectory sys dir e.2 = Some n' →
                         clearDirectory sys dir n' = Some n') entries →
  clearEntries sys dir (clearEntries sys dir entries) = clearEntries sys dir entries.
Proof.
  induction 1 as [|[k x] rest Hx _ IH]; [done|]. simpl in Hx.
  cbn [clearEntries]. destruct (isSystemDir k) eqn:Hk.
  { cbn [clearEntries]. by rewrite Hk, IH. }
  destruct (IsSymlink x) eqn:Hlink.
  { cbn [clearEntries]. by rewrite Hk, Hlink, IH. }
  destruct (IsDir x) eqn:Hdir.
  - destruct (clearDirectory sys (GoPath.Join2 dir k) x) as [x'|] eqn:Hclear.
    + destruct (os_Remove sys (GoPath.Join2 dir k) x') eqn:Hrm; [exact IH|].
      cbn [clearEntries]. rewrite Hk.
      pose proof (clearDirectory_IsDir sys _ x x' Hdir Hclear) as Hdir'.
      assert (IsSymlink x' = false) as -> by (by destruct x').
      by rewrite Hdir', (Hx _ _ Hclear), Hrm, IH.
    + cbn [clearEntries]. by rewrite Hk, Hlink, Hdir, Hclear, IH.
  - destruct (os_Remove sys (GoPath.Join2 dir k) x) eqn:Hrm; [exact IH|].
    cbn [clearEntries]. by rewrite Hk, Hlink, Hdir, Hrm, IH.
Qed.

(** X7: clearing is idempotent: clearing what a clearing left changes
    nothing. *)
Theorem clearDirectory_idempotent (sys : Sys) (dir : string) (n n' : node) :
  clearDirectory sys dir n = Some n' → clearDirectory sys dir n' = Some n'.
Proof.
  revert dir n'. induction n as [t d|t|t m IH|l entries IH] using node_ind'; intros dir n' Hclear.
  all: destruct (isSystemDir (GoPath.Base dir)) eqn:Hsys;
    [rewrite clearDirectory_guarded in Hclear by (by left); simplify_eq;
     apply clearDirectory_guarded; by left|].
  all: destruct (hiddenInHome sys dir) eqn:Hhome;
    [rewrite clearDirectory_guarded in Hclear by (by right); simplify_eq;
     apply clearDirectory_guarded; by right|].
  all: rewrite clearDirectory_unguarded in Hclear by done; try done.
  - destruct (clearDirectory sys dir m) as [m'|] eqn:Hm; simpl in Hclear; simplify_eq.
    rewrite clearDirectory_unguarded by done. by rewrite (IH dir m' Hm).
  - destruct l; [|done]. simplify_eq.
    rewrite clearDirectory_Dir by done. by rewrite clearEntries_idempotent.
Qed.

Lemma clearDirectory_idempotent_witness :
  clearDirectory demoSys "/work/repo" staleTarget = Some staleTarget.
Proof.
  apply (clearDirectory_idempotent demoSys "/work/repo" usedTarget staleTarget).
  reflexivity.
Defined.

(** X8: what a clearing leaves at the top of a directory it does clear:
    the entries with a protected name and the symbolic links are all still
    there, untouched and in their order; everything else that is left is a
    directory that could not be cleared, or an entry [os.Remove] failed on:
    a directory that is not empty after its own clearing, or a file or an
    empty directory that the system does not let go.  A regular file with
    an unprotected name is left in the last case only. *)
Theorem clearDirectory_protected (sys : Sys) (dir : string) (entries : list (string * node)) :
  isSystemDir (GoPath.Base dir) = false →
  hiddenInHome sys dir = false →
  ∃ entries',
    clearDirectory sys dir (Dir true entries) = Some (Dir true entries')
    ∧ filter (λ entry, protectedEntry entry = true) entries'
      = filter (λ entry, protectedEntry entry = true) entries
    ∧ Forall (λ entry,
                protectedEntry entry = true
                ∨ (IsDir entry.2 = true
                   ∧ clearDirectory sys (GoPath.Join2 dir entry.1) entry.2 = None)
                ∨ (os_Remove sys (GoPath.Join2 dir entry.1) entry.2 = false
                   ∧ (IsDir entry.2 = false →
                      sys_remove sys (GoPath.Join2 dir entry.1) entry.2 = false)))
             entries'.
Proof.
  intros Hsys Hhome. exists (clearEntries sys dir entries).
  split; [by apply clearDirectory_Dir|].
  induction entries as [|[k x] rest [IHkeep IHrest]]; [done|].
  cbn [clearEntries].
  destruct (isSystemDir k) eqn:Hk.
  { rewrite !filter_cons_True by (unfold protectedEntry; simpl; by rewrite ?Hk).
    split; [by rewrite IHkeep|]. constructor; [|done]. left. unfold protectedEntry. simpl.
    by rewrite Hk. }
  destruct (IsSymlink x) eqn:Hlink.
  { rewrite !filter_cons_True by (unfold protectedEntry; simpl; by rewrite ?Hk, ?Hlink).
    split; [by rewrite IHkeep|]. constructor; [|done]. left. unfold protectedEntry. simpl.
    by rewrite Hk, Hlink. }
  rewrite (filter_cons_False _ (k, x))
    by (unfold protectedEntry; simpl; by rewrite Hk, Hlink).
  destruct (IsDir x) eqn:Hdir.
  - destruct (clearDirectory sys (GoPath.Join2 dir k) x) as [x'|] eqn:Hclear.
    + destruct (os_Remove sys (GoPath.Join2 dir k) x') eqn:Hrm; [done|].
      pose proof (clearDirectory_IsDir sys _ x x' Hdir Hclear) as Hdir'.
      rewrite filter_cons_False.
      2: { unfold protectedEntry. simpl. rewrite Hk. by destruct x'. }
      split; [done|]. constructor; [|done]. right. right. simpl.
      split; [done|]. by rewrite Hdir'.
    + rewrite filter_cons_False
        by (unfold protectedEntry; simpl; by rewrite Hk, Hlink).
      split; [done|]. constructor; [|done]. right. left. simpl. by split.
  - destruct (os_Remove sys (GoPath.Join2 dir k) x) eqn:Hrm; [done|].
    rewrite filter_cons_False
      by (unfold protectedEntry; simpl; by rewrite Hk, Hlink).
    split; [done|]. constructor; [|done]. right. right. simpl.
    split; [done|]. intros _. unfold os_Remove in Hrm. by destruct x.
Qed.

Lemma clearDirectory_protected_witness :
  ∃ entries',
    clearDirectory readOnlySys "/work/repo" usedTarget = Some (Dir true entries')
    ∧ filter (λ entry, protectedEntry entry = true) entries'
      = filter (λ entry, protectedEntry entry = true)
          [ (".git", Dir true []); ("a.txt", plainFile 50 "mine");
            ("docs", Dir true [("notes.txt", plainFile 60 "notes")]);
            ("old", Dir false [("x.txt", File 50 staleFile)]) ]
    ∧ Forall (λ entry,
                protectedEntry entry = true
                ∨ (IsDir entry.2 = true
                   ∧ clearDirectory readOnlySys (GoPath.Join2 "/work/repo" entry.1) entry.2
                     = None)
                ∨ (os_Remove readOnlySys (GoPath.Join2 "/work/repo" entry.1) entry.2 = false
                   ∧ (IsDir entry.2 = false →
                      sys_remove readOnlySys (GoPath.Join2 "/work/repo" entry.1) entry.2
                      = false)))
             entries'.
Proof.
  apply (clearDirectory_protected readOnlySys "/work/repo"); reflexivity.
Defined.

Lemma HasPrefix_refl (s : string) : HasPrefix s s = true.
Proof. induction s as [|c s IH]; simpl; [done|]. by rewrite Ascii.eqb_refl. Qed.

(** X9: the home directory of the user itself is never cleared: its path
    from itself is [.], which the guard for hidden directories takes for a
    hidden one. *)
Theorem clearDirectory_home (sys : Sys) (home : string) (n : node) :
  sys_homeDir sys = Some home → clearDirectory sys home n = Some n.
Proof.
  intros Hhome. apply clearDirectory_guarded. right.
  unfold hiddenInHome, GoPath.Rel. rewrite Hhome, HasPrefix_refl, String.eqb_refl. done.
Qed.

Lemma clearDirectory_home_witness :
  clearDirectory demoSys "/home/user" usedTarget = Some usedTarget.
Proof. apply (clearDirectory_home demoSys "/home/user" usedTarget). reflexivity. Defined.

(** ** Copying one file *)

Lemma statFile_is_Some (root : node) (path : relpath) :
  is_Some (statFile root path) ↔ ∃ t d, look root path = Some (SeenFile t d).
Proof.
  split.
  - intros [d Hd]. apply statFile_look in Hd as [t Ht]. by exists t, d.
  - intros (t & d & Hl). exists d. apply statFile_look. by exists t.
Qed.

Lemma copyFile_written (sys : Sys) (src : node) (dst : relpath) (target target' : node) :
  copyFile sys src dst target = (None, target') →
  ∃ data, openedData src = Some data
          ∧ writeFile (sys_now sys) data dst target = Some target'.
Proof.
  unfold copyFile, openedData.
  destruct (deref src) as [[t data| |l entries]|]; try done.
  - destruct (writeFile _ _ _ _) as [w|] eqn:Hw; [|done]. intros [= <-]. by exists data.
  - by destruct (writeFile _ _ _ _).
  - by destruct (writeFile _ _ _ _).
Qed.

(** X10: a [copyFile] that succeeds, to a destination whose path runs
    through no symbolic link, leaves at the destination a regular file with
    the content and the mode the source resolves to, written now, and
    leaves every other path that runs through no symbolic link as it was.
    (What is seen through a link is not described: a link may lead to the
    file that was written.) *)
Theorem copyFile_copies (sys : Sys) (src : node) (dst : relpath) (target target' : node) :
  meetsLink target dst = false →
  copyFile sys src dst target = (None, target') →
  ∃ data, openedData src = Some data
          ∧ look target' dst = Some (SeenFile (sys_now sys) data)
          ∧ ∀ path, path ≠ dst → meetsLink target path = false →
                    look target' path = look target path.
Proof.
  intros _ (data & Hopen & Hw)%copyFile_written. exists data. split; [done|]. split.
  - rewrite (look_writeFile _ _ _ _ _ dst Hw). by rewrite bool_decide_eq_true_2.
  - intros path Hne _. rewrite (look_writeFile _ _ _ _ _ path Hw).
    by rewrite bool_decide_eq_false_2.
Qed.

Lemma copyFile_copies_witness :
  ∃ data, openedData (plainFile 300 "second") = Some data
          ∧ look (Dir true [("b.txt", plainFile 1700000000 "second")]) ["b.txt"]
            = Some (SeenFile (sys_now demoSys) data)
          ∧ ∀ path, path ≠ ["b.txt"] → meetsLink (Dir true []) path = false →
                    look (Dir true [("b.txt", plainFile 1700000000 "second")]) path
                    = look (Dir true []) path.
Proof.
  apply (copyFile_copies demoSys (plainFile 300 "second") ["b.txt"] (Dir true [])
           (Dir true [("b.txt", plainFile 1700000000 "second")])); reflexivity.
Defined.

(** ** More on copying a folder *)

Lemma stays_refl (t : node) : stays t t.
Proof. intros path. destruct (look t path) as [[t0 d|]|]; eauto. Qed.

Lemma stays_trans (t1 t2 t3 : node) : stays t1 t2 → stays t2 t3 → stays t1 t3.
Proof.
  intros H12 H23 path. specialize (H12 path). specialize (H23 path).
  destruct (look t1 path) as [[t0 d|]|]; [| |done].
  - destruct H12 as (t & d' & H12). by rewrite H12 in H23.
  - by rewrite H12 in H23.
Qed.

Lemma stays_is_Some (before after : node) (path : relpath) :
  stays before after → is_Some (look before path) → is_Some (look after path).
Proof.
  intros Hstays [s Hs]. specialize (Hstays path). rewrite Hs in Hstays.
  destruct s as [t d|]; [destruct Hstays as (t' & d' & ->)|rewrite Hstays]; eauto.
Qed.

Lemma MkdirAll_stays (made : relpath) (root root' : node) :
  MkdirAll made root = Some root' → stays root root'.
Proof.
  intros Hmk path.
  destruct (look_MkdirAll made root root' path Hmk) as [->|[-> _]]; [|done].
  destruct (look root path) as [[t d|]|]; eauto.
Qed.

(** [os.Create] refuses a path that is a directory. *)
Lemma writeFile_not_dir (now : Z) (data : FileData) (written : relpath) :
  ∀ root root',
    writeFile now data written root = Some root' → look root written ≠ Some SeenDir.
Proof.
  induction written as [|c written IH]; intros root root' Hw.
  - simpl in Hw. apply overwrite_look in Hw as [_ Hold]. rewrite look_nil.
    destruct (deref root) as [[t d|t m|l entries]|] eqn:Hd; simpl; try done.
    by destruct (Hold l entries).
  - simpl in Hw. apply inDir_Some in Hw as (l & entries & entries' & Hroot & Hf & _).
    rewrite look_cons, Hroot.
    destruct (lookupEntry c entries) as [child|]; [|done]. simpl.
    destruct (writeFile now data written child) as [child'|] eqn:Hwc; [|done].
    by eapply IH.
Qed.

Lemma writeFile_stays (now : Z) (data : FileData) (written : relpath) (root root' : node) :
  writeFile now data written root = Some root' → stays root root'.
Proof.
  intros Hw path. rewrite (look_writeFile now data written root root' path Hw).
  destruct (decide (path = written)) as [->|Hne].
  - rewrite bool_decide_eq_true_2 by done.
    pose proof (writeFile_not_dir now data written root root' Hw) as Hnot.
    destruct (look root written) as [[t d|]|]; eauto. done.
  - rewrite bool_decide_eq_false_2 by done.
    destruct (look root path) as [[t d|]|]; eauto.
Qed.

Lemma copyFile_stays (sys : Sys) (src : node) (dst : relpath) (target : node) :
  stays target (copyFile sys src dst target).2.
Proof.
  unfold copyFile.
  destruct (deref src) as [[t data| |l entries]|]; simpl; try apply stays_refl.
  all: match goal with |- context [writeFile ?now ?d ?p ?t] =>
         destruct (writeFile now d p t) as [target'|] eqn:Hw end;
       simpl; [by eapply writeFile_stays|apply stays_refl].
Qed.

Lemma copyFn_stays (sys : Sys) (appendMode : bool) (rel : relpath) (name : string)
    (info : option node) (err : option fsError) (s : copyState) :
  stays (cs_target s) (cs_target (copyFn sys appendMode rel name info err s).2).
Proof.
  unfold copyFn. destruct err as [e|]; [apply stays_refl|].
  destruct info as [info|]; [|apply stays_refl].
  destruct rel as [|r rel]; [apply stays_refl|].
  destruct (IsDir info).
  { destruct (isIgnoredDir name); apply stays_refl. }
  destruct (isIgnoredFile name); [apply stays_refl|].
  destruct (MkdirAll (parentOf (r :: rel)) (cs_target s)) as [target1|] eqn:Hmk;
    [|apply stays_refl].
  apply MkdirAll_stays in Hmk.
  destruct (appendMode && bool_decide (is_Some (Stat target1 (r :: rel)))); [exact Hmk|].
  pose proof (copyFile_stays sys info (r :: rel) target1) as Hcopy.
  destruct (copyFile sys info (r :: rel) target1) as [[e|] target2];
    simpl in *; by eapply stays_trans.
Qed.

Theorem copyFilesAndTrack_stays (sys : Sys) (src : string) (target : node)
    (appendMode : bool) :
  stays target (cs_target (copyFilesAndTrack sys src target appendMode).2).
Proof.
  unfold copyFilesAndTrack.
  exact (Walk_respects (copyFn sys appendMode) (λ s s', stays (cs_target s) (cs_target s'))
           (λ s, stays_refl _) (λ s1 s2 s3, stays_trans _ _ _)
           (copyFn_stays sys appendMode) (GoPath.Base src) (sys_lstat sys src)
           {| cs_target := target; cs_count := 0; cs_newFiles := [] |}).
Qed.

Lemma filesStay_refl (t : node) : filesStay t t.
Proof. by intros path. Qed.

Lemma filesStay_trans (t1 t2 t3 : node) :
  filesStay t1 t2 → filesStay t2 t3 → filesStay t1 t3.
Proof. intros H12 H23 path Hp. by apply H23, H12. Qed.

Lemma MkdirAll_filesStay (made : relpath) (root root' : node) :
  MkdirAll made root = Some root' → filesStay root root'.
Proof.
  intros Hmk path (t & d & Hl)%statFile_is_Some. apply statFile_is_Some.
  destruct (look_MkdirAll made root root' path Hmk) as [->|[Hnone _]]; [eauto|congruence].
Qed.

Lemma writeFile_filesStay (now : Z) (data : FileData) (written : relpath) (root root' : node) :
  writeFile now data written root = Some root' → filesStay root root'.
Proof.
  intros Hw path (t & d & Hl)%statFile_is_Some. apply statFile_is_Some.
  rewrite (look_writeFile now data written root root' path Hw).
  destruct (bool_decide (path = written)); eauto.
Qed.

Lemma copyFile_filesStay (sys : Sys) (src : node) (dst : relpath) (target : node) :
  filesStay target (copyFile sys src dst target).2.
Proof.
  unfold copyFile.
  destruct (deref src) as [[t data| |l entries]|]; simpl; try apply filesStay_refl.
  all: match goal with |- context [writeFile ?now ?d ?p ?t] =>
         destruct (writeFile now d p t) as [target'|] eqn:Hw end;
       simpl; [by eapply writeFile_filesStay|apply filesStay_refl].
Qed.

Lemma tracks_refl (s : copyState) : tracks s s.
Proof. split; [apply filesStay_refl|]. split; [done|]. intros file Hin. by left. Qed.

Lemma tracks_trans (s1 s2 s3 : copyState) : tracks s1 s2 → tracks s2 s3 → tracks s1 s3.
Proof.
  intros (Hf12 & Hc12 & Hn12) (Hf23 & Hc23 & Hn23).
  split; [by eapply filesStay_trans|]. split; [by auto|].
  intros file Hin. destruct (Hn23 file Hin) as [Hin2|?]; [|by right].
  destruct (Hn12 file Hin2) as [?|Hfile]; [by left|]. right. by apply Hf23.
Qed.

Lemma copyFn_tracks (sys : Sys) (appendMode : bool) (rel : relpath) (name : string)
    (info : option node) (err : option fsError) (s : copyState) :
  tracks s (copyFn sys appendMode rel name info err s).2.
Proof.
  unfold copyFn. destruct err as [e|]; [apply tracks_refl|].
  destruct info as [info|]; [|apply tracks_refl].
  destruct rel as [|r rel]; [apply tracks_refl|].
  destruct (IsDir info).
  { destruct (isIgnoredDir name); apply tracks_refl. }
  destruct (isIgnoredFile name); [apply tracks_refl|].
  destruct (MkdirAll (parentOf (r :: rel)) (cs_target s)) as [target1|] eqn:Hmk;
    [|apply tracks_refl].
  apply MkdirAll_filesStay in Hmk.
  destruct (appendMode && bool_decide (is_Some (Stat target1 (r :: rel)))).
  { split; [exact Hmk|]. split; [done|]. intros file Hin. by left. }
  pose proof (copyFile_filesStay sys info (r :: rel) target1) as Hstay.
  destruct (copyFile sys info (r :: rel) target1) as [[e|] target2] eqn:Hcopy; simpl in *.
  { split; [by eapply filesStay_trans|]. split; [done|]. intros file Hin. by left. }
  split; [by eapply filesStay_trans|]. split.
  { cbn [cs_count cs_newFiles]. intros ->. rewrite length_app. simpl. lia. }
  cbn [cs_target cs_newFiles].
  intros file [Hin|Hin]%elem_of_app; [by left|]. right.
  apply list_elem_of_singleton in Hin as ->.
  apply copyFile_written in Hcopy as (data & _ & Hw).
  apply statFile_is_Some. exists (sys_now sys), data.
  rewrite (look_writeFile _ _ _ _ _ (r :: rel) Hw). by rewrite bool_decide_eq_true_2.
Qed.

Lemma copyFilesAndTrack_tracks (sys : Sys) (src : string) (target : node) (appendMode : bool) :
  tracks {| cs_target := target; cs_count := 0; cs_newFiles := [] |}
         (copyFilesAndTrack sys src target appendMode).2.
Proof.
  unfold copyFilesAndTrack.
  exact (Walk_respects (copyFn sys appendMode) tracks tracks_refl tracks_trans
           (copyFn_tracks sys appendMode) (GoPath.Base src) (sys_lstat sys src)
           {| cs_target := target; cs_count := 0; cs_newFiles := [] |}).
Qed.

(** X11: the count [copyFilesAndTrack] returns is the length of the list of
    new files it returns, whether the walk failed or not, and [copyFiles]
    returns that count with the same error. *)
Theorem copyFiles_count (sys : Sys) (src : string) (target : node) (appendMode : bool) :
  let '(err, copied) := copyFilesAndTrack sys src target appendMode in
  cs_count copied = length (cs_newFiles copied)
  ∧ copyFiles sys src target appendMode
    = (length (cs_newFiles copied), err, cs_target copied).
Proof.
  pose proof (copyFilesAndTrack_tracks sys src target appendMode) as (_ & Hcount & _).
  unfold copyFiles.
  destruct (copyFilesAndTrack sys src target appendMode) as [err copied]. simpl in *.
  rewrite <- (Hcount eq_refl). done.
Qed.

(** X12: a copy removes nothing, in either mode and also when it fails: a
    path of the target that showed a directory shows a directory after the
    copy, one that showed a regular file shows a regular file, and every
    path in the list of new files is a regular file of the target. *)
Theorem copyFilesAndTrack_kinds (sys : Sys) (src : string) (target : node)
    (appendMode : bool) :
  let copied := (copyFilesAndTrack sys src target appendMode).2 in
  stays target (cs_target copied)
  ∧ Forall (λ file, is_Some (statFile (cs_target copied) file)) (cs_newFiles copied).
Proof.
  intros copied. split; [apply copyFilesAndTrack_stays|].
  pose proof (copyFilesAndTrack_tracks sys src target appendMode) as (_ & _ & Hnew).
  apply Forall_forall. intros file Hin.
  destruct (Hnew file Hin) as [Hnil|?]; [|done]. by apply elem_of_nil in Hnil.
Qed.

Lemma keeps_None (before after : node) (path : relpath) :
  keeps before after → look after path = None → look before path = None.
Proof.
  intros Hkeeps Hafter. destruct (look before path) as [s|] eqn:Hbefore; [|done].
  apply Hkeeps in Hbefore. congruence.
Qed.

Lemma addsFresh_refl (s : copyState) : addsFresh s s.
Proof. split; [apply keeps_refl|]. intros file Hin. by left. Qed.

Lemma addsFresh_trans (s1 s2 s3 : copyState) :
  addsFresh s1 s2 → addsFresh s2 s3 → addsFresh s1 s3.
Proof.
  intros [Hk12 Hn12] [Hk23 Hn23]. split; [by eapply keeps_trans|].
  intros file Hin. destruct (Hn23 file Hin) as [Hin2|Hnone].
  - by apply Hn12.
  - right. by eapply keeps_None.
Qed.

Lemma copyFn_addsFresh (sys : Sys) (rel : relpath) (name : string)
    (info : option node) (err : option fsError) (s : copyState) :
  addsFresh s (copyFn sys true rel name info err s).2.
Proof.
  split; [apply copyFn_append_keeps|].
  unfold copyFn. destruct err as [e|]; [by left|].
  destruct info as [info|]; [|by left].
  destruct rel as [|r rel]; [by left|].
  destruct (IsDir info).
  { destruct (isIgnoredDir name); by left. }
  destruct (isIgnoredFile name); [by left|].
  destruct (MkdirAll (parentOf (r :: rel)) (cs_target s)) as [target1|] eqn:Hmk; [|by left].
  cbn [andb].
  destruct (bool_decide (is_Some (Stat target1 (r :: rel)))) eqn:Hthere; [by left|].
  apply bool_decide_eq_false in Hthere.
  destruct (copyFile sys info (r :: rel) target1) as [[e|] target2]; [by left|].
  cbn [snd cs_newFiles cs_target].
  intros file [Hin|Hin]%elem_of_app; [by left|]. right.
  apply list_elem_of_singleton in Hin as ->.
  apply (keeps_None _ target1); [by eapply MkdirAll_keeps|].
  apply eq_None_not_Some. by rewrite look_is_Some.
Qed.

(** X13: in append mode every path in the list of new files is one where
    the target had nothing before the copy. *)
Theorem copyFilesAndTrack_append_fresh (sys : Sys) (src : string) (target : node) :
  Forall (λ file, Stat target file = None)
         (cs_newFiles (copyFilesAndTrack sys src target true).2).
Proof.
  pose proof (Walk_respects (copyFn sys true) addsFresh addsFresh_refl addsFresh_trans
                (copyFn_addsFresh sys) (GoPath.Base src) (sys_lstat sys src)
                {| cs_target := target; cs_count := 0; cs_newFiles := [] |}) as [_ Hnew].
  apply Forall_forall. intros file Hin.
  destruct (Hnew file Hin) as [Hnil|Hnone]; [by apply elem_of_nil in Hnil|].
  simpl in Hnone. apply eq_None_not_Some. rewrite <- look_is_Some. by rewrite Hnone.
Qed.

(** X14: a source that is no directory.  When nothing is at the source path
    the copy fails with the error of the walk; when a directory is there
    that cannot be listed it fails as well; when a regular file or a
    symbolic link is there (a link to a directory too: the walk does not
    follow it), or an empty directory, the copy succeeds with no file.  In
    all these cases the target is untouched. *)
Theorem copyFilesAndTrack_no_directory (sys : Sys) (src : string) (target : node)
    (appendMode : bool) :
  let untouched := {| cs_target := target; cs_count := 0; cs_newFiles := [] |} in
  match sys_lstat sys src with
  | None => copyFilesAndTrack sys src target appendMode = (Some ErrNotExist, untouched)
  | Some (Dir false _) =>
      copyFilesAndTrack sys src target appendMode = (Some ErrPermission, untouched)
  | Some (Dir true []) => copyFilesAndTrack sys src target appendMode = (None, untouched)
  | Some (Dir true _) => True
  | Some _ => copyFilesAndTrack sys src target appendMode = (None, untouched)
  end.
Proof.
  intros untouched. unfold copyFilesAndTrack.
  destruct (sys_lstat sys src) as [[t d|t m|[] [|entry entries]]|]; done.
Qed.

(** ** A turn of the loop *)

Lemma worktree_Add_references (target : node) (repo : Repository) (files : list relpath) :
  references (foldl (λ repo file, default repo (worktree_Add target file repo)) repo files)
  = references repo.
Proof.
  revert repo. induction files as [|file files IH]; intros repo; simpl; [done|].
  rewrite IH. unfold worktree_Add. by destruct (statFile target file).
Qed.

Lemma resolveReference_references (fuel : nat) (repo1 repo2 : Repository) (name : string) :
  references repo1 = references repo2 →
  resolveReference fuel repo1 name = resolveReference fuel repo2 name.
Proof.
  intros Hrefs. revert name. induction fuel as [|fuel IH]; intros name; simpl;
    unfold lookupReference; rewrite Hrefs; [done|].
  destruct (find _ _) as [[? h|? tgt]|]; [done|apply IH|done].
Qed.

Lemma Head_references (repo1 repo2 : Repository) :
  references repo1 = references repo2 → Head repo1 = Head repo2.
Proof.
  intros Hrefs. unfold Head. rewrite Hrefs. by apply resolveReference_references.
Qed.

Lemma commitsOf_worktree_Commit_eq (msg : string) (author : Signature) (repo : Repository) :
  commitsOf (worktree_Commit msg author repo)
  = commitsOf repo ++ [{| Message := msg; CommitAuthor := author;
                          ParentHashes := headParents repo; Staged := index repo |}].
Proof. unfold commitsOf, worktree_Commit. simpl. by rewrite omap_app. Qed.

(** X15: the commit a turn of the loop makes.  A turn adds no commit or
    exactly one; when it adds one it returns no error, the commit has the
    author, the time and the message of the folder, and its parent is what
    [HEAD] resolved to before the turn (it has none when [HEAD] resolved to
    nothing). *)
Theorem commitFolder_commit (sys : Sys) (refuses : CommitOracle) (config : Config)
    (folder : FolderInfo) (target : node) (repo : Repository) :
  let result := commitFolder sys refuses config folder target repo in
  commitsOf result.2.2 = commitsOf repo
  ∨ ∃ c, commitsOf result.2.2 = commitsOf repo ++ [c]
         ∧ result.1 = None
         ∧ madeFor sys config folder c
         ∧ ParentHashes c = headParents repo.
Proof.
  intros result. subst result. unfold commitFolder, madeFor.
  destruct (if Append config then _ else _) as [cleared|]; [|by left].
  destruct (copyFilesAndTrack _ _ _ _) as [[e|] copied]; [by left|].
  destruct (cs_count copied =? 0)%nat eqn:Hcount; [by left|].
  apply Nat.eqb_neq in Hcount.
  destruct (resolveAuthor sys config (Version folder)) as [authorName authorEmail].
  set (staged := foldl _ repo _).
  assert (objects staged = objects repo) as Hobjects by apply commitsOf_worktree_Add.
  assert (references staged = references repo) as Hrefs by apply worktree_Add_references.
  destruct (refuses staged _).
  { left. cbn [snd]. unfold commitsOf. by rewrite Hobjects. }
  right. cbn [fst snd]. rewrite commitsOf_worktree_Commit_eq.
  eexists. split.
  { unfold commitsOf. rewrite Hobjects. reflexivity. }
  split; [done|]. split; [split; [done|]|].
  - exists (cs_count copied). split; [lia|done].
  - cbn [ParentHashes]. unfold headParents. by rewrite (Head_references staged repo).
Qed.

Lemma setStaged_paths (path : relpath) (data : FileData) (staged : list (relpath * FileData)) :
  staged.*1 ⊆ (setStaged path data staged).*1.
Proof.
  induction staged as [|[p d] staged IH]; simpl; [by intros q Hq; apply elem_of_nil in Hq|].
  destruct (bool_decide (p = path)); simpl; [done|].
  intros q [->|Hq]%elem_of_cons; [by left|]. right. by apply IH.
Qed.

Lemma setStaged_from (path : relpath) (data : FileData) (staged : list (relpath * FileData))
    (entry : relpath * FileData) :
  entry ∈ setStaged path data staged → entry ∈ staged ∨ entry = (path, data).
Proof.
  induction staged as [|[p d] staged IH]; simpl.
  - intros ->%list_elem_of_singleton. by right.
  - destruct (bool_decide (p = path)) eqn:Hp.
    + apply bool_decide_eq_true in Hp as ->.
      intros [->|Hin]%elem_of_cons; [by right|]. left. by right.
    + intros [->|Hin]%elem_of_cons; [left; by left|].
      destruct (IH Hin) as [?|?]; [left; by right|by right].
Qed.

Lemma worktree_Add_staged (target : node) (files : list relpath) :
  ∀ repo,
    let staged := foldl (λ repo file, default repo (worktree_Add target file repo)) repo files in
    (index repo).*1 ⊆ (index staged).*1
    ∧ ∀ entry, entry ∈ index staged →
               entry ∈ index repo ∨ statFile target entry.1 = Some entry.2.
Proof.
  induction files as [|file files IH]; intros repo; simpl.
  { split; [done|]. intros entry Hin. by left. }
  destruct (IH (default repo (worktree_Add target file repo))) as [Hpaths Hfrom].
  unfold worktree_Add in *. destruct (statFile target file) as [data|] eqn:Hfile; simpl in *.
  - split.
    + etrans; [apply (setStaged_paths file data)|exact Hpaths].
    + intros entry Hin. destruct (Hfrom entry Hin) as [Hset|?]; [|by right].
      apply setStaged_from in Hset as [?| ->]; [by left|by right].
  - done.
Qed.

(** X16: nothing is ever unstaged.  After a turn of the loop every path
    that was in the index is still in it, also when the clearing removed
    the file from the working tree; an entry of the index is one that was
    there before or holds the data the file has in the working tree; and a
    commit the turn adds records the index as the turn leaves it. *)
Theorem commitFolder_staged (sys : Sys) (refuses : CommitOracle) (config : Config)
    (folder : FolderInfo) (target : node) (repo : Repository) :
  let result := commitFolder sys refuses config folder target repo in
  (index repo).*1 ⊆ (index result.2.2).*1
  ∧ Forall (λ entry, entry ∈ index repo ∨ statFile result.2.1 entry.1 = Some entry.2)
           (index result.2.2)
  ∧ (commitsOf result.2.2 = commitsOf repo
     ∨ ∃ c, commitsOf result.2.2 = commitsOf repo ++ [c] ∧ Staged c = index result.2.2).
Proof.
  intros result. subst result. unfold commitFolder.
  assert (Forall (λ entry : relpath * FileData, entry ∈ index repo ∨
            statFile target entry.1 = Some entry.2) (index repo)) as Hsame.
  { apply Forall_forall. intros entry Hin. by left. }
  assert (∀ t, Forall (λ entry : relpath * FileData, entry ∈ index repo ∨
            statFile t entry.1 = Some entry.2) (index repo)) as Hrepo.
  { intros t. apply Forall_forall. intros entry Hin. by left. }
  destruct (if Append config then _ else _) as [cleared|]; [|by split; [|split; [|left]]].
  destruct (copyFilesAndTrack _ _ _ _) as [[e|] copied]; [by split; [|split; [|left]]|].
  destruct (cs_count copied =? 0)%nat; [by split; [|split; [|left]]|].
  destruct (resolveAuthor sys config (Version folder)) as [authorName authorEmail].
  destruct (worktree_Add_staged (cs_target copied) (cs_newFiles copied) repo)
    as [Hpaths Hfrom].
  set (staged := foldl _ repo _) in *.
  assert (commitsOf staged = commitsOf repo) as Hstaged.
  { unfold commitsOf, staged. by rewrite commitsOf_worktree_Add. }
  destruct (refuses staged _); cbn [fst snd].
  - split; [done|]. split; [by apply Forall_forall|by left].
  - split; [done|]. split; [by apply Forall_forall|]. right.
    rewrite commitsOf_worktree_Commit_eq, Hstaged. by eexists.
Qed.

Lemma setReference_In (name : string) (h : Hash) (refs : list Reference) :
  HashReference name h ∈ setReference name h refs.
Proof.
  induction refs as [|r refs IH]; simpl; [by left|].
  destruct (String.eqb (refName r) name); [by left|by right].
Qed.

Lemma freshHash_above (repo : Repository) (o : Hash * Object) :
  o ∈ objects repo → (o.1 < freshHash repo)%N.
Proof.
  unfold freshHash. induction (objects repo) as [|o' objs IH]; intros Hin.
  - by apply elem_of_nil in Hin.
  - cbn [foldr]. apply N.lt_succ_r. apply elem_of_cons in Hin as [->|Hin].
    + apply N.le_max_l.
    + specialize (IH Hin). apply N.lt_succ_r in IH.
      etrans; [exact IH|apply N.le_max_r].
Qed.

Lemma CommitObject_worktree_Commit (msg : string) (author : Signature) (repo : Repository) :
  ∃ c, CommitObject (worktree_Commit msg author repo) (freshHash repo) = Some c
       ∧ Message c = msg.
Proof.
  exists {| Message := msg; CommitAuthor := author;
            ParentHashes := match Head repo with
                            | Some h => [h]
                            | None => []
                            end;
            Staged := index repo |}.
  split; [|done].
  unfold CommitObject, lookupObject, worktree_Commit. cbn [objects].
  pose proof (freshHash_above repo) as Habove.
  generalize dependent (freshHash repo). intros h Habove.
  induction (objects repo) as [|o objs IH]; cbn [app find fmap option_fmap option_map fst].
  - by rewrite N.eqb_refl.
  - match goal with |- context [if ?b then _ else _] => destruct b eqn:Ho end.
    { apply N.eqb_eq in Ho. specialize (Habove o (list_elem_of_here _ _)).
      destruct (N.lt_neq _ _ Habove Ho). }
    apply IH. intros o' Hin. apply Habove. by right.
Qed.

Lemma existingVersionsOf_worktree_Commit (msg : string) (author : Signature)
    (repo : Repository) (version : string) :
  versionOfMessage msg = Some version →
  version ∈ existingVersionsOf (worktree_Commit msg author repo).
Proof.
  intros Hversion. apply existingVersionsOf_spec.
  destruct (CommitObject_worktree_Commit msg author repo) as (c & Hc & Hmsg).
  eexists _, (freshHash repo), c. split; [|split; [exact Hc|by rewrite Hmsg]].
  unfold worktree_Commit. cbn [references]. apply setReference_In.
Qed.

Lemma versionOfMessage_default (version base date : string) :
  freeOf colon version = true →
  versionOfMessage (defaultMessage version base date) = Some (TrimSpace version).
Proof.
  intros Hfree. unfold versionOfMessage, defaultMessage.
  set (tail := base +:+ " (created: " +:+ date +:+ ")").
  assert (Contains ("Version " +:+ version +:+ ": " +:+ tail) "Version" = true) as ->.
  { change ("Version " +:+ version +:+ ": " +:+ tail)
      with ("Version" +:+ " " +:+ version +:+ ": " +:+ tail).
    apply Contains_app. }
  replace ("Version " +:+ version +:+ ": " +:+ tail)
    with (("Version " +:+ version) +:+ String colon (" " +:+ tail))
    by (by rewrite append_assoc).
  rewrite Split_app_sep by exact Hfree.
  change ("Version " +:+ version) with ("Version" +:+ String " " version).
  by rewrite TrimPrefix_app.
Qed.

(** X17: when a turn of the loop commits with the default message, the
    version of the folder is in the index of existing versions that the
    next run in append mode builds, provided the version has no colon in it
    and no white space at either end. *)
Theorem commitFolder_indexed (sys : Sys) (refuses : CommitOracle) (config : Config)
    (folder : FolderInfo) (target : node) (repo : Repository) :
  MessageTemplate config = EmptyString →
  freeOf colon (Version folder) = true →
  TrimSpace (Version folder) = Version folder →
  let repo' := (commitFolder sys refuses config folder target repo).2.2 in
  commitsOf repo' = commitsOf repo ∨ Version folder ∈ existingVersionsOf repo'.
Proof.
  intros Htemplate Hfree Htrim repo'. subst repo'. unfold commitFolder.
  destruct (if Append config then _ else _) as [cleared|]; [|by left].
  destruct (copyFilesAndTrack _ _ _ _) as [[e|] copied]; [by left|].
  destruct (cs_count copied =? 0)%nat; [by left|].
  destruct (resolveAuthor sys config (Version folder)) as [authorName authorEmail].
  set (staged := foldl _ repo _).
  assert (commitsOf staged = commitsOf repo) as Hstaged.
  { unfold commitsOf, staged. by rewrite commitsOf_worktree_Add. }
  destruct (refuses staged _); [by left|]. right. cbn [snd].
  apply existingVersionsOf_worktree_Commit.
  unfold commitMessage. rewrite Htemplate. cbn [nonEmpty String.eqb negb].
  rewrite versionOfMessage_default by done. by rewrite Htrim.
Qed.

Lemma commitFolder_indexed_witness :
  let repo' := (commitFolder demoSys neverRefuses (demoConfig false) folder_1_2
                  (Dir true [(".git", Dir true [])]) emptyRepository).2.2 in
  commitsOf repo' = commitsOf emptyRepository ∨ Version folder_1_2 ∈ existingVersionsOf repo'.
Proof.
  apply (commitFolder_indexed demoSys neverRefuses (demoConfig false) folder_1_2
           (Dir true [(".git", Dir true [])]) emptyRepository); reflexivity.
Defined.

(** ** The existing-version index, again *)

Lemma freeOf_app (c : ascii) (a b : string) :
  freeOf c (a +:+ b) = freeOf c a && freeOf c b.
Proof.
  induction a as [|x a IH]; [done|].
  change (String x a +:+ b) with (String x (a +:+ b)). simpl. by rewrite IH, andb_assoc.
Qed.

Lemma freeOf_rev (c : ascii) (s : string) : freeOf c (string_rev s) = freeOf c s.
Proof.
  unfold string_rev.
  assert (∀ l, freeOf c (string_of_list_ascii l) = forallb (λ x, negb (Ascii.eqb x c)) l) as Hl.
  { induction l as [|x l IH]; simpl; [done|by rewrite IH]. }
  rewrite Hl. clear Hl.
  induction s as [|x s IH]; [done|].
  cbn [list_ascii_of_string rev freeOf]. rewrite forallb_app, IH. simpl.
  by rewrite andb_true_r, andb_comm.
Qed.

Lemma trimLeftSpace_suffix (s : string) : ∃ dropped, s = dropped +:+ trimLeftSpace s.
Proof.
  remember (String.length s) as n eqn:Hn.
  revert s Hn. induction (lt_wf n) as [n _ IH]. intros s ->.
  assert (∀ s', (String.length s' < String.length s)%nat →
                ∃ dropped, s' = dropped +:+ trimLeftSpace s') as Hshorter.
  { intros s' Hlt. by eapply IH. }
  destruct s as [|a s1]; [by exists EmptyString|]. cbn [trimLeftSpace].
  destruct (asciiSpace a).
  { destruct (Hshorter s1) as [dropped Hd]; [simpl; lia|].
    exists (String a dropped). change (String a s1 = String a (dropped +:+ trimLeftSpace s1)).
    by rewrite <- Hd. }
  destruct s1 as [|b s2]; [by exists EmptyString|].
  destruct (space2 a b).
  { destruct (Hshorter s2) as [dropped Hd]; [simpl; lia|].
    exists (String a (String b dropped)).
    change (String a (String b s2) = String a (String b (dropped +:+ trimLeftSpace s2))).
    by rewrite <- Hd. }
  destruct s2 as [|c s3]; [by exists EmptyString|].
  destruct (space3 a b c); [|by exists EmptyString].
  destruct (Hshorter s3) as [dropped Hd]; [simpl; lia|].
  exists (String a (String b (String c dropped))).
  change (String a (String b (String c s3))
          = String a (String b (String c (dropped +:+ trimLeftSpace s3)))).
  by rewrite <- Hd.
Qed.

Lemma trimLeftSpaceRev_suffix (s : string) : ∃ dropped, s = dropped +:+ trimLeftSpaceRev s.
Proof.
  remember (String.length s) as n eqn:Hn.
  revert s Hn. induction (lt_wf n) as [n _ IH]. intros s ->.
  assert (∀ s', (String.length s' < String.length s)%nat →
                ∃ dropped, s' = dropped +:+ trimLeftSpaceRev s') as Hshorter.
  { intros s' Hlt. by eapply IH. }
  destruct s as [|a s1]; [by exists EmptyString|]. cbn [trimLeftSpaceRev].
  destruct (asciiSpace a).
  { destruct (Hshorter s1) as [dropped Hd]; [simpl; lia|].
    exists (String a dropped).
    change (String a s1 = String a (dropped +:+ trimLeftSpaceRev s1)).
    by rewrite <- Hd. }
  destruct s1 as [|b s2]; [by exists EmptyString|].
  destruct (space2 b a).
  { destruct (Hshorter s2) as [dropped Hd]; [simpl; lia|].
    exists (String a (String b dropped)).
    change (String a (String b s2) = String a (String b (dropped +:+ trimLeftSpaceRev s2))).
    by rewrite <- Hd. }
  destruct s2 as [|c s3]; [by exists EmptyString|].
  destruct (space3 c b a); [|by exists EmptyString].
  destruct (Hshorter s3) as [dropped Hd]; [simpl; lia|].
  exists (String a (String b (String c dropped))).
  change (String a (String b (String c s3))
          = String a (String b (String c (dropped +:+ trimLeftSpaceRev s3)))).
  by rewrite <- Hd.
Qed.

Lemma freeOf_TrimSpace (c : ascii) (s : string) :
  freeOf c s = true → freeOf c (TrimSpace s) = true.
Proof.
  intros Hs. unfold TrimSpace, trimRightSpace. rewrite freeOf_rev.
  destruct (trimLeftSpace_suffix s) as [d1 H1].
  rewrite H1, freeOf_app in Hs. apply andb_prop in Hs as [_ Hs].
  rewrite <- freeOf_rev in Hs.
  destruct (trimLeftSpaceRev_suffix (string_rev (trimLeftSpace s))) as [d2 H2].
  rewrite H2, freeOf_app in Hs. by apply andb_prop in Hs as [_ Hs].
Qed.

Lemma freeOf_TrimPrefix (c : ascii) (s prefix : string) :
  freeOf c s = true → freeOf c (TrimPrefix s prefix) = true.
Proof.
  unfold TrimPrefix. revert s. induction prefix as [|p prefix IH]; intros s Hs; [done|].
  destruct s as [|x s]; [done|]. simpl. destruct (Ascii.eqb p x); [|done].
  pose proof Hs as Hall. simpl in Hs. apply andb_prop in Hs as [_ Hs]. specialize (IH s Hs).
  by destruct (cutPrefix s prefix).
Qed.

Lemma Split_head_free (s : string) (sep : ascii) :
  match Split s sep with
  | part0 :: _ => freeOf sep part0 = true
  | [] => True
  end.
Proof.
  induction s as [|x s IH]; [done|]. simpl.
  destruct (Ascii.eqb x sep) eqn:Hx; [done|].
  destruct (Split s sep) as [|h t]; simpl; [by rewrite Hx|by rewrite Hx, IH].
Qed.

Lemma versionOfMessage_free (message version : string) :
  versionOfMessage message = Some version → freeOf colon version = true.
Proof.
  unfold versionOfMessage. destruct (Contains message "Version"); [|done].
  pose proof (Split_head_free message colon) as Hhead.
  destruct (Split message colon) as [|part0 parts]; [done|]. intros [= <-].
  by apply freeOf_TrimSpace, freeOf_TrimPrefix.
Qed.

(** X18: no version in the index of existing versions has a colon in it (the
    index keeps what stands before the first colon of a message), so a
    folder whose version has a colon is never passed over in append mode:
    the loop always goes on to copy and commit it. *)
Theorem existingVersions_no_colon (repo : Repository) :
  set_Forall (λ version, freeOf colon version = true) (existingVersionsOf repo)
  ∧ ∀ sys refuses config folder target,
      freeOf colon (Version folder) = false →
      processFolder sys refuses config (existingVersionsOf repo) folder target repo
      = commitFolder sys refuses config folder target repo.
Proof.
  assert (set_Forall (λ version, freeOf colon version = true) (existingVersionsOf repo))
    as Hfree.
  { intros version (name & h & c & _ & _ & Hv)%existingVersionsOf_spec.
    by eapply versionOfMessage_free. }
  split; [done|]. intros sys refuses config folder target Hcolon. unfold processFolder.
  rewrite bool_decide_eq_false_2; [by rewrite andb_false_r|].
  intros Hin. apply Hfree in Hin. congruence.
Qed.

(** ** The run as a whole *)

Lemma commitFolder_adds (sys : Sys) (refuses : CommitOracle) (config : Config)
    (folder : FolderInfo) (target : node) (repo : Repository) :
  let repo' := (commitFolder sys refuses config folder target repo).2.2 in
  commitsOf repo' = commitsOf repo
  ∨ ∃ c, commitsOf repo' = commitsOf repo ++ [c] ∧ madeFor sys config folder c.
Proof.
  intros repo'. subst repo'. unfold commitFolder, madeFor.
  destruct (if Append config then _ else _) as [cleared|]; [|by left].
  destruct (copyFilesAndTrack _ _ _ _) as [[e|] copied]; [by left|].
  destruct (cs_count copied =? 0)%nat eqn:Hcount; [by left|].
  apply Nat.eqb_neq in Hcount.
  destruct (resolveAuthor sys config (Version folder)) as [authorName authorEmail].
  set (staged := foldl _ repo _).
  assert (objects staged = objects repo) as Hobjects by apply commitsOf_worktree_Add.
  destruct (refuses staged _).
  { left. cbn [snd]. unfold commitsOf. by rewrite Hobjects. }
  right. cbn [fst snd]. rewrite commitsOf_worktree_Commit_eq.
  eexists. split.
  { unfold commitsOf. rewrite Hobjects. reflexivity. }
  split; [done|].
  exists (cs_count copied). split; [lia|done].
Qed.

Lemma processFolders_app (sys : Sys) (refuses : CommitOracle) (config : Config)
    (existingVersions : gset string) (folders1 folders2 : list FolderInfo) :
  ∀ target repo,
    processFolders sys refuses config existingVersions (folders1 ++ folders2) target repo
    = match processFolders sys refuses config existingVersions folders1 target repo with
      | (Some e, state) => (Some e, state)
      | (None, (target', repo')) =>
          processFolders sys refuses config existingVersions folders2 target' repo'
      end.
Proof.
  induction folders1 as [|folder folders1 IH]; intros target repo; [done|].
  cbn [app processFolders].
  destruct (processFolder sys refuses config existingVersions folder target repo)
    as [[e|] [target' repo']]; [done|apply IH].
Qed.

Lemma processFolders_commits (sys : Sys) (refuses : CommitOracle) (config : Config)
    (existingVersions : gset string) (folders : list FolderInfo) :
  ∀ target repo,
    ∃ made added,
      commitsOf (processFolders sys refuses config existingVersions folders target repo).2.2
      = commitsOf repo ++ added
      ∧ made `sublist_of` folders
      ∧ Forall2 (madeFor sys config) made added.
Proof.
  induction folders as [|folder folders IH]; intros target repo.
  { exists [], []. by rewrite app_nil_r. }
  cbn [processFolders]. unfold processFolder.
  destruct (Append config && bool_decide (Version folder ∈ existingVersions)).
  { destruct (IH target repo) as (made & added & Hc & Hsub & Hmade).
    exists made, added. split; [done|]. split; [by apply sublist_cons|done]. }
  pose proof (commitFolder_adds sys refuses config folder target repo) as Hstep.
  destruct (commitFolder sys refuses config folder target repo) as [[e|] [target' repo']];
    simpl in Hstep.
  - destruct Hstep as [Hsame|(c & Hc & Hfor)]; simpl.
    + exists [], []. rewrite app_nil_r. split; [done|]. split; [apply sublist_nil_l|done].
    + exists [folder], [c]. split; [done|].
      split; [apply sublist_skip, sublist_nil_l|by constructor].
  - destruct (IH target' repo') as (made & added & Hrest & Hsub & Hmade).
    destruct Hstep as [Hsame|(c & Hc & Hfor)].
    + exists made, added. rewrite Hrest, Hsame. split; [done|].
      split; [by apply sublist_cons|done].
    + exists (folder :: made), (c :: added). rewrite Hrest, Hc, <- app_assoc.
      split; [done|]. split; [by apply sublist_skip|by constructor].
Qed.

Lemma makeTarget_git (w : World) (target : node) :
  makeTarget (w_target w) = Some target →
  Stat target [".git"] = w_target w ≫= λ target, Stat target [".git"].
Proof.
  unfold makeTarget. destruct (w_target w) as [t|]; cbn [mbind option_bind].
  - unfold MkdirAll. destruct (deref t) as [[| |]|]; by intros [= <-].
  - by intros [= <-].
Qed.

(** A run either leaves the world as it was or goes through the loop,
    starting from the repository the run starts from. *)
Lemma MigrateToGit_opened (sys : Sys) (refuses : CommitOracle) (config : Config)
    (folders : list FolderInfo) (w : World) (repo : Repository) :
  startsFrom config w repo →
  (MigrateToGit sys refuses config folders w).2 = w
  ∨ ∃ target,
      MigrateToGit sys refuses config folders w
      = let '(err, (target', repo')) :=
          processFolders sys refuses config
            (if Append config then existingVersionsOf repo else ∅) folders target repo in
        (err, {| w_target := Some target'; w_repo := Some repo' |}).
Proof.
  unfold startsFrom, MigrateToGit. intros Hstart.
  destruct (DryRun config); [by left|].
  destruct (makeTarget (w_target w)) as [target|] eqn:Hmade; [|by left].
  rewrite <- (makeTarget_git w target Hmade) in Hstart.
  destruct (Stat target [".git"]) as [git|] eqn:Hgit.
  - rewrite bool_decide_eq_true_2 by eauto. cbn [negb andb]. rewrite andb_false_r.
    cbn [w_repo]. rewrite Hstart. right. by exists target.
  - destruct Hstart as [-> ->].
    rewrite bool_decide_eq_false_2 by (by intros [? ?]). cbn [negb andb].
    destruct (MkdirAll [".git"] target) as [target'|] eqn:Hinit.
    + right. by exists target'.
    + left. cbn [snd]. destruct w as [wt wr]. cbn [w_repo w_target] in *.
      f_equal. unfold makeTarget in Hmade. destruct wt as [t|]; [|by simplify_eq].
      simpl in Hmade. by destruct (deref t) as [[| |]|]; simplify_eq.
Qed.

(** X19: a run only appends to the history.  The commits of the repository
    after the run are the commits before it followed by the new ones; the
    new ones were made for folders of the list, at most one for each, in
    the order of the list. *)
Theorem MigrateToGit_history (sys : Sys) (refuses : CommitOracle) (config : Config)
    (folders : list FolderInfo) (w : World) (repo : Repository) :
  startsFrom config w repo →
  let result := MigrateToGit sys refuses config folders w in
  result.2 = w
  ∨ ∃ repo' made added,
      w_repo result.2 = Some repo'
      ∧ commitsOf repo' = commitsOf repo ++ added
      ∧ made `sublist_of` folders
      ∧ Forall2 (madeFor sys config) made added.
Proof.
  intros Hstart result. subst result.
  destruct (MigrateToGit_opened sys refuses config folders w repo Hstart)
    as [Hsame|[target ->]]; [by left|]. right.
  set (existingVersions := if Append config then _ else _).
  destruct (processFolders_commits sys refuses config existingVersions folders target repo)
    as (made & added & Hc & Hsub & Hmade).
  destruct (processFolders sys refuses config existingVersions folders target repo)
    as [err [target' repo']].
  by exists repo', made, added.
Qed.

Lemma MigrateToGit_history_witness :
  let result := MigrateToGit demoSys neverRefuses (demoConfig false) demoFolders nothingThere in
  result.2 = nothingThere
  ∨ ∃ repo' made added,
      w_repo result.2 = Some repo'
      ∧ commitsOf repo' = commitsOf emptyRepository ++ added
      ∧ made `sublist_of` demoFolders
      ∧ Forall2 (madeFor demoSys (demoConfig false)) made added.
Proof.
  apply (MigrateToGit_history demoSys neverRefuses (demoConfig false) demoFolders
           nothingThere emptyRepository).
  split; reflexivity.
Defined.

Lemma Sorted_sublist {A} (R : A → A → Prop) `{!Transitive R} (l k : list A) :
  l `sublist_of` k → Sorted R k → Sorted R l.
Proof.
  intros Hsub Hk. apply Sorted_StronglySorted in Hk; [|done].
  apply StronglySorted_Sorted.
  induction Hsub as [|x l k Hsub IH|x l k Hsub IH].
  - constructor.
  - apply StronglySorted_inv in Hk as [Hk Hx]. constructor; [by apply IH|].
    apply Forall_forall. intros y Hy. rewrite Forall_forall in Hx. apply Hx.
    by eapply elem_of_sublist.
  - apply StronglySorted_inv in Hk as [Hk Hx]. by apply IH.
Qed.

Lemma madeFor_When (sys : Sys) (config : Config) (made : list FolderInfo)
    (added : list Commit) :
  Forall2 (madeFor sys config) made added →
  (λ c, sig_When (CommitAuthor c)) <$> added = CreationTime <$> made.
Proof.
  induction 1 as [|folder c made added Hfor _ IH]; [done|].
  cbn [fmap list_fmap]. rewrite <- IH. f_equal. unfold madeFor in Hfor.
  destruct (resolveAuthor sys config (Version folder)) as [authorName authorEmail].
  destruct Hfor as [-> _]. done.
Qed.

(** X20: discovery and migration together: when the folders are the ones
    discovery returned, the times of the commits a run adds never decrease
    from a commit to the next. *)
Theorem MigrateToGit_commit_times (sys : Sys) (refuses : CommitOracle) (config : Config)
    (folders : list FolderInfo) (w : World) (repo : Repository) :
  FindVersionedFolders sys config = inr folders →
  startsFrom config w repo →
  let result := MigrateToGit sys refuses config folders w in
  result.2 = w
  ∨ ∃ repo' added,
      w_repo result.2 = Some repo'
      ∧ commitsOf repo' = commitsOf repo ++ added
      ∧ Sorted Z.le ((λ c, sig_When (CommitAuthor c)) <$> added).
Proof.
  intros Hfound Hstart result. subst result.
  destruct (MigrateToGit_opened sys refuses config folders w repo Hstart)
    as [Hsame|[target ->]]; [by left|]. right.
  set (existingVersions := if Append config then _ else _).
  destruct (processFolders_commits sys refuses config existingVersions folders target repo)
    as (made & added & Hc & Hsub & Hmade).
  destruct (processFolders sys refuses config existingVersions folders target repo)
    as [err [target' repo']].
  exists repo', added. split; [done|]. split; [done|].
  rewrite (madeFor_When sys config made added Hmade).
  pose proof (FindVersionedFolders_times sys config folders Hfound) as Hsorted.
  apply (Sorted_sublist Z.le _ (CreationTime <$> folders)); [|done].
  by apply fmap_sublist.
Qed.

Lemma MigrateToGit_commit_times_witness :
  let result := MigrateToGit demoSys neverRefuses (demoConfig false) demoFolders nothingThere in
  result.2 = nothingThere
  ∨ ∃ repo' added,
      w_repo result.2 = Some repo'
      ∧ commitsOf repo' = commitsOf emptyRepository ++ added
      ∧ Sorted Z.le ((λ c, sig_When (CommitAuthor c)) <$> added).
Proof.
  apply (MigrateToGit_commit_times demoSys neverRefuses (demoConfig false) demoFolders
           nothingThere emptyRepository).
  - reflexivity.
  - split; reflexivity.
Defined.

(** X21: an error ends the run: the folders after the one at which the run
    failed change nothing. *)
Theorem MigrateToGit_stops_at_error (sys : Sys) (refuses : CommitOracle) (config : Config)
    (folders1 folders2 : list FolderInfo) (w : World) (e : Error) :
  (MigrateToGit sys refuses config folders1 w).1 = Some e →
  MigrateToGit sys refuses config (folders1 ++ folders2) w
  = MigrateToGit sys refuses config folders1 w.
Proof.
  unfold MigrateToGit. destruct (DryRun config); [done|].
  destruct (makeTarget (w_target w)) as [target|]; [|done].
  match goal with |- context [match ?o with inl _ => _ | inr _ => _ end] =>
    destruct o as [e'|[target0 repo0]] end; [done|].
  set (existingVersions := if Append config then _ else _).
  rewrite processFolders_app.
  destruct (processFolders sys refuses config existingVersions folders1 target0 repo0)
    as [[e1|] [target' repo']]; [done|].
  by intros [=].
Qed.

Lemma MigrateToGit_stops_at_error_witness :
  MigrateToGit demoSys neverRefuses (demoConfig false)
    ([folder_1_0; movedFolder] ++ [folder_1_2]) nothingThere
  = MigrateToGit demoSys neverRefuses (demoConfig false) [folder_1_0; movedFolder] nothingThere.
Proof.
  apply (MigrateToGit_stops_at_error demoSys neverRefuses (demoConfig false)
           [folder_1_0; movedFolder] [folder_1_2] nothingThere ErrCopy).
  reflexivity.
Defined.

(** X22: in append mode a run over folders whose versions are all in the
    index of existing versions, as the run finds it, leaves the target and
    the repository exactly as they were. *)
Theorem MigrateToGit_all_indexed (sys : Sys) (refuses : CommitOracle) (config : Config)
    (folders : list FolderInfo) (w : World) (target : node) :
  Append config = true →
  w_target w = Some target →
  Forall (λ folder, indexedAtStart w folder = true) folders →
  (MigrateToGit sys refuses config folders w).2 = w.
Proof.
  intros Happend Htarget Hall. unfold MigrateToGit.
  destruct (DryRun config); [done|]. rewrite Htarget. unfold makeTarget.
  destruct (MkdirAll [] target) as [made|] eqn:Hmade; [|done].
  assert (made = target) as ->.
  { simpl in Hmade. by destruct (deref target) as [[| |]|]; simplify_eq. }
  destruct w as [wt wr]. cbn [w_target w_repo] in *. subst wt.
  rewrite Happend. cbn [negb andb].
  destruct (bool_decide (is_Some (Stat target [".git"]))); cbn [negb andb]; [|done].
  destruct wr as [repo|]; [|done].
  rewrite (processFolders_filter sys refuses config (existingVersionsOf repo) folders Happend).
  assert (filter (λ folder, Version folder ∉ existingVersionsOf repo) folders = []) as ->.
  { clear -Hall. induction Hall as [|folder folders Hfolder _ IH]; [done|].
    rewrite filter_cons_False; [done|]. unfold indexedAtStart in Hfolder. simpl in Hfolder.
    apply bool_decide_eq_true in Hfolder. by intros Hnot. }
  done.
Qed.

Lemma MigrateToGit_all_indexed_witness :
  (MigrateToGit demoSys neverRefuses (demoConfig true) [folder_1_0; folder_1_0_hotfix]
     afterFirstSnapshot).2 = afterFirstSnapshot.
Proof.
  apply (MigrateToGit_all_indexed demoSys neverRefuses (demoConfig true)
           [folder_1_0; folder_1_0_hotfix] afterFirstSnapshot
           (Dir true [(".git", Dir true []); ("a.txt", plainFile 1700000000 "first")])).
  - reflexivity.
  - reflexivity.
  - repeat constructor.
Defined.

Lemma look_MkdirAll_made (made : relpath) :
  ∀ root root', MkdirAll made root = Some root' → look root' made = Some SeenDir.
Proof.
  induction made as [|c made IH]; intros root root' Hmk.
  - simpl in Hmk. rewrite look_nil.
    destruct (deref root) as [[| |]|] eqn:Hd; simplify_eq. by rewrite Hd.
  - simpl in Hmk. apply inDir_Some in Hmk as (l & entries & entries' & Hroot & Hf & Hroot').
    rewrite look_cons, Hroot'.
    destruct (lookupEntry c entries) as [child|] eqn:Hchild.
    + destruct (MkdirAll made child) as [child'|] eqn:Hmk; simplify_eq/=.
      rewrite lookupEntry_setEntry, String.eqb_refl. simpl. by eapply IH.
    + simplify_eq. rewrite lookupEntry_setEntry, String.eqb_refl. simpl.
      clear. induction made as [|m made IH]; [done|].
      rewrite look_cons. simpl. by rewrite String.eqb_refl.
Qed.

Lemma commitFolder_git (sys : Sys) (refuses : CommitOracle) (config : Config)
    (folder : FolderInfo) (target : node) (repo : Repository) :
  is_Some (look target [".git"]) →
  is_Some (look (commitFolder sys refuses config folder target repo).2.1 [".git"]).
Proof.
  intros Hgit. unfold commitFolder.
  destruct (if Append config then Some target
            else clearDirectory sys (TargetDir config) target) as [cleared|] eqn:Hclear;
    [|done].
  assert (is_Some (look cleared [".git"])) as Hcleared.
  { destruct (Append config); [by simplify_eq|].
    unfold look in *. by rewrite (clearDirectory_system_entry sys ".git" [] target eq_refl
                                    (TargetDir config) cleared Hclear). }
  pose proof (copyFilesAndTrack_stays sys (Path folder) cleared (Append config)) as Hstays.
  apply (stays_is_Some _ _ [".git"] Hstays) in Hcleared.
  destruct (copyFilesAndTrack sys (Path folder) cleared (Append config)) as [[e|] copied];
    simpl in *; [done|].
  destruct (cs_count copied =? 0)%nat; [done|].
  destruct (resolveAuthor sys config (Version folder)) as [authorName authorEmail].
  by destruct (refuses _ _).
Qed.

Lemma processFolders_git (sys : Sys) (refuses : CommitOracle) (config : Config)
    (existingVersions : gset string) (folders : list FolderInfo) :
  ∀ target repo,
    is_Some (look target [".git"]) →
    is_Some (look (processFolders sys refuses config existingVersions folders target repo).2.1
                  [".git"]).
Proof.
  induction folders as [|folder folders IH]; intros target repo Hgit; [done|].
  cbn [processFolders]. unfold processFolder.
  destruct (Append config && bool_decide (Version folder ∈ existingVersions)); [by apply IH|].
  pose proof (commitFolder_git sys refuses config folder target repo Hgit) as Hstep.
  destruct (commitFolder sys refuses config folder target repo) as [[e|] [target' repo']];
    simpl in *; [done|by apply IH].
Qed.

(** X23: outside append mode a run over two lists of folders, one after the
    other, does what a run over the first followed by a run over the second
    does, when the first run returns no error. *)
Theorem MigrateToGit_app (sys : Sys) (refuses : CommitOracle) (config : Config)
    (folders1 folders2 : list FolderInfo) (w : World) :
  Append config = false →
  (MigrateToGit sys refuses config folders1 w).1 = None →
  MigrateToGit sys refuses config (folders1 ++ folders2) w
  = MigrateToGit sys refuses config folders2
      (MigrateToGit sys refuses config folders1 w).2.
Proof.
  intros Happend. unfold MigrateToGit at 1 2 4.
  destruct (DryRun config) eqn:Hdry.
  { intros _. unfold MigrateToGit. by rewrite Hdry. }
  destruct (makeTarget (w_target w)) as [target|] eqn:Hmade; [|done].
  rewrite Happend. cbn [negb andb]. rewrite andb_true_r.
  match goal with |- context [match ?o with inl _ => _ | inr _ => _ end] =>
    set (opened := o) end.
  assert ((∃ target0 repo0, opened = inr (target0, repo0) ∧ is_Some (look target0 [".git"]))
          ∨ (∃ e, opened = inl e)) as Hopened.
  { subst opened.
    destruct (bool_decide (is_Some (Stat target [".git"]))) eqn:Hgit; cbn [negb].
    - cbn [w_repo]. destruct (w_repo w) as [repo|]; [|right; by eexists].
      left. eexists _, _. split; [done|]. apply look_is_Some.
      by apply bool_decide_eq_true in Hgit.
    - destruct (MkdirAll [".git"] target) as [target'|] eqn:Hinit; [|right; by eexists].
      left. eexists _, _. split; [done|].
      rewrite (look_MkdirAll_made [".git"] target target' Hinit). eauto. }
  clearbody opened.
  destruct Hopened as [(target0 & repo0 & -> & Hgit)|[e ->]]; [|done].
  rewrite processFolders_app.
  pose proof (processFolders_git sys refuses config ∅ folders1 target0 repo0 Hgit) as Hgit1.
  destruct (processFolders sys refuses config ∅ folders1 target0 repo0)
    as [[e|] [target1 repo1]]; [done|]. intros _. cbn [fst snd] in *.
  unfold MigrateToGit. rewrite Hdry, Happend. cbn [w_target w_repo makeTarget].
  assert (MkdirAll [] target1 = Some target1) as ->.
  { destruct Hgit1 as [s Hs]. rewrite look_cons in Hs. simpl.
    by destruct (deref target1) as [[| |]|]. }
  rewrite bool_decide_eq_true_2 by (by apply look_is_Some). done.
Qed.

Lemma MigrateToGit_app_witness :
  MigrateToGit demoSys neverRefuses (demoConfig false) ([folder_1_0] ++ [folder_1_2]) nothingThere
  = MigrateToGit demoSys neverRefuses (demoConfig false) [folder_1_2]
      (MigrateToGit demoSys neverRefuses (demoConfig false) [folder_1_0] nothingThere).2.
Proof.
  apply (MigrateToGit_app demoSys neverRefuses (demoConfig false)
           [folder_1_0] [folder_1_2] nothingThere); reflexivity.
Defined.

(** ** The older variant *)

Lemma Older_clearDirectory_Dir (sys : Sys) (dir : string) (entries : list (string * node)) :
  Older.clearDirectory sys dir (Dir true entries)
  = let '(err, entries') := Older.clearEntries sys dir entries in (err, Dir true entries').
Proof. done. Qed.

(** The older loop over entries whose directories behave as described:
    emptied and removed when they can be, an error or a directory left over
    when they cannot. *)
Lemma Older_clearEntries (sys : Sys) (dir : string) (entries : list (string * node)) :
  Forall (λ entry, IsDir entry.2 = true →
            ∀ path, ∃ err child',
              Older.clearDirectory sys path entry.2 = (err, child')
              ∧ if emptiable sys path entry.2
                then err = None ∧ os_Remove sys path child' = true
                else is_Some err ∨ os_Remove sys path child' = false) entries →
  ∃ err entries',
    Older.clearEntries sys dir entries = (err, entries')
    ∧ if forallb (λ entry, keptEntry entry
                           || emptiable sys (GoPath.Join2 dir entry.1) entry.2) entries
      then err = None ∧ entries' = filter (λ entry, keptEntry entry = true) entries
      else is_Some err.
Proof.
  induction 1 as [|[k x] rest Hx _ IH].
  { by eexists _, _. }
  destruct IH as (err & rest' & Hrest & IH).
  simpl in Hx. cbn [forallb Older.clearEntries]. unfold keptEntry at 1 3. cbn [fst snd].
  fold (Older.clearEntries sys dir). rewrite Hrest.
  destruct (Older.isKept k) eqn:Hk.
  { eexists _, _. split; [done|]. cbn [orb andb].
    destruct (forallb _ rest); [|done]. destruct IH as [-> ->].
    split; [done|]. rewrite filter_cons_True; [done|]. unfold keptEntry. simpl. by rewrite Hk. }
  destruct (IsSymlink x) eqn:Hlink.
  { eexists _, _. split; [done|]. cbn [orb andb].
    destruct (forallb _ rest); [|done]. destruct IH as [-> ->].
    split; [done|]. rewrite filter_cons_True; [done|].
    unfold keptEntry. simpl. by rewrite Hk, Hlink. }
  cbn [orb]. destruct (IsDir x) eqn:Hdir.
  - destruct (Hx eq_refl (GoPath.Join2 dir k)) as (e & x' & -> & Hcase).
    destruct (emptiable sys (GoPath.Join2 dir k) x).
    + destruct Hcase as [-> ->]. eexists _, _. split; [done|]. cbn [andb].
      destruct (forallb _ rest); [|done]. destruct IH as [-> ->].
      split; [done|]. rewrite filter_cons_False; [done|].
      unfold keptEntry. simpl. by rewrite Hk, Hlink.
    + cbn [andb]. destruct e as [e|]; [by eexists _, _|].
      destruct Hcase as [[? [=]]| ->]. by eexists _, _.
  - assert (emptiable sys (GoPath.Join2 dir k) x = os_Remove sys (GoPath.Join2 dir k) x)
      as -> by (by destruct x).
    destruct (os_Remove sys (GoPath.Join2 dir k) x).
    + eexists _, _. split; [done|]. cbn [andb].
      destruct (forallb _ rest); [|done]. destruct IH as [-> ->].
      split; [done|]. rewrite filter_cons_False; [done|].
      unfold keptEntry. simpl. by rewrite Hk, Hlink.
    + cbn [andb]. by eexists _, _.
Qed.

Lemma emptiable_forallb (sys : Sys) (path : string) (entries : list (string * node)) :
  emptiable sys path (Dir true entries) = true →
  forallb (λ entry, keptEntry entry
                    || emptiable sys (GoPath.Join2 path entry.1) entry.2) entries = true
  ∧ filter (λ entry, keptEntry entry = true) entries = []
  ∧ sys_remove sys path (Dir true []) = true.
Proof.
  cbn [emptiable]. intros [Hall ->]%andb_prop.
  assert (forallb (λ entry, keptEntry entry
                    || emptiable sys (GoPath.Join2 path entry.1) entry.2) entries = true
          ∧ filter (λ entry, keptEntry entry = true) entries = []) as [? ?]; [|done].
  induction entries as [|[k x] rest IH]; [done|].
  cbn [forallb fst snd] in *. apply andb_prop in Hall as [[[Hk Hlink]%andb_prop Hx]%andb_prop Hrest].
  destruct (IH Hrest) as [-> Hnone]. rewrite Hx, orb_true_r. split; [done|].
  rewrite filter_cons_False; [exact Hnone|]. unfold keptEntry. simpl.
  apply negb_true_iff in Hk, Hlink. by rewrite Hk, Hlink.
Qed.

Lemma not_emptiable_forallb (sys : Sys) (path : string) (entries : list (string * node)) :
  emptiable sys path (Dir true entries) = false →
  forallb (λ entry, keptEntry entry
                    || emptiable sys (GoPath.Join2 path entry.1) entry.2) entries = false
  ∨ filter (λ entry, keptEntry entry = true) entries ≠ []
  ∨ sys_remove sys path (Dir true []) = false.
Proof.
  cbn [emptiable]. intros [Hnot|Hrm]%andb_false_iff; [|by right; right].
  assert (forallb (λ entry, keptEntry entry
                    || emptiable sys (GoPath.Join2 path entry.1) entry.2) entries = false
          ∨ filter (λ entry, keptEntry entry = true) entries ≠ []) as [?|?];
    [|by left|by right; left].
  induction entries as [|[k x] rest IH]; [done|].
  cbn [forallb fst snd] in *.
  destruct (keptEntry (k, x)) eqn:Hkept.
  { right. by rewrite filter_cons_True. }
  cbn [orb]. rewrite filter_cons_False by congruence.
  unfold keptEntry in Hkept. simpl in Hkept. apply orb_false_elim in Hkept as [Hk Hlink].
  rewrite Hk, Hlink in Hnot. cbn [negb andb] in Hnot.
  destruct (emptiable sys (GoPath.Join2 path k) x); [|by left]. cbn [andb] in *. by apply IH.
Qed.

Lemma Older_clearDirectory_emptiable (sys : Sys) (n : node) :
  IsDir n = true →
  ∀ path, ∃ err n',
    Older.clearDirectory sys path n = (err, n')
    ∧ if emptiable sys path n
      then err = None ∧ os_Remove sys path n' = true
      else is_Some err ∨ os_Remove sys path n' = false.
Proof.
  induction n as [t d|t|t m _|l entries IH] using node_ind'; try done. intros _ path.
  destruct l.
  2: { eexists _, _. split; [done|]. left. by eexists. }
  destruct (Older_clearEntries sys path entries IH) as (err & entries' & Hclear & Hcase).
  rewrite Older_clearDirectory_Dir, Hclear. eexists _, _. split; [done|].
  destruct (emptiable sys path (Dir true entries)) eqn:Hempty.
  - apply emptiable_forallb in Hempty as (Hall & Hnone & Hrm). rewrite Hall in Hcase.
    destruct Hcase as [-> ->]. rewrite Hnone. split; [done|]. unfold os_Remove. by rewrite Hrm.
  - apply not_emptiable_forallb in Hempty as [Hsome|[Hleft|Hrm]].
    + rewrite Hsome in Hcase. by left.
    + destruct (forallb _ entries); [|by left]. destruct Hcase as [-> ->]. right.
      unfold os_Remove. by destruct (filter _ entries).
    + right. unfold os_Remove. apply andb_false_iff.
      destruct entries'; [by right|by left].
Qed.

(** X24: the older clearing of a directory that can be listed.  When every
    entry is kept (one of the three names, or a symbolic link) or can be
    emptied and removed, the clearing succeeds and leaves exactly the kept
    entries; otherwise it returns an error: it gives up at the first
    directory below that cannot be listed or is not empty after its
    clearing, and at the first [os.Remove] that fails. *)
Theorem Older_clearDirectory_kept (sys : Sys) (dir : string) (entries : list (string * node)) :
  if forallb (λ entry, keptEntry entry
                       || emptiable sys (GoPath.Join2 dir entry.1) entry.2) entries
  then Older.clearDirectory sys dir (Dir true entries)
       = (None, Dir true (filter (λ entry, keptEntry entry = true) entries))
  else is_Some (Older.clearDirectory sys dir (Dir true entries)).1.
Proof.
  assert (Forall (λ entry, IsDir entry.2 = true →
            ∀ path, ∃ err child',
              Older.clearDirectory sys path entry.2 = (err, child')
              ∧ if emptiable sys path entry.2
                then err = None ∧ os_Remove sys path child' = true
                else is_Some err ∨ os_Remove sys path child' = false) entries) as Hall.
  { apply Forall_forall. intros entry _. apply Older_clearDirectory_emptiable. }
  destruct (Older_clearEntries sys dir entries Hall) as (err & entries' & Hclear & Hcase).
  rewrite Older_clearDirectory_Dir, Hclear.
  destruct (forallb _ entries); [|done]. by destruct Hcase as [-> ->].
Qed.

(** Two callbacks that answer alike on related states make walks that end
    alike on related states. *)
Lemma walk_alike {St1 St2 Err : Type}
    (fn1 : relpath → string → option node → option fsError → St1 → walkResult Err * St1)
    (fn2 : relpath → string → option node → option fsError → St2 → walkResult Err * St2)
    (R : St1 → St2 → Prop) :
  (∀ rel name info err s1 s2, R s1 s2 →
     (fn1 rel name info err s1).1 = (fn2 rel name info err s2).1
     ∧ R (fn1 rel name info err s1).2 (fn2 rel name info err s2).2) →
  ∀ n rel name s1 s2, R s1 s2 →
    (walk fn1 rel name n s1).1 = (walk fn2 rel name n s2).1
    ∧ R (walk fn1 rel name n s1).2 (walk fn2 rel name n s2).2.
Proof.
  intros Hfn.
  induction n as [t d|t|t n _|l entries IH] using node_ind'; intros rel name s1 s2 Hs;
    try by apply Hfn.
  cbn [walk].
  destruct (Hfn rel name (Some (Dir l entries))
              (if l then None else Some ErrPermission) s1 s2 Hs) as [Hr Hs'].
  destruct (fn1 rel name (Some (Dir l entries)) _ s1) as [r1 s1'].
  destruct (fn2 rel name (Some (Dir l entries)) _ s2) as [r2 s2'].
  simpl in Hr, Hs'. subst r2.
  destruct (negb l || negb (isNil r1)); [done|]. clear Hs s1 s2.
  revert s1' s2' Hs'. induction IH as [|[k c] rest Hc _ IHrest]; intros s1 s2 Hs; [done|].
  simpl in Hc. destruct (Hc (rel ++ [k]) k s1 s2 Hs) as [Hr Hs'].
  destruct (walk fn1 (rel ++ [k]) k c s1) as [r1' s1'].
  destruct (walk fn2 (rel ++ [k]) k c s2) as [r2' s2'].
  simpl in Hr, Hs'. subst r2'.
  destruct (isNil r1'); [by apply IHrest|].
  destruct (negb (IsDir c) || negb (isSkipDir r1')); [done|by apply IHrest].
Qed.

(** X25: the older [copyFiles] is the newer one outside append mode: the
    same count, the same error, the same tree. *)
Theorem Older_copyFiles_copyFiles (sys : Sys) (src : string) (target : node) :
  Older.copyFiles sys src target = copyFiles sys src target false.
Proof.
  unfold Older.copyFiles, copyFiles, copyFilesAndTrack, Walk.
  set (R := λ (s1 : Older.copyCount) (s2 : copyState),
              Older.cc_target s1 = cs_target s2 ∧ Older.cc_count s1 = cs_count s2).
  assert (∀ rel name info err s1 s2, R s1 s2 →
            (Older.copyFn sys rel name info err s1).1 = (copyFn sys false rel name info err s2).1
            ∧ R (Older.copyFn sys rel name info err s1).2
                (copyFn sys false rel name info err s2).2) as Hfn.
  { intros rel name info err s1 s2 [Ht Hc]. unfold Older.copyFn, copyFn.
    destruct err as [e|]; [done|]. destruct info as [info|]; [|done].
    destruct rel as [|r rel]; [done|]. destruct (IsDir info).
    { by destruct (isIgnoredDir name). }
    destruct (isIgnoredFile name); [done|]. rewrite Ht.
    destruct (MkdirAll (parentOf (r :: rel)) (cs_target s2)) as [target1|]; [|done].
    cbn [andb]. destruct (copyFile sys info (r :: rel) target1) as [[e|] target2]; [done|].
    split; [done|]. split; [done|]. simpl. by rewrite Hc. }
  set (s1 := {| Older.cc_target := target; Older.cc_count := 0 |}).
  set (s2 := {| cs_target := target; cs_count := 0; cs_newFiles := [] |}).
  assert (R s1 s2) as Hs by done.
  destruct (sys_lstat sys src) as [n|].
  - destruct (walk_alike (Older.copyFn sys) (copyFn sys false) R Hfn n []
                (GoPath.Base src) s1 s2 Hs) as [Hr [Ht Hc]].
    destruct (walk (Older.copyFn sys) [] (GoPath.Base src) n s1) as [r1 s1'].
    destruct (walk (copyFn sys false) [] (GoPath.Base src) n s2) as [r2 s2'].
    simpl in *. by rewrite Hr, Ht, Hc.
  - done.
Qed.

(** ** The window *)

Lemma resolveAuthor_configured (sys : Sys) (config : Config) (version : string) :
  AuthorsFile config = EmptyString →
  resolveAuthor sys config version = (Author config, Email config).
Proof. intros Hnone. unfold resolveAuthor. by rewrite Hnone. Qed.

Lemma madeFor_default (sys : Sys) (config : Config) (folder : FolderInfo) (c : Commit) :
  AuthorsFile config = EmptyString →
  MessageTemplate config = EmptyString →
  madeFor sys config folder c →
  CommitAuthor c = {| sig_Name := Author config; sig_Email := Email config;
                      sig_When := CreationTime folder |}
  ∧ Message c = defaultMessage (Version folder) (GoPath.Base (Path folder))
                  (sys_formatTime sys (CreationTime folder)).
Proof.
  intros Hauthors Htemplate. unfold madeFor.
  rewrite resolveAuthor_configured by done.
  intros [Hauthor (fileCount & _ & Hmsg)]. split; [done|].
  rewrite Hmsg. unfold commitMessage. by rewrite Htemplate.
Qed.

Lemma Gui_convert_config (sys : Sys) (refuses : CommitOracle) (errorText : Error → string)
    (g : Gui.GUI) (w : World) :
  Gui.config (Gui.convert sys refuses errorText g w).1 = Gui.config g.
Proof.
  unfold Gui.convert. cbn [Gui.config Gui.log Gui.setLogText].
  destruct (FindVersionedFolders sys (Gui.config g)) as [e|folders]; [done|].
  destruct (length folders =? 0)%nat; [done|].
  destruct (MigrateToGit sys refuses (Gui.config g) folders w) as [[e|] w']; [done|].
  by destruct (negb (DryRun (Gui.config g))).
Qed.

(** X26: whatever happens to the window, from the moment [main] made it,
    the configuration names no authors file and no message template: no
    handler sets either. *)
Theorem Gui_template_never_set (sys : Sys) (refuses : CommitOracle)
    (errorText : Error → string) (events : list Gui.Event) (w : World) :
  let g := (foldl (Gui.handle sys refuses errorText) (Gui.initial, w) events).1 in
  AuthorsFile (Gui.config g) = EmptyString
  ∧ MessageTemplate (Gui.config g) = EmptyString.
Proof.
  intros g. subst g.
  assert (∀ state,
            AuthorsFile (Gui.config state.1) = EmptyString
            ∧ MessageTemplate (Gui.config state.1) = EmptyString →
            AuthorsFile (Gui.config (foldl (Gui.handle sys refuses errorText) state events).1)
            = EmptyString
            ∧ MessageTemplate
                (Gui.config (foldl (Gui.handle sys refuses errorText) state events).1)
              = EmptyString) as Hrun.
  { induction events as [|event events IH]; intros [g w0] Hg; [done|].
    cbn [foldl]. apply IH. destruct event; cbn [Gui.handle fst]; try done.
    unfold Gui.startConversion.
    destruct (String.eqb (Gui.sourceEntry g) EmptyString); [done|].
    destruct (String.eqb (Gui.targetEntry g) EmptyString); [done|].
    pose proof (Gui_convert_config sys refuses errorText
                  (Gui.setConvertButton false "Выполняется..."
                     (Gui.setConfig (Gui.entered g) g)) w0) as Hsame.
    destruct (Gui.convert _ _ _ _ _) as [g' w']. simpl in *. by rewrite Hsame. }
  by apply Hrun.
Qed.

(** A conversion that got past the two checks of the entries. *)
Lemma Gui_startConversion_started (sys : Sys) (refuses : CommitOracle)
    (errorText : Error → string) (g : Gui.GUI) (w : World) :
  nonEmpty (Gui.sourceEntry g) && nonEmpty (Gui.targetEntry g) = true →
  Gui.startConversion sys refuses errorText g w
  = let '(g', w') :=
      Gui.convert sys refuses errorText
        (Gui.setConvertButton false "Выполняется..." (Gui.setConfig (Gui.entered g) g)) w in
    (Gui.setConvertButton true "Начать конвертацию" g', w').
Proof.
  unfold Gui.startConversion, nonEmpty.
  intros [Hs Ht]%andb_prop. apply negb_true_iff in Hs, Ht. by rewrite Hs, Ht.
Qed.

(** X27: what [startConversion] tells the user.  It opens at most one
    dialog.  An error dialog goes with a world left as it was, or with a
    migration that returned an error; the success dialog is opened only
    when the box for the dry run is not ticked and the migration of the
    discovered folders returned no error; when the box is ticked and nothing
    failed, no dialog is opened and the world is as it was. *)
Theorem Gui_startConversion_reports (sys : Sys) (refuses : CommitOracle)
    (errorText : Error → string) (g : Gui.GUI) (w : World) :
  let result := Gui.startConversion sys refuses errorText g w in
  (∃ text, Gui.dialogs result.1 = Gui.dialogs g ++ [Gui.ShowError text]
           ∧ (result.2 = w
              ∨ ∃ folders e,
                  FindVersionedFolders sys (Gui.entered g) = inr folders
                  ∧ MigrateToGit sys refuses (Gui.entered g) folders w = (Some e, result.2)))
  ∨ (∃ text folders,
       Gui.dialogs result.1 = Gui.dialogs g ++ [Gui.ShowInformation "Успех" text]
       ∧ Gui.dryRunCheck g = false
       ∧ FindVersionedFolders sys (Gui.entered g) = inr folders
       ∧ MigrateToGit sys refuses (Gui.entered g) folders w = (None, result.2))
  ∨ (Gui.dialogs result.1 = Gui.dialogs g ∧ Gui.dryRunCheck g = true ∧ result.2 = w).
Proof.
  intros result. subst result.
  destruct (nonEmpty (Gui.sourceEntry g) && nonEmpty (Gui.targetEntry g)) eqn:Hchecked.
  2: { left. unfold Gui.startConversion, nonEmpty in *.
       destruct (String.eqb (Gui.sourceEntry g) EmptyString);
         [eexists; split; [reflexivity|by left]|].
       destruct (String.eqb (Gui.targetEntry g) EmptyString);
         [eexists; split; [reflexivity|by left]|done]. }
  rewrite Gui_startConversion_started by done.
  unfold Gui.convert. cbn [Gui.config Gui.log Gui.setLogText Gui.setConvertButton Gui.setConfig].
  destruct (FindVersionedFolders sys (Gui.entered g)) as [e|folders] eqn:Hfound.
  { left. eexists. split; [reflexivity|by left]. }
  destruct (length folders =? 0)%nat.
  { left. eexists. split; [reflexivity|by left]. }
  destruct (MigrateToGit sys refuses (Gui.entered g) folders w) as [[e|] w'] eqn:Hrun.
  { left. eexists. split; [reflexivity|]. right. by exists folders, e. }
  cbn [DryRun Gui.entered Gui.dryRunCheck].
  destruct (Gui.dryRunCheck g) eqn:Hdry; cbn [negb].
  - right. right. split; [done|]. split; [done|]. cbn [snd].
    unfold MigrateToGit in Hrun. cbn [DryRun Gui.entered] in Hrun. rewrite Hdry in Hrun.
    by simplify_eq.
  - right. left. by eexists _, folders.
Qed.

Lemma append_empty_r (s : string) : s +:+ EmptyString = s.
Proof.
  induction s as [|c s IH]; [done|].
  change (String c (s +:+ EmptyString) = String c s). by rewrite IH.
Qed.

Lemma Gui_log_extends (start : string) (msg : string) (g : Gui.GUI) :
  (∃ added, Gui.logText g = start +:+ added) →
  ∃ added, Gui.logText (Gui.log msg g) = start +:+ added.
Proof.
  intros [added Hg]. exists (added +:+ String newline EmptyString +:+ msg).
  cbn [Gui.log Gui.setLogText Gui.logText]. by rewrite Hg, append_assoc.
Qed.

(** X28: when [startConversion] returns after it got past the checks of the
    entries, the button is enabled again and has its label back, however
    the conversion ended; when a check failed the button is as it was.  The
    text of the log only grows. *)
Theorem Gui_startConversion_button (sys : Sys) (refuses : CommitOracle)
    (errorText : Error → string) (g : Gui.GUI) (w : World) :
  let g' := (Gui.startConversion sys refuses errorText g w).1 in
  Gui.convertButton g'
  = (if nonEmpty (Gui.sourceEntry g) && nonEmpty (Gui.targetEntry g)
     then (true, "Начать конвертацию")
     else Gui.convertButton g)
  ∧ ∃ added, Gui.logText g' = Gui.logText g +:+ added.
Proof.
  intros g'. subst g'.
  destruct (nonEmpty (Gui.sourceEntry g) && nonEmpty (Gui.targetEntry g)) eqn:Hchecked.
  2: { unfold Gui.startConversion, nonEmpty in *.
       destruct (String.eqb (Gui.sourceEntry g) EmptyString);
         [split; [done|exists EmptyString; by rewrite append_empty_r]|].
       destruct (String.eqb (Gui.targetEntry g) EmptyString);
         [split; [done|exists EmptyString; by rewrite append_empty_r]|done]. }
  rewrite Gui_startConversion_started by done.
  set (g0 := Gui.setConvertButton false "Выполняется..." (Gui.setConfig (Gui.entered g) g)).
  assert (∃ added, Gui.logText g0 = Gui.logText g +:+ added) as Hstart.
  { exists EmptyString. by rewrite append_empty_r. }
  assert (∃ added, Gui.logText (Gui.convert sys refuses errorText g0 w).1
                   = Gui.logText g +:+ added) as Hlog.
  { unfold Gui.convert.
    apply (Gui_log_extends _ "Начинаем поиск папок с версиями...") in Hstart.
    set (g1 := Gui.log _ g0) in *.
    destruct (FindVersionedFolders sys (Gui.config g1)) as [e|folders].
    { by apply Gui_log_extends. }
    destruct (length folders =? 0)%nat.
    { by apply Gui_log_extends. }
    apply (Gui_log_extends _ ("Найдено " +:+ pretty (length folders) +:+ " папок с версиями"))
      in Hstart.
    set (g2 := Gui.log _ g1) in *.
    destruct (MigrateToGit sys refuses (Gui.config g2) folders w) as [[e|] w'].
    { by apply Gui_log_extends. }
    destruct (negb (DryRun (Gui.config g2))); by apply Gui_log_extends. }
  destruct (Gui.convert sys refuses errorText g0 w) as [g' w']. by split.
Qed.

Lemma Gui_convert_world (sys : Sys) (refuses : CommitOracle) (errorText : Error → string)
    (g : Gui.GUI) (w : World) :
  (Gui.convert sys refuses errorText g w).2 = w
  ∨ ∃ folders,
      FindVersionedFolders sys (Gui.config g) = inr folders
      ∧ (Gui.convert sys refuses errorText g w).2
        = (MigrateToGit sys refuses (Gui.config g) folders w).2.
Proof.
  unfold Gui.convert. cbn [Gui.config Gui.log Gui.setLogText].
  destruct (FindVersionedFolders sys (Gui.config g)) as [e|folders]; [by left|].
  destruct (length folders =? 0)%nat; [by left|]. right. exists folders. split; [done|].
  destruct (MigrateToGit sys refuses (Gui.config g) folders w) as [[e|] w']; [done|].
  by destruct (negb _).
Qed.

(** X29: the commits made from the window.  While the configuration names
    no authors file and no template, every commit a conversion adds has the
    name and the address of the two entries as its author and a message in
    the default format, and the commits are added in the order of their
    times. *)
Theorem Gui_startConversion_commits (sys : Sys) (refuses : CommitOracle)
    (errorText : Error → string) (g : Gui.GUI) (w : World) (repo : Repository) :
  AuthorsFile (Gui.config g) = EmptyString →
  MessageTemplate (Gui.config g) = EmptyString →
  startsFrom (Gui.entered g) w repo →
  let w' := (Gui.startConversion sys refuses errorText g w).2 in
  w' = w
  ∨ ∃ repo' made added,
      w_repo w' = Some repo'
      ∧ commitsOf repo' = commitsOf repo ++ added
      ∧ Sorted Z.le (CreationTime <$> made)
      ∧ Forall2 (λ folder c,
                   CommitAuthor c = {| sig_Name := Gui.authorEntry g;
                                       sig_Email := Gui.emailEntry g;
                                       sig_When := CreationTime folder |}
                   ∧ Message c = defaultMessage (Version folder) (GoPath.Base (Path folder))
                                   (sys_formatTime sys (CreationTime folder)))
                made added.
Proof.
  intros Hauthors Htemplate Hstart w'. subst w'.
  destruct (nonEmpty (Gui.sourceEntry g) && nonEmpty (Gui.targetEntry g)) eqn:Hchecked.
  2: { left. unfold Gui.startConversion, nonEmpty in *.
       destruct (String.eqb (Gui.sourceEntry g) EmptyString); [done|].
       by destruct (String.eqb (Gui.targetEntry g) EmptyString). }
  rewrite Gui_startConversion_started by done.
  set (g0 := Gui.setConvertButton false "Выполняется..." (Gui.setConfig (Gui.entered g) g)).
  destruct (Gui_convert_world sys refuses errorText g0 w) as [Hsame|(folders & Hfound & Hrun)].
  { left. by destruct (Gui.convert sys refuses errorText g0 w). }
  assert ((let '(g', w') := Gui.convert sys refuses errorText g0 w in
           (Gui.setConvertButton true "Начать конвертацию" g', w')).2
          = (MigrateToGit sys refuses (Gui.entered g) folders w).2) as ->.
  { change (Gui.entered g) with (Gui.config g0). rewrite <- Hrun.
    by destruct (Gui.convert sys refuses errorText g0 w). }
  change (Gui.config g0) with (Gui.entered g) in Hfound.
  destruct (MigrateToGit_opened sys refuses (Gui.entered g) folders w repo Hstart)
    as [Hsame|[target ->]]; [by left|]. right.
  set (existingVersions := if Append (Gui.entered g) then _ else _).
  destruct (processFolders_commits sys refuses (Gui.entered g) existingVersions folders
              target repo) as (made & added & Hc & Hsub & Hmade).
  destruct (processFolders sys refuses (Gui.entered g) existingVersions folders target repo)
    as [err [target' repo']].
  exists repo', made, added. split; [done|]. split; [done|]. split.
  - apply (Sorted_sublist Z.le _ (CreationTime <$> folders));
      [by apply fmap_sublist|by eapply FindVersionedFolders_times].
  - eapply Forall2_impl; [exact Hmade|]. intros folder c Hfor.
    by apply (madeFor_default sys (Gui.entered g)).
Qed.

Lemma Gui_startConversion_commits_witness :
  let w' := (Gui.startConversion demoSys neverRefuses noErrorText filledWindow nothingThere).2 in
  w' = nothingThere
  ∨ ∃ repo' made added,
      w_repo w' = Some repo'
      ∧ commitsOf repo' = commitsOf emptyRepository ++ added
      ∧ Sorted Z.le (CreationTime <$> made)
      ∧ Forall2 (λ folder c,
                   CommitAuthor c = {| sig_Name := Gui.authorEntry filledWindow;
                                       sig_Email := Gui.emailEntry filledWindow;
                                       sig_When := CreationTime folder |}
                   ∧ Message c = defaultMessage (Version folder) (GoPath.Base (Path folder))
                                   (sys_formatTime demoSys (CreationTime folder)))
                made added.
Proof.
  apply (Gui_startConversion_commits demoSys neverRefuses noErrorText filledWindow
           nothingThere emptyRepository).
  - reflexivity.
  - reflexivity.
  - split; reflexivity.
Defined.
